(** * Address book assistant (src/main.py): a shallow embedding and its properties

    The program is a single Python module: validated fields ([Name], [Phone],
    [Birthday]), a [Record] per contact, the [AddressBook] (a [UserDict] from
    name to record) with the upcoming-birthday query, and the command
    handlers wrapped by [handle_errors].

    Python values are modelled as follows.
    - [str] is a list of Unicode code points (integers), as [len], indexing
      and [str.isdigit] work on code points.
    - An exception is a value of [exn]; a computation that may raise returns
      a [result].
    - [Record] objects are mutable and shared between the dict and the
      handler's local variable, so they live in a heap and the dict holds
      references.
    - The clock ([datetime.today()]) is an explicit argument [today].
    - The loop of [main] is a function of the lines read; [str.lower] is a
      parameter of [parse_input]. *)

From Stdlib Require Import ZArith List String Ascii Lia Bool.
From Stdlib Require DecimalString.
From stdpp Require Import base list.

Local Open Scope Z_scope.

(** ** Python strings, exceptions *)

Module Py.

Definition str : Type := list Z.

(** An ASCII literal of the source as a [str]. *)
Definition lit (s : string) : str :=
  map (fun a => Z.of_N (N_of_ascii a)) (list_ascii_of_string s).

(** [str(n)] for a non-negative integer. *)
Definition str_of_nat (n : nat) : str :=
  lit (DecimalString.NilZero.string_of_uint (Nat.to_uint n)).

Inductive exn : Type :=
| ValueError (msg : str)
| KeyError
| IndexError (msg : str)
| OverflowError (msg : str)
| SystemError.

Inductive result (A : Type) : Type :=
| Ok (a : A)
| Raise (e : exn).
Arguments Ok {A} a.
Arguments Raise {A} e.

Definition bind {A B} (m : result A) (k : A -> result B) : result B :=
  match m with
  | Ok a => k a
  | Raise e => Raise e
  end.

(** [[f(x) for x in l]]: elements are evaluated left to right and the
    first exception aborts the comprehension. *)
Fixpoint map_result {A B} (f : A -> result B) (l : list A) : result (list B) :=
  match l with
  | [] => Ok []
  | x :: l' =>
      bind (f x) (fun y => bind (map_result f l') (fun ys => Ok (y :: ys)))
  end.

(** *** Unicode digit tables (Unicode 14.0, the database of CPython 3.11)

    [decimal_ranges] are the code points of category Nd, the ones
    [str.isdecimal], the regular expression class [\d] and [int] accept.
    Every range starts at a digit zero and runs through whole decades, so
    the value of a decimal code point is its offset modulo ten.
    [other_digit_ranges] are the code points with Numeric_Type=Digit that
    are not decimal (superscripts, circled digits, ...): [str.isdigit]
    accepts them too. *)
Definition decimal_ranges : list (Z * Z) :=
  [(48, 57); (1632, 1641); (1776, 1785); (1984, 1993); (2406, 2415);
   (2534, 2543); (2662, 2671); (2790, 2799); (2918, 2927); (3046, 3055);
   (3174, 3183); (3302, 3311); (3430, 3439); (3558, 3567); (3664, 3673);
   (3792, 3801); (3872, 3881); (4160, 4169); (4240, 4249); (6112, 6121);
   (6160, 6169); (6470, 6479); (6608, 6617); (6784, 6793); (6800, 6809);
   (6992, 7001); (7088, 7097); (7232, 7241); (7248, 7257); (42528, 42537);
   (43216, 43225); (43264, 43273); (43472, 43481); (43504, 43513);
   (43600, 43609); (44016, 44025); (65296, 65305); (66720, 66729);
   (68912, 68921); (69734, 69743); (69872, 69881); (69942, 69951);
   (70096, 70105); (70384, 70393); (70736, 70745); (70864, 70873);
   (71248, 71257); (71360, 71369); (71472, 71481); (71904, 71913);
   (72016, 72025); (72784, 72793); (73040, 73049); (73120, 73129);
   (92768, 92777); (92864, 92873); (93008, 93017); (120782, 120831);
   (123200, 123209); (123632, 123641); (125264, 125273); (130032, 130041)].

Definition other_digit_ranges : list (Z * Z) :=
  [(178, 179); (185, 185); (4969, 4977); (6618, 6618); (8304, 8304);
   (8308, 8313); (8320, 8329); (9312, 9320); (9332, 9340); (9352, 9360);
   (9450, 9450); (9461, 9469); (9471, 9471); (10102, 10110); (10112, 10120);
   (10122, 10130); (68160, 68163); (69216, 69224); (69714, 69722);
   (127232, 127242)].

Definition in_range (c : Z) (r : Z * Z) : bool :=
  (fst r <=? c) && (c <=? snd r).

Definition in_ranges (c : Z) (rs : list (Z * Z)) : bool :=
  existsb (in_range c) rs.

Definition isdecimal (c : Z) : bool := in_ranges c decimal_ranges.

Definition isdigit (c : Z) : bool :=
  isdecimal c || in_ranges c other_digit_ranges.

(** The digit value [int] gives a decimal code point. *)
Definition decimal_value (c : Z) : Z :=
  match find (in_range c) decimal_ranges with
  | Some r => (c - fst r) mod 10
  | None => 0
  end.

(** [int(s)] for [s] made of decimal code points. *)
Definition int_of_decimals (s : str) : Z :=
  fold_left (fun acc c => 10 * acc + decimal_value c) s 0.

(** [s.isdigit()]: every character is a digit and there is at least one. *)
Definition str_isdigit (s : str) : bool :=
  match s with
  | [] => false
  | _ => forallb isdigit s
  end.

(** [len(s)] *)
Definition len {A} (l : list A) : Z := Z.of_nat (length l).

(** Truth value of a string: non-empty. *)
Definition truthy (s : str) : bool :=
  match s with [] => false | _ => true end.

(** [s.split(sep)] for a one-character separator. *)
Fixpoint split_aux (sep : Z) (cur : str) (s : str) : list str :=
  match s with
  | [] => [rev cur]
  | c :: s' =>
      if c =? sep then rev cur :: split_aux sep [] s'
      else split_aux sep (c :: cur) s'
  end.

Definition split (sep : Z) (s : str) : list str := split_aux sep [] s.

(** [sep.join(l)] *)
Fixpoint join (sep : str) (l : list str) : str :=
  match l with
  | [] => []
  | [x] => x
  | x :: l' => x ++ sep ++ join sep l'
  end.

Definition str_eqb (a b : str) : bool :=
  bool_decide (a = b).

End Py.

Import Py.

Global Instance result_ret : MRet result := @Ok.
Global Instance result_bind : MBind result := fun A B k m => Py.bind m k.

(** ** The [datetime] module

    [date] follows Lib/datetime.py of CPython 3.11: the proleptic Gregorian
    ordinal helpers are the functions of that file. A [Birthday] holds a
    [datetime] whose time part is always midnight ([strptime] with a format
    without time directives), so only its date part is modelled. *)

Module Datetime.

Definition MINYEAR : Z := 1.
Definition MAXYEAR : Z := 9999.
Definition _MAXORDINAL : Z := 3652059.

Record date : Type := mkdate { year : Z; month : Z; day : Z }.

Global Instance date_eq_dec : EqDecision date.
Proof. solve_decision. Defined.

(** Index 0 is a placeholder ([-1]) in both tables. *)
Definition _DAYS_IN_MONTH : list Z :=
  [-1; 31; 28; 31; 30; 31; 30; 31; 31; 30; 31; 30; 31].

Definition _DAYS_BEFORE_MONTH : list Z :=
  [-1; 0; 31; 59; 90; 120; 151; 181; 212; 243; 273; 304; 334].

Definition index (l : list Z) (i : Z) : Z := nth (Z.to_nat i) l (-1).

Definition _is_leap (year : Z) : bool :=
  (year mod 4 =? 0) && (negb (year mod 100 =? 0) || (year mod 400 =? 0)).

Definition _days_before_year (year : Z) : Z :=
  let y := year - 1 in
  y * 365 + y / 4 - y / 100 + y / 400.

Definition _days_in_month (year month : Z) : Z :=
  if (month =? 2) && _is_leap year then 29
  else index _DAYS_IN_MONTH month.

Definition _days_before_month (year month : Z) : Z :=
  index _DAYS_BEFORE_MONTH month
  + (if (month >? 2) && _is_leap year then 1 else 0).

Definition _ymd2ord (year month day : Z) : Z :=
  _days_before_year year + _days_before_month year month + day.

Definition _DI400Y : Z := _days_before_year 401.
Definition _DI100Y : Z := _days_before_year 101.
Definition _DI4Y : Z := _days_before_year 5.

Definition _ord2ymd (n : Z) : Z * Z * Z :=
  let n := n - 1 in
  let n400 := n / _DI400Y in
  let n := n mod _DI400Y in
  let year := n400 * 400 + 1 in
  let n100 := n / _DI100Y in
  let n := n mod _DI100Y in
  let n4 := n / _DI4Y in
  let n := n mod _DI4Y in
  let n1 := n / 365 in
  let n := n mod 365 in
  let year := year + (n100 * 100 + n4 * 4 + n1) in
  if (n1 =? 4) || (n100 =? 4) then (year - 1, 12, 31)
  else
    let leapyear := (n1 =? 3) && (negb (n4 =? 24) || (n100 =? 3)) in
    let month := Z.shiftr (n + 50) 5 in
    let preceding :=
      index _DAYS_BEFORE_MONTH month
      + (if (month >? 2) && leapyear then 1 else 0) in
    let '(month, preceding) :=
      if preceding >? n then
        (month - 1,
         preceding - (index _DAYS_IN_MONTH (month - 1)
                      + (if (month - 1 =? 2) && leapyear then 1 else 0)))
      else (month, preceding) in
    let n := n - preceding in
    (year, month, n + 1).

(** [date(year, month, day)]: the constructor checks the fields. The
    messages are the ones of the C implementation CPython uses. *)
Definition new (year month day : Z) : result date :=
  if negb ((MINYEAR <=? year) && (year <=? MAXYEAR)) then
    Raise (ValueError (lit "year " ++ (if year <? 0 then lit "-" else [])
                       ++ str_of_nat (Z.abs_nat year)
                       ++ lit " is out of range"))
  else if negb ((1 <=? month) && (month <=? 12)) then
    Raise (ValueError (lit "month must be in 1..12"))
  else if negb ((1 <=? day) && (day <=? _days_in_month year month)) then
    Raise (ValueError (lit "day is out of range for month"))
  else Ok (mkdate year month day).

(** [d.replace(year=y)] *)
Definition replace_year (d : date) (y : Z) : result date :=
  new y (month d) (day d).

Definition toordinal (d : date) : Z := _ymd2ord (year d) (month d) (day d).

Definition fromordinal (n : Z) : result date :=
  let '(y, m, d) := _ord2ymd n in new y m d.

(** [d + timedelta(days=k)] *)
Definition add_days (d : date) (k : Z) : result date :=
  let o := toordinal d + k in
  if (0 <? o) && (o <=? _MAXORDINAL) then fromordinal o
  else Raise (OverflowError (lit "date value out of range")).

(** [(d1 - d2).days] *)
Definition sub_days (d1 d2 : date) : Z := toordinal d1 - toordinal d2.

(** [d1 < d2]: comparison of the (year, month, day) triples. *)
Definition ltb (d1 d2 : date) : bool :=
  (year d1 <? year d2)
  || ((year d1 =? year d2)
      && ((month d1 <? month d2)
          || ((month d1 =? month d2) && (day d1 <? day d2)))).

(** Monday is 0, Sunday is 6. *)
Definition weekday (d : date) : Z := (toordinal d + 6) mod 7.

(** The fields a date object can hold. *)
Definition valid (d : date) : Prop :=
  MINYEAR <= year d <= MAXYEAR /\ 1 <= month d <= 12
  /\ 1 <= day d <= _days_in_month (year d) (month d).

(** *** Formatting

    [strftime] hands the format to the C library. [%d] and [%m] are
    zero-padded to two digits. [%Y] is the year as a decimal number: glibc,
    the C library under CPython 3.11 on Linux, writes it without padding,
    so a year below 1000 has fewer than four digits ([datetime(990, 6,
    15).strftime("%Y")] is "990"). [isoformat] formats the year itself and
    always writes four digits. *)

(** The character of a digit value. *)
Definition digit (n : Z) : Z := 48 + n.

(** [%02d] of a number below 100. *)
Definition two_digits (n : Z) : str := [digit (n / 10); digit (n mod 10)].

(** [%04d] of a number below 10000. *)
Definition four_digits (n : Z) : str :=
  [digit (n / 1000); digit (n / 100 mod 10);
   digit (n / 10 mod 10); digit (n mod 10)].

(** [%Y]: the decimal text of the year, not padded. *)
Definition year_digits (n : Z) : str := str_of_nat (Z.to_nat n).

(** [d.strftime(fmt)] for formats made of [%d], [%m], [%Y] and literal
    characters. *)
Fixpoint strftime (fmt : str) (d : date) : str :=
  match fmt with
  | [] => []
  | c :: fmt' =>
      match fmt' with
      | [] => [c]
      | k :: fmt'' =>
          if c =? 37 then
            (if k =? 100 then two_digits (day d)
             else if k =? 109 then two_digits (month d)
             else if k =? 89 then year_digits (year d)
             else [c; k]) ++ strftime fmt'' d
          else c :: strftime fmt' d
      end
  end.

(** [str(dt)] of the midnight datetime: [isoformat(sep=' ')]. *)
Definition isoformat (d : date) : str :=
  four_digits (year d) ++ lit "-" ++ two_digits (month d) ++ lit "-"
  ++ two_digits (day d) ++ lit " 00:00:00".

(** *** Parsing: [datetime.strptime(s, "%d.%m.%Y")]

    Lib/_strptime.py compiles the format to the regular expression
    [(?P<d>3[0-1]|[1-2]\d|0[1-9]|[1-9]| [1-9])\.(?P<m>1[0-2]|0[1-9]|[1-9])\.(?P<Y>\d\d\d\d)]
    and matches it at the start of the data. A matcher returns the
    (consumed text, remaining text) pairs of its matches in the order a
    backtracking search tries them, so [re.match] finds the head of the
    list. The IGNORECASE flag of the compiled pattern changes nothing for
    digits, dots and spaces. *)
Definition matcher : Type := str -> list (str * str).

Definition chr (a : ascii) : Z := Z.of_N (N_of_ascii a).

Definition one (p : Z -> bool) : matcher :=
  fun s =>
    match s with
    | c :: r => if p c then [([c], r)] else []
    | [] => []
    end.

Definition char (a : ascii) : matcher := one (Z.eqb (chr a)).

Definition rng (lo hi : ascii) : matcher :=
  one (fun c => (chr lo <=? c) && (c <=? chr hi)).

Definition seq (a b : matcher) : matcher :=
  fun s => '(t1, r1) ← a s; '(t2, r2) ← b r1; [(t1 ++ t2, r2)].

Definition alt (ms : list matcher) : matcher :=
  fun s => m ← ms; m s.

Definition re_d : matcher :=
  alt [seq (char "3") (rng "0" "1"); seq (rng "1" "2") (one isdecimal);
       seq (char "0") (rng "1" "9"); rng "1" "9";
       seq (char " ") (rng "1" "9")].

Definition re_m : matcher :=
  alt [seq (char "1") (rng "0" "2"); seq (char "0") (rng "1" "9");
       rng "1" "9"].

Definition re_Y : matcher :=
  seq (one isdecimal)
    (seq (one isdecimal) (seq (one isdecimal) (one isdecimal))).

(** A group followed by [\.]: the text of the group and the rest after
    the dot. *)
Definition group_dot (g : matcher) : matcher :=
  fun s => '(t, r) ← g s; '(_, r) ← char "." r; [(t, r)].

(** The groups (d, m, Y) and the unconsumed rest of each match. *)
Definition re_format (s : str) : list (str * str * str * str) :=
  '(d, r) ← group_dot re_d s;
  '(m, r) ← group_dot re_m r;
  '(y, r) ← re_Y r;
  [(d, m, y, r)].

(** [int(group)]: [int] skips the space the day group may start with. *)
Fixpoint lstrip (g : str) : str :=
  match g with
  | c :: g' => if c =? chr " " then lstrip g' else g
  | [] => []
  end.

Definition int_of_group (g : str) : Z := int_of_decimals (lstrip g).

(** The texts of the two [ValueError]s of [_strptime] quote the data; only
    their fixed part is kept, as [Birthday] replaces the message. *)
Definition strptime (data_string : str) : result date :=
  match re_format data_string with
  | [] => Raise (ValueError (lit "time data does not match format"))
  | (d, m, y, rest) :: _ =>
      if negb (len rest =? 0) then
        Raise (ValueError (lit "unconverted data remains: " ++ rest))
      else new (int_of_group y) (int_of_group m) (int_of_group d)
  end.

End Datetime.

(** ** Fields *)

(** [Field.__str__]: [str(self.value)]. *)
Class Field (F : Type) : Type := __str__ : F -> str.

Record Name : Type := mkName { name_value : str }.
Record Phone : Type := mkPhone { phone_value : str }.
Record Birthday : Type := mkBirthday { birthday_value : Datetime.date }.

Global Instance Name_field : Field Name := name_value.
Global Instance Phone_field : Field Phone := phone_value.
(** [Birthday] inherits [__str__] too: it is [str] of the stored datetime. *)
Global Instance Birthday_field : Field Birthday :=
  fun b => Datetime.isoformat (birthday_value b).

Definition Name_init (name : str) : result Name :=
  if negb (truthy name) then Raise (ValueError (lit "Name cannot be empty"))
  else Ok (mkName name).

Definition Phone_init (phone : str) : result Phone :=
  if negb (str_isdigit phone) || negb (len phone =? 10) then
    Raise (ValueError
             (lit "Invalid phone number format. Must contain 10 digits."))
  else Ok (mkPhone phone).

Definition Birthday_init (value : str) : result Birthday :=
  match Datetime.strptime value with
  | Ok d => Ok (mkBirthday d)
  | Raise (ValueError _) =>
      Raise (ValueError (lit "Invalid date format. Use DD.MM.YYYY"))
  | Raise e => Raise e
  end.

(** ** Record

    A method is a function from the object to its result and the object
    after the call. The [Phone] objects of a list are created by the method
    that stores them and no two entries are the same object, so they are
    kept by value. *)

Module Rec.

Record t : Type := mk {
  name : Name;
  phones : list Phone;
  birthday : option Birthday
}.

Definition set_phones (ps : list Phone) (self : t) : t :=
  mk (name self) ps (birthday self).

Definition set_birthday (b : option Birthday) (self : t) : t :=
  mk (name self) (phones self) b.

Definition init (name : str) : result t :=
  n ← Name_init name; Ok (mk n [] None).

Definition add_phone (phone : str) (self : t) : result unit * t :=
  match Phone_init phone with
  | Ok p => (Ok (), set_phones (phones self ++ [p]) self)
  | Raise e => (Raise e, self)
  end.

Definition remove_phone (phone : str) (self : t) : result unit * t :=
  (Ok (),
   set_phones (filter (fun p => __str__ p ≠ phone) (phones self)) self).

Definition edit_phone (old_phone new_phone : str) (self : t)
  : result unit * t :=
  (Ok (),
   set_phones
     (map (fun phone =>
             if str_eqb (__str__ phone) old_phone then mkPhone new_phone
             else phone)
        (phones self))
     self).

(** Returns [None] when the loop ends without a match. *)
Definition find_phone (phone : str) (self : t) : option str :=
  phone_value <$> find (fun p => str_eqb (__str__ p) phone) (phones self).

Definition add_birthday (birthday : str) (self : t) : result unit * t :=
  match Birthday_init birthday with
  | Ok b => (Ok (), set_birthday (Some b) self)
  | Raise e => (Raise e, self)
  end.

(** [Record.__str__] *)
Definition to_str (self : t) : str :=
  let phones_str := join (lit "; ") (map __str__ (phones self)) in
  let birthday_str :=
    match birthday self with
    | Some b => Datetime.strftime (lit "%d %m %Y") (birthday_value b)
    | None => lit "None"
    end in
  lit "Contact name: " ++ name_value (name self) ++ lit ", phones: "
  ++ phones_str ++ lit ", Birthday: " ++ birthday_str.

End Rec.

(** ** The object store

    [Record] objects are mutated in place through whichever variable holds
    them, so they are kept in a heap of objects and named by their index.
    The state of the program is the heap and [book.data], the dict of the
    one [AddressBook], whose values are references. *)

Abbreviation ref := nat (only parsing).

Record State : Type := mkState {
  heap : list Rec.t;
  data : list (str * ref)
}.

(** A computation that reads and writes the state and may raise; the state
    reached when an exception is raised is kept, as mutations made before
    the [raise] are not undone. *)
Definition M (A : Type) : Type := State -> result A * State.

Global Instance M_ret : MRet M := fun A a st => (Ok a, st).
Global Instance M_bind : MBind M := fun A B k m st =>
  match m st with
  | (Ok a, st') => k a st'
  | (Raise e, st') => (Raise e, st')
  end.

Definition raise {A} (e : exn) : M A := fun st => (Raise e, st).

Definition lift {A} (r : result A) : M A := fun st => (r, st).

(** [Record(name)]: a new object, if the constructor returns. *)
Definition Record_new (name : str) : M ref := fun st =>
  match Rec.init name with
  | Ok o => (Ok (length (heap st)), mkState (heap st ++ [o]) (data st))
  | Raise e => (Raise e, st)
  end.

(** A method call on the object a reference names. References are made by
    [Record_new] only and objects are never freed, so the lookup succeeds;
    the other branch is there for totality. *)
Definition call {A} (r : ref) (method : Rec.t -> result A * Rec.t) : M A :=
  fun st =>
    match heap st !! r with
    | Some self =>
        let '(res, self') := method self in
        (res, mkState (<[r := self']> (heap st)) (data st))
    | None => (Raise SystemError, st)
    end.

(** Reading an attribute of the object a reference names. *)
Definition attr {A} (r : ref) (field : Rec.t -> A) : M A :=
  call r (fun self => (Ok (field self), self)).

(** An update of [book.data]. *)
Definition set_data (f : list (str * ref) -> list (str * ref)) : M unit :=
  fun st => (Ok (), mkState (heap st) (f (data st))).

(** ** dict: insertion-ordered, one entry per key *)

Module Dict.
Section Dict.
Context {V : Type}.

Fixpoint get (k : str) (d : list (str * V)) : option V :=
  match d with
  | [] => None
  | (k', v) :: d' => if str_eqb k' k then Some v else get k d'
  end.

(** [d[k] = v]: an existing key keeps its place. *)
Fixpoint set (k : str) (v : V) (d : list (str * V)) : list (str * V) :=
  match d with
  | [] => [(k, v)]
  | (k', v') :: d' =>
      if str_eqb k' k then (k', v) :: d' else (k', v') :: set k v d'
  end.

(** [del d[k]] *)
Fixpoint del (k : str) (d : list (str * V)) : list (str * V) :=
  match d with
  | [] => []
  | (k', v) :: d' => if str_eqb k' k then d' else (k', v) :: del k d'
  end.

Definition contains (k : str) (d : list (str * V)) : bool :=
  match get k d with Some _ => true | None => false end.

Definition keys (d : list (str * V)) : list str := map fst d.
Definition values (d : list (str * V)) : list V := map snd d.
End Dict.
End Dict.

(** ** AddressBook *)

Module AddressBook.

Definition add_record (record : ref) : M unit :=
  name ← attr record Rec.name;
  set_data (Dict.set (name_value name) record).

Definition find (name : str) : M (option ref) := fun st =>
  (Ok (Dict.get name (data st)), st).

Definition delete (name : str) : M unit := fun st =>
  if Dict.contains name (data st) then set_data (Dict.del name) st
  else (Ok (), st).

(** One element of the returned list: the dict with the keys ["name"] and
    ["congratulation_date"]. *)
Record entry : Type := mk_entry {
  e_name : str;
  e_congratulation_date : str
}.

(** The body of the loop for one record; [None] when nothing is
    appended. *)
Definition upcoming (today : Datetime.date) (record : Rec.t)
  : result (option entry) :=
  match Rec.birthday record with
  | Some b =>
      let birthday_date := birthday_value b in
      birthday_this_year ←
        Datetime.replace_year birthday_date (Datetime.year today);
      birthday_this_year ←
        (if Datetime.ltb birthday_this_year today then
           Datetime.replace_year birthday_this_year
             (Datetime.year today + 1)
         else Ok birthday_this_year);
      let days_until_birthday :=
        Datetime.sub_days birthday_this_year today in
      if (0 <=? days_until_birthday) && (days_until_birthday <=? 7) then
        let wd := Datetime.weekday birthday_this_year in
        let days_until_birthday :=
          if (wd =? 5) || (wd =? 6) then days_until_birthday + (7 - wd)
          else days_until_birthday in
        congratulation_date ← Datetime.add_days today days_until_birthday;
        let congratulation_date_str :=
          Datetime.strftime (lit "%Y.%m.%d") congratulation_date in
        Ok (Some (mk_entry (name_value (Rec.name record))
                    congratulation_date_str))
      else Ok None
  | None => Ok None
  end.

Fixpoint upcoming_loop (today : Datetime.date) (records : list Rec.t)
  (upcoming_birthdays : list entry) : result (list entry) :=
  match records with
  | [] => Ok upcoming_birthdays
  | record :: records' =>
      e ← upcoming today record;
      upcoming_loop today records'
        (match e with
         | Some e => upcoming_birthdays ++ [e]
         | None => upcoming_birthdays
         end)
  end.

(** [self.data.values()], dereferenced. *)
Definition records (st : State) : list Rec.t :=
  omap (fun r => heap st !! r) (Dict.values (data st)).

Definition get_upcoming_birthdays (today : Datetime.date)
  : M (list entry) := fun st =>
  (upcoming_loop today (records st) [], st).

End AddressBook.

(** ** Command handlers *)

Definition not_found : str :=
  lit "This name is not entered in the phone book.".

(** The decorator: [ValueError] and [KeyError] become the returned string,
    any other exception leaves the wrapper. *)
Definition handle_errors (func : M str) : M str := fun st =>
  match func st with
  | (Raise (ValueError msg), st') => (Ok msg, st')
  | (Raise KeyError, st') => (Ok not_found, st')
  | r => r
  end.

Definition add_contact (args : list str) : M str :=
  handle_errors
    match args with
    | name :: phone :: _ =>
        record ← AddressBook.find name;
        '(record, message) ←
          match record with
          | None =>
              record ← Record_new name;
              _ ← AddressBook.add_record record;
              mret (record, lit "Contact added.")
          | Some record => mret (record, lit "Contact updated.")
          end;
        _ ← (if truthy phone then call record (Rec.add_phone phone)
             else mret ());
        mret message
    | _ =>
        raise (ValueError
                 (lit "not enough values to unpack (expected at least 2, got "
                  ++ str_of_nat (length args) ++ lit ")"))
    end.

(** [name, phone = args] *)
Definition unpack2 (args : list str) : M (str * str) :=
  match args with
  | [a; b] => mret (a, b)
  | [] | [_] =>
      raise (ValueError
               (lit "not enough values to unpack (expected 2, got "
                ++ str_of_nat (length args) ++ lit ")"))
  | _ => raise (ValueError (lit "too many values to unpack (expected 2)"))
  end.

(** [args[0]] *)
Definition index0 (args : list str) : M str :=
  match args with
  | a :: _ => mret a
  | [] => raise (IndexError (lit "list index out of range"))
  end.

Definition change_contact (args : list str) : M str :=
  handle_errors
    ('(name, phone) ← unpack2 args;
     record ← AddressBook.find name;
     match record with
     | Some record =>
         phones ← lift (map_result Phone_init (split (Datetime.chr ",") phone));
         _ ← call record (fun self => (Ok (), Rec.set_phones phones self));
         mret (lit "Contact changed.")
     | None => mret not_found
     end).

Definition show_phone (args : list str) : M str :=
  handle_errors
    (name ← index0 args;
     record ← AddressBook.find name;
     match record with
     | Some record =>
         phones ← attr record Rec.phones;
         mret (join (lit "; ") (map __str__ phones))
     | None => mret not_found
     end).

Definition show_all : M str :=
  handle_errors
    (fun st =>
       (Ok (join (lit (String "010" ""))
              (map Rec.to_str (AddressBook.records st))), st)).

Definition add_birthday (args : list str) : M str :=
  handle_errors
    ('(name, birthday) ← unpack2 args;
     record ← AddressBook.find name;
     match record with
     | Some record =>
         _ ← call record (Rec.add_birthday birthday);
         mret (lit "Birthday added.")
     | None => mret not_found
     end).

Definition show_birthday (args : list str) : M str :=
  handle_errors
    (name ← index0 args;
     record ← AddressBook.find name;
     birthday ← match record with
                | Some record => attr record Rec.birthday
                | None => mret None
                end;
     match birthday with
     | Some b =>
         mret (Datetime.strftime (lit "%d.%m.%Y") (birthday_value b))
     | None =>
         mret (lit "This name is not entered in the phone book or birthday is not set.")
     end).

Definition birthdays (today : Datetime.date) : M str :=
  handle_errors
    (upcoming_birthdays ← AddressBook.get_upcoming_birthdays today;
     match upcoming_birthdays with
     | [] => mret (lit "No upcoming birthdays in the next week.")
     | _ =>
         mret (join (lit (String "010" ""))
                 (map (fun b =>
                         lit "Name: " ++ AddressBook.e_name b
                         ++ lit ", Birthday: "
                         ++ AddressBook.e_congratulation_date b)
                    upcoming_birthdays))
     end).

Definition empty_book : State := mkState [] [].

(** ** The command loop

    [parse_input] and the body of the [while] loop of [main]. The loop reads
    a line, prints one answer and goes on, or saves the book and stops; the
    line read and the clock are arguments, what is printed and what is saved
    are part of the result. [load_data] and [save_data] themselves, which
    read and write a pickle file, are outside the model. *)

(** The code points [str.isspace] holds of (Unicode 14.0): [str.split()]
    separates on them and [str.strip()] trims them. *)
Definition space_ranges : list (Z * Z) :=
  [(9, 13); (28, 32); (133, 133); (160, 160); (5760, 5760); (8192, 8202);
   (8232, 8233); (8239, 8239); (8287, 8287); (12288, 12288)].

Definition isspace (c : Z) : bool := in_ranges c space_ranges.

(** [s.split()]: the maximal runs of characters that are not spaces;
    [cur] is the run being read, reversed. *)
Fixpoint split_ws_aux (cur : str) (s : str) : list str :=
  match s with
  | [] => match cur with [] => [] | _ => [rev cur] end
  | c :: s' =>
      if isspace c then
        match cur with
        | [] => split_ws_aux [] s'
        | _ => rev cur :: split_ws_aux [] s'
        end
      else split_ws_aux (c :: cur) s'
  end.

Definition split_ws (s : str) : list str := split_ws_aux [] s.

(** [s.lstrip()] and [s.strip()] *)
Fixpoint lstrip_ws (s : str) : str :=
  match s with
  | c :: s' => if isspace c then lstrip_ws s' else s
  | [] => []
  end.

Definition strip (s : str) : str := rev (lstrip_ws (rev (lstrip_ws s))).

(** What one turn of the loop does besides changing the book: it prints a
    line and goes on, or prints, saves the book and leaves the loop. *)
Inductive outcome : Type :=
| Continue (printed : str)
| Break (printed : str) (saved : State).

(** The [if]/[elif] chain of [main] on a parsed command. *)
Definition dispatch (today : Datetime.date) (command : str)
  (args : list str) : M outcome :=
  if existsb (str_eqb command) [lit "close"; lit "exit"] then
    fun st => (Ok (Break (lit "Good bye!") st), st)
  else if str_eqb command (lit "hello") then
    mret (Continue (lit "How can I help you?"))
  else if str_eqb command (lit "add") then
    out ← add_contact args; mret (Continue out)
  else if str_eqb command (lit "change") then
    out ← change_contact args; mret (Continue out)
  else if str_eqb command (lit "phone") then
    out ← show_phone args; mret (Continue out)
  else if str_eqb command (lit "all") then
    out ← show_all; mret (Continue out)
  else if str_eqb command (lit "add-birthday") then
    out ← add_birthday args; mret (Continue out)
  else if str_eqb command (lit "show-birthday") then
    out ← show_birthday args; mret (Continue out)
  else if str_eqb command (lit "birthdays") then
    out ← birthdays today; mret (Continue out)
  else mret (Continue (lit "Invalid command.")).

Section Main.

(** [str.lower] needs the case tables of Unicode; it is a parameter, and
    what is proved holds for every such function. *)
Variable lower : str -> str.

(** The returned tuple [(cmd, *args)] as a pair. *)
Definition parse_input (user_input : str) : result (str * list str) :=
  match split_ws user_input with
  | cmd :: args => Ok (lower (strip cmd), args)
  | [] =>
      Raise (ValueError
               (lit "not enough values to unpack (expected at least 1, got 0)"))
  end.

(** One turn of the loop on the line [user_input], read at date [today]. *)
Definition main_iteration (today : Datetime.date) (user_input : str)
  : M outcome :=
  '(command, args) ← lift (parse_input user_input);
  dispatch today command args.

(** The loop on the lines [inputs], each with the date it is read at: the
    lines printed and how the loop stands after the last line, or the
    exception that ended it. *)
Inductive status : Type :=
| Running (st : State)
| Exited (saved : State)
| Crashed (e : exn) (st : State).

Fixpoint main_loop (inputs : list (Datetime.date * str)) (st : State)
  : list str * status :=
  match inputs with
  | [] => ([], Running st)
  | (today, user_input) :: inputs' =>
      match main_iteration today user_input st with
      | (Ok (Continue printed), st') =>
          let '(out, fin) := main_loop inputs' st' in (printed :: out, fin)
      | (Ok (Break printed saved), _) => ([printed], Exited saved)
      | (Raise e, st') => ([], Crashed e st')
      end
  end.

End Main.

(** * Vocabulary of the properties

    The predicates, the sample states and the helper functions the
    statements below are written with. *)

Section Vocabulary.
Import Datetime AddressBook.

(** The message of the [ValueError] of [Phone]. *)
Definition phone_error : str :=
  lit "Invalid phone number format. Must contain 10 digits.".

(** What the constructor accepts: ten characters, each a digit for
    [str.isdigit]. *)
Definition phone_ok (s : str) : Prop :=
  length s = 10%nat /\ Forall (fun c => isdigit c = true) s.

(** The code points of the characters 0 to 9. *)
Definition ascii_digit (c : Z) : Prop := 48 <= c <= 57.

(** The reading of "a string of exactly ten decimal digits": ten characters,
    each a decimal digit of Unicode (the ASCII digits among them). *)
Definition ten_decimal_digits (s : str) : Prop :=
  length s = 10%nat /\ Forall (fun c => isdecimal c = true) s.

(** SUPERSCRIPT TWO, ten times. *)
Definition superscript_twos : str := replicate 10 178.

(** The separator of [phone.split(',')]. *)
Definition comma : Z := Datetime.chr ",".

(** A book with John and one phone. *)
Definition john_book : State :=
  mkState [Rec.mk (mkName (lit "John")) [mkPhone (lit "1234567890")] None]
    [(lit "John", 0%nat)].

(** The invariant of the book: one entry per key, and every key is the name
    of the record its value refers to. *)
Definition book_inv (st : State) : Prop :=
  NoDup (Dict.keys (data st))
  /\ forall k r, (k, r) ∈ data st ->
       exists o, heap st !! r = Some o /\ name_value (Rec.name o) = k.

(** A computation keeps the invariant, whether it returns or raises. *)
Definition preserves {A} (m : M A) : Prop :=
  forall st, book_inv st -> book_inv (snd (m st)).

(** Two record objects named John, the first with a phone, and a book that
    holds neither yet. *)
Definition two_johns : State :=
  mkState
    [Rec.mk (mkName (lit "John")) [mkPhone (lit "1234567890")] None;
     Rec.mk (mkName (lit "John")) [] None]
    [].

(** The message of the [ValueError] of [Birthday]. *)
Definition date_error : str := lit "Invalid date format. Use DD.MM.YYYY".

(** The number two ASCII digits write. *)
Definition num2 (a b : Z) : Z := 10 * (a - 48) + (b - 48).

(** The number four ASCII digits write. *)
Definition num4 (a b c d : Z) : Z :=
  1000 * (a - 48) + 100 * (b - 48) + 10 * (c - 48) + (d - 48).

(** A text of digits without its leading zeros; the last character stays
    when all are zeros. *)
Fixpoint drop_zeros (s : str) : str :=
  match s with
  | c :: (_ :: _) as s' => if c =? 48 then drop_zeros s' else s
  | _ => s
  end.

(** A match of [a] consumes a prefix of the data, and the consumed text
    satisfies [Q]. *)
Definition splits (Q : str -> Prop) (a : matcher) : Prop :=
  forall s t r, (t, r) ∈ a s -> s = t ++ r /\ Q t.

(** One or two characters. *)
Definition short (t : str) : Prop := (1 <= length t <= 2)%nat.

(** Four decimal characters, the text of the year group. *)
Definition four_decimals (t : str) : Prop :=
  length t = 4%nat /\ Forall (fun c => isdecimal c = true) t.

(** The shape of a string the pattern matches: a day group of one or two
    characters, a dot, a month group of one or two characters, a dot and
    four decimals. *)
Definition dmy_shape (s d m y : str) : Prop :=
  s = d ++ 46 :: m ++ 46 :: y
  /\ short d /\ short m /\ four_decimals y.

(** [_days_in_month] and [_days_before_month] as functions of the leap flag
    of the year. *)
Definition dim (leap : bool) (m : Z) : Z :=
  if (m =? 2) && leap then 29 else index _DAYS_IN_MONTH m.

Definition dbm (leap : bool) (m : Z) : Z :=
  index _DAYS_BEFORE_MONTH m + (if (m >? 2) && leap then 1 else 0).

(** The last part of [_ord2ymd]: month and day from the offset [n] in the
    year. *)
Definition month_day (leapyear : bool) (n : Z) : Z * Z :=
  let month := Z.shiftr (n + 50) 5 in
  let preceding :=
    index _DAYS_BEFORE_MONTH month
    + (if (month >? 2) && leapyear then 1 else 0) in
  let '(month, preceding) :=
    if preceding >? n then
      (month - 1,
       preceding - (index _DAYS_IN_MONTH (month - 1)
                    + (if (month - 1 =? 2) && leapyear then 1 else 0)))
    else (month, preceding) in
  (month, n - preceding + 1).

(** [month_day] returns a month and a day of the calendar whose day of the
    year is [n + 1]. *)
Definition month_day_ok (leap : bool) (n : Z) : bool :=
  let '(m, d) := month_day leap n in
  (1 <=? m) && (m <=? 12) && (1 <=? d) && (d <=? dim leap m)
  && (dbm leap m + d =? n + 1).

(** [f] holds of 0, ..., [n - 1]. *)
Fixpoint all_below (n : nat) (f : Z -> bool) : bool :=
  match n with
  | O => true
  | S n' => f (Z.of_nat n') && all_below n' f
  end.

(** The occurrence the loop body computes from a birthday: this year's, and
    next year's when this year's is before today. *)
Definition occurrence (today birthday_date : Datetime.date)
  : result Datetime.date :=
  birthday_this_year ←
    Datetime.replace_year birthday_date (Datetime.year today);
  if Datetime.ltb birthday_this_year today then
    Datetime.replace_year birthday_this_year (Datetime.year today + 1)
  else Ok birthday_this_year.

(** The days from today to the congratulation date: the days to the
    occurrence, moved to the Monday after a Saturday or a Sunday. *)
Definition congratulation_days (today occ : Datetime.date) : Z :=
  let wd := Datetime.weekday occ in
  if (wd =? 5) || (wd =? 6) then Datetime.sub_days occ today + (7 - wd)
  else Datetime.sub_days occ today.

(** Monday 10 June 2024. *)
Definition june_10_2024 : date := mkdate 2024 6 10.

(** Bob, born 15.06.1990, and Alice, born 29.02.2000, as the handlers store
    them. *)
Definition bob : Rec.t :=
  Rec.mk (mkName (lit "Bob")) [mkPhone (lit "0501234567")]
    (Some (mkBirthday (Datetime.mkdate 1990 6 15))).

Definition alice : Rec.t :=
  Rec.mk (mkName (lit "Alice")) [mkPhone (lit "0507654321")]
    (Some (mkBirthday (Datetime.mkdate 2000 2 29))).

Definition leap_day_book : State :=
  mkState [bob; alice] [(lit "Bob", 0%nat); (lit "Alice", 1%nat)].

(** The state after a list of handler calls, the answers dropped. *)
Definition run (commands : list (M str)) (st : State) : State :=
  fold_left (fun st c => snd (c st)) commands st.

(** What the constructors let into a record: a name that is not empty,
    phones [Phone] accepts and a birthday that is a date of the calendar. *)
Definition record_ok (o : Rec.t) : Prop :=
  name_value (Rec.name o) <> []
  /\ Forall (fun p => phone_ok (phone_value p)) (Rec.phones o)
  /\ forall b, Rec.birthday o = Some b -> valid (birthday_value b).

(** Every record object satisfies [record_ok]. *)
Definition data_valid (st : State) : Prop := Forall record_ok (heap st).

(** A computation keeps a property of the state, whether it returns or
    raises. *)
Definition keeps (P : State -> Prop) {A} (m : M A) : Prop :=
  forall st, P st -> P (snd (m st)).

(** The state the loop stands in after its last line. *)
Definition final_state (fin : status) : State :=
  match fin with
  | Running st => st
  | Exited saved => saved
  | Crashed _ st => st
  end.

(** The ten keywords of the [if]/[elif] chain of [main]. *)
Definition keywords : list str :=
  [lit "close"; lit "exit"; lit "hello"; lit "add"; lit "change";
   lit "phone"; lit "all"; lit "add-birthday"; lit "show-birthday";
   lit "birthdays"].

(** A book with Ann, born 15.06.1990, and Carl, without a birthday. *)
Definition ann_book : State :=
  mkState
    [Rec.mk (mkName (lit "Ann")) []
       (Some (mkBirthday (mkdate 1990 6 15)));
     Rec.mk (mkName (lit "Carl")) [mkPhone (lit "1234567890")] None]
    [(lit "Ann", 0%nat); (lit "Carl", 1%nat)].

(** The name of a record. *)
Definition record_name (o : Rec.t) : str := name_value (Rec.name o).

(** The line the [birthdays] handler writes for an entry of the query. *)
Definition birthday_line (e : entry) : str :=
  lit "Name: " ++ e_name e ++ lit ", Birthday: " ++ e_congratulation_date e.

(** A birthday on 29 February. *)
Definition leap_day (d : date) : Prop := month d = 2 /\ day d = 29.

(** The message of [date] for a day the month does not have. *)
Definition day_error : str := lit "day is out of range for month".

End Vocabulary.

(** * Properties *)

(** ** Phone *)

Lemma str_eqb_eq (a b : str) : str_eqb a b = true <-> a = b.
Proof. unfold str_eqb. apply bool_decide_eq_true. Qed.

Lemma str_eqb_refl (a : str) : str_eqb a a = true.
Proof. by apply str_eqb_eq. Qed.

Lemma str_eqb_neq (a b : str) : a <> b -> str_eqb a b = false.
Proof. unfold str_eqb. apply bool_decide_eq_false. Qed.

Lemma ascii_digit_isdecimal c : ascii_digit c -> isdecimal c = true.
Proof.
  intros [H1 H2]. unfold isdecimal, in_ranges, decimal_ranges.
  cbn [existsb]. unfold in_range at 1. cbn [fst snd].
  apply orb_true_iff. left. apply andb_true_iff. split; lia.
Qed.

Lemma ascii_digit_isdigit c : ascii_digit c -> isdigit c = true.
Proof.
  intros H. unfold isdigit. by rewrite ascii_digit_isdecimal.
Qed.

Lemma str_isdigit_true (s : str) :
  str_isdigit s = true <-> s <> [] /\ Forall (fun c => isdigit c = true) s.
Proof.
  destruct s as [|c s]; [split; [discriminate | intros [[] _]; reflexivity]|].
  unfold str_isdigit. rewrite forallb_forall, Forall_forall.
  split.
  - intros H. split; [discriminate|]. intros x Hx. apply H.
    by apply list_elem_of_In.
  - intros [_ H] x Hx. apply H. by apply list_elem_of_In.
Qed.

Lemma Phone_init_ok (s : str) : phone_ok s -> Phone_init s = Ok (mkPhone s).
Proof.
  intros [Hlen Hall]. unfold Phone_init.
  assert (str_isdigit s = true) as ->.
  { apply str_isdigit_true. split; [|done]. by destruct s. }
  unfold len. rewrite Hlen. reflexivity.
Qed.

Lemma Phone_init_bad (s : str) :
  ~ phone_ok s -> Phone_init s = Raise (ValueError phone_error).
Proof.
  intros Hbad. unfold Phone_init.
  destruct (str_isdigit s) eqn:Hd; [|reflexivity].
  destruct (len s =? 10) eqn:Hl; [|reflexivity].
  exfalso. apply Hbad. apply str_isdigit_true in Hd as [_ Hd].
  split; [|done]. unfold len in Hl. lia.
Qed.

Lemma phone_ok_dec (s : str) : {phone_ok s} + {~ phone_ok s}.
Proof.
  unfold phone_ok.
  destruct (decide (length s = 10%nat)) as [Hl|Hl]; [|right; tauto].
  destruct (forallb isdigit s) eqn:Hf.
  - left. split; [done|]. rewrite forallb_forall in Hf.
    apply Forall_forall. intros x Hx. apply Hf. by apply list_elem_of_In.
  - right. intros [_ H]. rewrite Forall_forall in H.
    assert (forallb isdigit s = true); [|congruence].
    apply forallb_forall. intros x Hx. apply H. by apply list_elem_of_In.
Qed.

Lemma Phone_init_inv (s : str) (p : Phone) :
  Phone_init s = Ok p -> phone_ok s /\ p = mkPhone s.
Proof.
  intros H. destruct (phone_ok_dec s) as [Hok|Hbad].
  - rewrite (Phone_init_ok s Hok) in H. by inversion H.
  - rewrite (Phone_init_bad s Hbad) in H. discriminate.
Qed.

(** The list comprehension over [Phone]: all phones are built, or the first
    invalid one raises. *)
Lemma map_Phone_init_ok (l : list str) :
  Forall phone_ok l -> map_result Phone_init l = Ok (map mkPhone l).
Proof.
  induction 1 as [|s l Hs _ IH]; [reflexivity|].
  cbn [map_result map]. rewrite (Phone_init_ok s Hs). cbn [bind].
  rewrite IH. reflexivity.
Qed.

Lemma map_Phone_init_bad (l : list str) :
  Exists (fun s => ~ phone_ok s) l ->
  map_result Phone_init l = Raise (ValueError phone_error).
Proof.
  induction l as [|s l IH]; intros H; [inversion H|].
  cbn [map_result].
  destruct (phone_ok_dec s) as [Hok|Hbad].
  - rewrite (Phone_init_ok s Hok). cbn [bind].
    inversion H as [? ? Hs|? ? Hl]; subst; [contradiction|].
    rewrite (IH Hl). reflexivity.
  - rewrite (Phone_init_bad s Hbad). reflexivity.
Qed.

(** C4, counterexample: the string of ten SUPERSCRIPT TWO characters is not a
    string of ten decimal digits, and [Phone] accepts it, because
    [str.isdigit] holds of more than the decimal digits. *)
Lemma Phone_accepts_superscripts :
  ~ ten_decimal_digits superscript_twos
  /\ Phone_init superscript_twos = Ok (mkPhone superscript_twos).
Proof.
  split; [|vm_compute; reflexivity].
  intros [_ H]. inversion H as [|? ? Hc _]. vm_compute in Hc. discriminate.
Qed.

(** C4, amended: [Phone] accepts exactly the strings of ten characters that
    are digits for [str.isdigit], among them every string of ten ASCII
    decimal digits; an accepted string is rendered back unchanged by
    [__str__], and every other string raises the [ValueError] of the
    constructor. *)
Theorem Phone_accepts_isdigit_strings (s : str) :
  (length s = 10%nat /\ Forall ascii_digit s -> phone_ok s)
  /\ (phone_ok s -> exists p, Phone_init s = Ok p /\ __str__ p = s)
  /\ (~ phone_ok s -> Phone_init s = Raise (ValueError phone_error)).
Proof.
  split; [|split].
  - intros [Hl Hd]. split; [done|].
    eapply Forall_impl; [exact Hd|]. intros c. apply ascii_digit_isdigit.
  - intros Hok. exists (mkPhone s). split; [by apply Phone_init_ok|done].
  - apply Phone_init_bad.
Qed.

Lemma Phone_accepts_isdigit_strings_witness :
  (exists p, Phone_init (lit "1234567890") = Ok p
             /\ __str__ p = lit "1234567890")
  /\ Phone_init (lit "12345") = Raise (ValueError phone_error).
Proof.
  destruct (Phone_accepts_isdigit_strings (lit "1234567890")) as (H1 & H2 & _).
  destruct (Phone_accepts_isdigit_strings (lit "12345")) as (_ & _ & H3).
  split.
  - apply H2, H1. split; [reflexivity|].
    repeat constructor; unfold ascii_digit; simpl; lia.
  - apply H3. intros [Hl _]. simpl in Hl. lia.
Defined.

(** ** Record.edit_phone *)

Lemma edit_phone_returns (old_phone new_phone : str) (self : Rec.t) :
  fst (Rec.edit_phone old_phone new_phone self) = Ok ().
Proof. reflexivity. Qed.

(** Every entry equal to the old phone gets the new value, the others are
    kept. *)
Lemma edit_phone_phones (old_phone new_phone : str) (self : Rec.t) :
  map phone_value
    (Rec.phones (snd (Rec.edit_phone old_phone new_phone self)))
  = map (fun v => if str_eqb v old_phone then new_phone else v)
      (map phone_value (Rec.phones self)).
Proof.
  destruct self as [n ps b]. cbn. rewrite !map_map.
  apply map_ext. intros [v]. unfold __str__, Phone_field. cbn.
  by destruct (str_eqb v old_phone).
Qed.

(** Without a matching entry the call changes nothing and does not raise. *)
Lemma edit_phone_no_match (old_phone new_phone : str) (self : Rec.t) :
  Forall (fun p => phone_value p <> old_phone) (Rec.phones self) ->
  Rec.edit_phone old_phone new_phone self = (Ok (), self).
Proof.
  destruct self as [n ps b]. cbn. intros H.
  unfold Rec.edit_phone, Rec.set_phones. cbn. do 2 f_equal.
  induction H as [|p ps Hp _ IH]; [reflexivity|].
  cbn. rewrite IH. unfold __str__, Phone_field.
  by rewrite (str_eqb_neq _ _ Hp).
Qed.

(** C3: [edit_phone] stores the new text in the matching entries without
    building a [Phone] from it, so nothing is validated and nothing is
    raised: for a record holding 1234567890, editing it to "abc" (which
    [Phone] rejects) returns normally and leaves "abc" in the phone list. *)
Theorem edit_phone_skips_validation :
  let self := Rec.mk (mkName (lit "John")) [mkPhone (lit "1234567890")] None in
  Phone_init (lit "abc") = Raise (ValueError phone_error)
  /\ Rec.edit_phone (lit "1234567890") (lit "abc") self
     = (Ok (), Rec.mk (mkName (lit "John")) [mkPhone (lit "abc")] None).
Proof. split; vm_compute; reflexivity. Qed.

(** ** Handlers *)

Ltac munfold :=
  unfold AddressBook.find, AddressBook.add_record in *;
  unfold attr in *;
  unfold mbind, mret, M_bind, M_ret, raise, lift, call, set_data in *.

(** [handle_errors] turns the two exceptions it names into strings and
    passes everything else on. *)
Lemma handle_errors_catches (func : M str) (st : State) :
  match fst (handle_errors func st) with
  | Raise (ValueError _) | Raise KeyError => False
  | _ => True
  end.
Proof.
  unfold handle_errors. destruct (func st) as [[a|[]] st']; exact I.
Qed.

Lemma handle_errors_passes (func : M str) (st st' : State) (e : exn) :
  func st = (Raise e, st') ->
  (forall msg, e <> ValueError msg) -> e <> KeyError ->
  handle_errors func st = (Raise e, st').
Proof.
  intros H Hv Hk. unfold handle_errors. rewrite H.
  destruct e; try reflexivity; [by destruct (Hv msg) | by destruct Hk].
Qed.

(** C9: the [IndexError] of [args[0]] is not among the exceptions
    [handle_errors] catches: [show_phone] and [show_birthday] called with an
    empty argument list (the commands [phone] and [show-birthday] typed
    alone) raise it out of the handler. *)
Theorem IndexError_escapes_handlers (st : State) :
  show_phone [] st
  = (Raise (IndexError (lit "list index out of range")), st)
  /\ show_birthday [] st
     = (Raise (IndexError (lit "list index out of range")), st).
Proof. split; reflexivity. Qed.

(** [show-birthday] for a name the book does not hold answers with the
    fixed sentence. *)
Lemma show_birthday_unknown (name : str) (rest : list str) (st : State) :
  Dict.get name (data st) = None ->
  show_birthday (name :: rest) st
  = (Ok (lit "This name is not entered in the phone book or birthday is not set."),
     st).
Proof.
  intros H. unfold show_birthday, handle_errors, index0. munfold.
  rewrite H. reflexivity.
Qed.

(** C10: when one element of the comma-separated list is not a valid phone,
    [change_contact] returns the message of the validation error and the
    state, the phones of the record included, is what it was before the
    call. *)
Theorem change_contact_atomic (st : State) (name phone : str) (r : ref) :
  Dict.get name (data st) = Some r ->
  Exists (fun s => ~ phone_ok s) (split comma phone) ->
  change_contact [name; phone] st = (Ok phone_error, st).
Proof.
  intros Hget Hbad. unfold change_contact, handle_errors, unpack2. munfold.
  rewrite Hget. fold comma. rewrite (map_Phone_init_bad _ Hbad). reflexivity.
Qed.

Lemma change_contact_atomic_witness :
  change_contact [lit "John"; lit "1111111111,22222"] john_book
  = (Ok phone_error, john_book).
Proof.
  apply (change_contact_atomic john_book (lit "John") (lit "1111111111,22222")
           0%nat).
  - reflexivity.
  - apply Exists_cons_tl, Exists_cons_hd. intros [Hl _]. simpl in Hl. lia.
Defined.

(** C8: for a known name [change_contact] replaces the phone list of the
    record by the phones of the comma-separated list, in the order of the
    list, when all of them are valid; for an unknown name it answers with
    the not-found sentence and changes nothing. *)
Theorem change_contact_replaces (st : State) (name phone : str) :
  (forall r o,
      Dict.get name (data st) = Some r -> heap st !! r = Some o ->
      Forall phone_ok (split comma phone) ->
      change_contact [name; phone] st
      = (Ok (lit "Contact changed."),
         mkState
           (<[r := Rec.set_phones (map mkPhone (split comma phone)) o]>
              (heap st))
           (data st)))
  /\ (Dict.get name (data st) = None ->
      change_contact [name; phone] st = (Ok not_found, st)).
Proof.
  split.
  - intros r o Hget Hr Hok.
    unfold change_contact, handle_errors, unpack2. munfold.
    rewrite Hget. fold comma. rewrite (map_Phone_init_ok _ Hok).
    rewrite Hr. reflexivity.
  - intros Hget. unfold change_contact, handle_errors, unpack2. munfold.
    rewrite Hget. reflexivity.
Qed.

Lemma change_contact_replaces_witness :
  change_contact [lit "John"; lit "1111111111,2222222222"] john_book
  = (Ok (lit "Contact changed."),
     mkState
       [Rec.mk (mkName (lit "John"))
          [mkPhone (lit "1111111111"); mkPhone (lit "2222222222")] None]
       [(lit "John", 0%nat)])
  /\ change_contact [lit "Ghost"; lit "1111111111"] john_book
     = (Ok not_found, john_book).
Proof.
  destruct (change_contact_replaces john_book (lit "John")
              (lit "1111111111,2222222222")) as [H1 _].
  destruct (change_contact_replaces john_book (lit "Ghost")
              (lit "1111111111")) as [_ H2].
  split.
  - apply (H1 0%nat (Rec.mk (mkName (lit "John"))
                       [mkPhone (lit "1234567890")] None));
      [reflexivity | reflexivity |].
    repeat constructor.
  - apply H2. reflexivity.
Defined.

(** ** dict lemmas *)

Section DictLemmas.
Context {V : Type}.
Implicit Types (d : list (str * V)) (k : str) (v : V).

Lemma get_set_eq d k v : Dict.get k (Dict.set k v d) = Some v.
Proof.
  induction d as [|[k' v'] d IH]; cbn.
  - by rewrite str_eqb_refl.
  - destruct (str_eqb k' k) eqn:E; cbn; rewrite E; [done|apply IH].
Qed.

Lemma get_set_ne d k k' v :
  k' <> k -> Dict.get k' (Dict.set k v d) = Dict.get k' d.
Proof.
  intros Hne. induction d as [|[k0 v0] d IH]; cbn.
  - by rewrite (str_eqb_neq k k') by congruence.
  - destruct (str_eqb k0 k) eqn:E; cbn; [|by rewrite IH].
    apply str_eqb_eq in E as ->. by rewrite (str_eqb_neq k k') by congruence.
Qed.

Lemma set_absent d k v :
  Dict.get k d = None -> Dict.set k v d = d ++ [(k, v)].
Proof.
  induction d as [|[k' v'] d IH]; cbn; [done|].
  destruct (str_eqb k' k); [discriminate|]. intros H. by rewrite IH.
Qed.

Lemma get_Some_elem_of d k v : Dict.get k d = Some v -> (k, v) ∈ d.
Proof.
  induction d as [|[k' v'] d IH]; cbn; [discriminate|].
  destruct (str_eqb k' k) eqn:E.
  - apply str_eqb_eq in E as ->. intros [= ->]. apply list_elem_of_here.
  - intros H. apply list_elem_of_further, IH, H.
Qed.

Lemma get_None_keys d k : Dict.get k d = None <-> k ∉ Dict.keys d.
Proof.
  induction d as [|[k' v'] d IH]; cbn.
  - split; [intros _; apply not_elem_of_nil|done].
  - rewrite not_elem_of_cons. destruct (str_eqb k' k) eqn:E.
    + apply str_eqb_eq in E as ->. split; [discriminate|]. by intros [[] _].
    + rewrite IH. split; [|tauto]. intros H. split; [|done].
      intros ->. by rewrite str_eqb_refl in E.
Qed.

Lemma keys_set d k v :
  Dict.keys (Dict.set k v d)
  = if Dict.contains k d then Dict.keys d else Dict.keys d ++ [k].
Proof.
  unfold Dict.contains, Dict.keys.
  induction d as [|[k' v'] d IH]; cbn; [done|].
  destruct (str_eqb k' k) eqn:E; cbn; [done|].
  rewrite IH. by destruct (Dict.get k d).
Qed.

Lemma length_set d k v :
  length (Dict.set k v d)
  = if Dict.contains k d then length d else S (length d).
Proof.
  unfold Dict.contains.
  induction d as [|[k' v'] d IH]; cbn; [done|].
  destruct (str_eqb k' k) eqn:E; cbn; [done|].
  rewrite IH. by destruct (Dict.get k d).
Qed.

Lemma elem_of_set d k v k' v' :
  (k', v') ∈ Dict.set k v d -> (k' = k /\ v' = v) \/ (k', v') ∈ d.
Proof.
  induction d as [|[k0 v0] d IH]; cbn.
  - rewrite list_elem_of_singleton. intros [= -> ->]. by left.
  - destruct (str_eqb k0 k) eqn:E; rewrite !elem_of_cons.
    + apply str_eqb_eq in E as ->. intros [[= -> ->]|H]; [by left|].
      right. by right.
    + intros [[= -> ->]|H]; [right; by left|].
      destruct (IH H) as [?|?]; [by left|right; by right].
Qed.

Lemma NoDup_keys_set d k v :
  NoDup (Dict.keys d) -> NoDup (Dict.keys (Dict.set k v d)).
Proof.
  intros Hnd. rewrite keys_set. unfold Dict.contains.
  destruct (Dict.get k d) eqn:E; [done|].
  apply NoDup_app. split; [done|]. split; [|apply NoDup_singleton].
  intros x Hx. rewrite list_elem_of_singleton. intros ->.
  by apply get_None_keys in E.
Qed.

Lemma elem_of_del d k k' v' : (k', v') ∈ Dict.del k d -> (k', v') ∈ d.
Proof.
  induction d as [|[k0 v0] d IH]; cbn; [done|].
  destruct (str_eqb k0 k); rewrite ?elem_of_cons; [by right|].
  intros [?|?]; [by left|right; by apply IH].
Qed.

Lemma keys_del_subseteq d k x :
  x ∈ Dict.keys (Dict.del k d) -> x ∈ Dict.keys d /\ (NoDup (Dict.keys d) -> x <> k).
Proof.
  unfold Dict.keys.
  induction d as [|[k0 v0] d IH]; cbn; [by rewrite elem_of_nil|].
  destruct (str_eqb k0 k) eqn:E; cbn; rewrite ?elem_of_cons.
  - apply str_eqb_eq in E as ->. intros H. split; [by right|].
    intros Hnd ->. apply NoDup_cons in Hnd as [Hn _]. done.
  - intros [->|H].
    + split; [by left|]. intros _ ->. by rewrite str_eqb_refl in E.
    + destruct (IH H) as [H1 H2]. split; [by right|].
      intros Hnd. apply H2. by apply NoDup_cons in Hnd as [_ ?].
Qed.

Lemma NoDup_keys_del d k :
  NoDup (Dict.keys d) -> NoDup (Dict.keys (Dict.del k d)).
Proof.
  induction d as [|[k0 v0] d IH]; cbn; [done|].
  rewrite NoDup_cons. intros [Hn Hnd].
  destruct (str_eqb k0 k); [done|]. cbn. apply NoDup_cons.
  split; [|by apply IH]. intros H. by apply keys_del_subseteq in H as [? _].
Qed.

Lemma get_del_eq d k :
  NoDup (Dict.keys d) -> Dict.get k (Dict.del k d) = None.
Proof.
  intros Hnd. apply get_None_keys. intros H.
  apply keys_del_subseteq in H as [_ H]. by apply H.
Qed.

(** With one entry per key, the entries under a key are the one [get]
    finds. *)
Lemma NoDup_keys_unique d k v v' :
  NoDup (Dict.keys d) -> (k, v) ∈ d -> (k, v') ∈ d -> v = v'.
Proof.
  induction d as [|[k0 v0] d IH]; cbn; [by rewrite elem_of_nil|].
  rewrite NoDup_cons, !elem_of_cons. intros [Hn Hnd] [H1|H1] [H2|H2].
  - congruence.
  - inversion H1; subst. destruct Hn.
    apply list_elem_of_In, in_map_iff. exists (k0, v').
    split; [done|by apply list_elem_of_In].
  - inversion H2; subst. destruct Hn.
    apply list_elem_of_In, in_map_iff. exists (k0, v).
    split; [done|by apply list_elem_of_In].
  - by apply IH.
Qed.
End DictLemmas.

(** ** The invariant of the book

    One entry per key, and every key is the name of the record its value
    refers to. *)

Lemma book_inv_empty : book_inv empty_book.
Proof.
  split; [apply NoDup_nil_2|]. intros k r H. by apply elem_of_nil in H.
Qed.

Lemma add_record_eq (record : ref) (o : Rec.t) (st : State) :
  heap st !! record = Some o ->
  AddressBook.add_record record st
  = (Ok (),
     mkState (heap st)
       (Dict.set (name_value (Rec.name o)) record (data st))).
Proof.
  intros H. munfold. rewrite H. cbn [snd fst heap data].
  by rewrite (list_insert_id _ _ _ H).
Qed.

Lemma preserves_ret {A} (a : A) : preserves (mret a).
Proof. by intros st H. Qed.

Lemma preserves_raise {A} (e : exn) : preserves (@raise A e).
Proof. by intros st H. Qed.

Lemma preserves_lift {A} (r : result A) : preserves (lift r).
Proof. by intros st H. Qed.

Lemma preserves_find (name : str) : preserves (AddressBook.find name).
Proof. by intros st H. Qed.

Lemma preserves_bind {A B} (m : M A) (k : A -> M B) :
  preserves m -> (forall a, preserves (k a)) -> preserves (m ≫= k).
Proof.
  intros Hm Hk st H. specialize (Hm st H). unfold mbind, M_bind.
  destruct (m st) as [[a|e] st']; [by apply Hk|done].
Qed.

Lemma preserves_handle_errors (func : M str) :
  preserves func -> preserves (handle_errors func).
Proof.
  intros Hf st H. specialize (Hf st H). unfold handle_errors.
  by destruct (func st) as [[a|[]] st'].
Qed.

Lemma preserves_call {A} (r : ref) (method : Rec.t -> result A * Rec.t) :
  (forall self, Rec.name (snd (method self)) = Rec.name self) ->
  preserves (call r method).
Proof.
  intros Hname st [Hnd Hkeys]. unfold call.
  destruct (heap st !! r) as [self|] eqn:Hr; [|done].
  specialize (Hname self). destruct (method self) as [res self'].
  cbn [snd fst heap data] in *.
  split; [done|]. intros k r0 Hin.
  destruct (Hkeys k r0 Hin) as (o & Ho & Hk).
  destruct (decide (r = r0)) as [->|Hne].
  - exists self'. split.
    + apply list_lookup_insert_eq. by eapply lookup_lt_Some.
    + congruence.
  - exists o. split; [|done]. cbn [heap]. by rewrite list_lookup_insert_ne.
Qed.

Lemma preserves_Record_new (name : str) : preserves (Record_new name).
Proof.
  intros st [Hnd Hkeys]. unfold Record_new.
  destruct (Rec.init name) as [o|e]; [|done]. cbn.
  split; [done|]. intros k r Hin.
  destruct (Hkeys k r Hin) as (o' & Ho & Hk). exists o'. split; [|done].
  cbn [heap]. rewrite lookup_app_l; [done|]. by eapply lookup_lt_Some.
Qed.

Lemma preserves_add_record (record : ref) :
  preserves (AddressBook.add_record record).
Proof.
  intros st [Hnd Hkeys].
  destruct (heap st !! record) as [o|] eqn:Hr.
  - rewrite (add_record_eq _ _ _ Hr). cbn. split.
    + by apply NoDup_keys_set.
    + intros k r Hin. apply elem_of_set in Hin as [[-> ->]|Hin].
      * by exists o.
      * by apply Hkeys.
  - munfold. by rewrite Hr.
Qed.

Lemma preserves_delete (name : str) : preserves (AddressBook.delete name).
Proof.
  intros st [Hnd Hkeys]. unfold AddressBook.delete.
  destruct (Dict.contains name (data st)); [|done]. cbn. split.
  - by apply NoDup_keys_del.
  - intros k r Hin. by apply Hkeys, (elem_of_del _ name).
Qed.

Create HintDb preserves.
#[local] Hint Resolve preserves_ret preserves_raise preserves_lift
  preserves_find preserves_handle_errors preserves_Record_new
  preserves_add_record preserves_delete : preserves.

Ltac preserves_step :=
  match goal with
  | |- preserves (handle_errors _) => apply preserves_handle_errors
  | |- preserves (_ ≫= _) => apply preserves_bind; [|intros ?]
  | |- preserves (call _ _) => apply preserves_call; intros ?
  | |- preserves (attr _ _) => apply preserves_call; intros ?
  | |- preserves (match ?x with _ => _ end) => destruct x
  | |- preserves (if ?x then _ else _) => destruct x
  | |- preserves _ => solve [auto with preserves]
  end.

Lemma preserves_add_contact (args : list str) : preserves (add_contact args).
Proof.
  unfold add_contact. apply preserves_handle_errors.
  destruct args as [|name [|phone rest]]; [auto with preserves..|].
  repeat preserves_step.
  unfold Rec.add_phone. by destruct (Phone_init phone).
Qed.

Lemma preserves_unpack2 (args : list str) : preserves (unpack2 args).
Proof.
  unfold unpack2. destruct args as [|a [|b [|c rest]]]; auto with preserves.
Qed.

Lemma preserves_index0 (args : list str) : preserves (index0 args).
Proof. unfold index0. destruct args; auto with preserves. Qed.

#[local] Hint Resolve preserves_unpack2 preserves_index0 : preserves.

Lemma preserves_change_contact (args : list str) :
  preserves (change_contact args).
Proof. unfold change_contact. repeat preserves_step; done. Qed.

Lemma preserves_add_birthday (args : list str) :
  preserves (add_birthday args).
Proof.
  unfold add_birthday. repeat preserves_step; try done.
  unfold Rec.add_birthday.
  match goal with |- context [Birthday_init ?b] => by destruct (Birthday_init b) end.
Qed.

Lemma preserves_show_phone (args : list str) : preserves (show_phone args).
Proof. unfold show_phone. repeat preserves_step; done. Qed.

Lemma preserves_show_birthday (args : list str) :
  preserves (show_birthday args).
Proof. unfold show_birthday. repeat preserves_step; done. Qed.

Lemma preserves_show_all : preserves show_all.
Proof. unfold show_all. apply preserves_handle_errors. by intros st H. Qed.

Lemma preserves_birthdays (today : Datetime.date) :
  preserves (birthdays today).
Proof.
  unfold birthdays. apply preserves_handle_errors.
  apply preserves_bind; [by intros st H|]. intros l.
  destruct l; auto with preserves.
Qed.

Lemma add_record_find (st : State) (record : ref) (o : Rec.t) :
  book_inv st -> heap st !! record = Some o ->
  exists st',
    AddressBook.add_record record st = (Ok (), st')
    /\ book_inv st'
    /\ heap st' = heap st
    /\ AddressBook.find (name_value (Rec.name o)) st'
       = (Ok (Some record), st')
    /\ (forall r, (name_value (Rec.name o), r) ∈ data st' -> r = record)
    /\ (forall k, k <> name_value (Rec.name o) ->
                  Dict.get k (data st') = Dict.get k (data st))
    /\ length (data st')
       = (if Dict.contains (name_value (Rec.name o)) (data st)
          then length (data st) else S (length (data st))).
Proof.
  intros Hinv Hr. eexists. split; [by apply add_record_eq|].
  pose proof (preserves_add_record record st Hinv) as Hinv'.
  rewrite (add_record_eq _ _ _ Hr) in Hinv'. cbn [snd] in Hinv'.
  split; [done|]. split; [done|]. cbn [heap data].
  split; [|split; [|split]].
  - unfold AddressBook.find. cbn [data]. by rewrite get_set_eq.
  - intros r Hin. destruct Hinv' as [Hnd _]. cbn [data] in Hnd.
    eapply (NoDup_keys_unique _ _ _ _ Hnd Hin).
    apply get_Some_elem_of, get_set_eq.
  - intros k Hk. by apply get_set_ne.
  - apply length_set.
Qed.

(** C6: the empty book satisfies the invariant (one entry per key, each key
    the name of the record stored under it) and every operation of
    [AddressBook] and every handler keeps it; after [add_record] the record
    found under its name is the one just added; adding a second record of
    the same name leaves one entry for the name, holding the second record,
    whose object is untouched. *)
Theorem AddressBook_invariant :
  book_inv empty_book
  /\ forall st, book_inv st ->
     (forall record o,
         heap st !! record = Some o ->
         exists st',
           AddressBook.add_record record st = (Ok (), st')
           /\ book_inv st' /\ heap st' = heap st
           /\ AddressBook.find (name_value (Rec.name o)) st'
              = (Ok (Some record), st')
           /\ (forall r, (name_value (Rec.name o), r) ∈ data st' ->
                         r = record))
     /\ (forall r1 r2 o1 o2,
            heap st !! r1 = Some o1 -> heap st !! r2 = Some o2 ->
            Rec.name o1 = Rec.name o2 ->
            exists st1 st2,
              AddressBook.add_record r1 st = (Ok (), st1)
              /\ AddressBook.add_record r2 st1 = (Ok (), st2)
              /\ book_inv st2 /\ heap st2 = heap st
              /\ AddressBook.find (name_value (Rec.name o2)) st2
                 = (Ok (Some r2), st2)
              /\ (forall r, (name_value (Rec.name o2), r) ∈ data st2 ->
                            r = r2)
              /\ length (data st2) = length (data st1))
     /\ (forall name,
            book_inv (snd (AddressBook.delete name st))
            /\ Dict.get name (data (snd (AddressBook.delete name st)))
               = None)
     /\ (forall args today,
            book_inv (snd (add_contact args st))
            /\ book_inv (snd (change_contact args st))
            /\ book_inv (snd (show_phone args st))
            /\ book_inv (snd (show_all st))
            /\ book_inv (snd (add_birthday args st))
            /\ book_inv (snd (show_birthday args st))
            /\ book_inv (snd (birthdays today st))).
Proof.
  split; [apply book_inv_empty|]. intros st Hinv.
  split; [|split; [|split]].
  - intros record o Hr.
    destruct (add_record_find st record o Hinv Hr)
      as (st' & H1 & H2 & H3 & H4 & H5 & _).
    by exists st'.
  - intros r1 r2 o1 o2 Hr1 Hr2 Hname.
    destruct (add_record_find st r1 o1 Hinv Hr1)
      as (st1 & H1 & Hinv1 & Hh1 & Hf1 & _).
    rewrite <- Hh1 in Hr2.
    destruct (add_record_find st1 r2 o2 Hinv1 Hr2)
      as (st2 & H2 & Hinv2 & Hh2 & Hf2 & Hu2 & _ & Hlen).
    exists st1, st2. repeat (split; [done || congruence|]).
    rewrite Hlen. unfold Dict.contains.
    unfold AddressBook.find in Hf1. rewrite Hname in Hf1.
    by injection Hf1 as ->.
  - intros name. split; [by apply preserves_delete|].
    unfold AddressBook.delete, Dict.contains.
    destruct (Dict.get name (data st)) eqn:E; [|done].
    cbn. apply get_del_eq, Hinv.
  - intros args today.
    split_and!;
      [by apply preserves_add_contact | by apply preserves_change_contact
      | by apply preserves_show_phone | by apply preserves_show_all
      | by apply preserves_add_birthday | by apply preserves_show_birthday
      | by apply preserves_birthdays].
Qed.

Lemma AddressBook_invariant_witness :
  exists st1 st2,
    AddressBook.add_record 0%nat two_johns = (Ok (), st1)
    /\ AddressBook.add_record 1%nat st1 = (Ok (), st2)
    /\ book_inv st2
    /\ AddressBook.find (lit "John") st2 = (Ok (Some 1%nat), st2)
    /\ length (data st2) = length (data st1).
Proof.
  destruct AddressBook_invariant as [_ H].
  assert (book_inv two_johns) as Hinv.
  { split; [apply NoDup_nil_2|]. intros k r Hin. by apply elem_of_nil in Hin. }
  destruct (H two_johns Hinv) as (_ & H2 & _).
  destruct (H2 0%nat 1%nat
              (Rec.mk (mkName (lit "John")) [mkPhone (lit "1234567890")] None)
              (Rec.mk (mkName (lit "John")) [] None)
              eq_refl eq_refl eq_refl)
    as (st1 & st2 & E1 & E2 & Hinv2 & _ & Hf & _ & Hlen).
  exists st1, st2. split_and!; assumption.
Defined.

(** ** add_contact *)

Lemma Rec_init_ok (name : str) :
  name <> [] -> Rec.init name = Ok (Rec.mk (mkName name) [] None).
Proof. by destruct name. Qed.

(** C7: for a non-empty name and a phone that is empty or valid,
    [add_contact] on a name the book does not hold creates the record,
    stores it under the name and answers "Contact added."; on a name the
    book holds it keeps the record and answers "Contact updated."; in both
    cases a non-empty phone is appended to the phones of the record, whether
    or not the list holds it already. *)
Theorem add_contact_adds_or_updates
  (st : State) (name phone : str) (rest : list str) :
  name <> [] -> phone = [] \/ phone_ok phone ->
  let new_phones := if truthy phone then [mkPhone phone] else [] in
  (Dict.get name (data st) = None ->
   add_contact (name :: phone :: rest) st
   = (Ok (lit "Contact added."),
      mkState (heap st ++ [Rec.mk (mkName name) new_phones None])
        (data st ++ [(name, length (heap st))])))
  /\ (forall r o,
         Dict.get name (data st) = Some r -> heap st !! r = Some o ->
         add_contact (name :: phone :: rest) st
         = (Ok (lit "Contact updated."),
            if truthy phone then
              mkState
                (<[r := Rec.set_phones (Rec.phones o ++ new_phones) o]>
                   (heap st))
                (data st)
            else st)).
Proof.
  intros Hname Hphone new_phones. split.
  - intros Hget. unfold add_contact, handle_errors, Record_new. munfold.
    rewrite Hget, (Rec_init_ok name Hname). cbn [heap data].
    rewrite (list_lookup_middle (heap st) [] _ (length (heap st)) eq_refl).
    cbn [snd fst heap data Rec.name name_value].
    rewrite (list_insert_id _ _ _
               (list_lookup_middle (heap st) [] _ (length (heap st)) eq_refl)).
    rewrite (set_absent _ _ _ Hget).
    destruct Hphone as [->|Hok].
    + reflexivity.
    + assert (truthy phone = true) as Ht.
      { destruct Hok as [Hl _]. by destruct phone. }
      subst new_phones. rewrite Ht. cbn [heap data].
      rewrite (list_lookup_middle (heap st) [] _ (length (heap st)) eq_refl).
      unfold Rec.add_phone. rewrite (Phone_init_ok phone Hok).
      cbn [snd fst heap data Rec.phones Rec.set_phones Rec.name
             Rec.birthday app].
      do 3 f_equal.
      rewrite <- (Nat.add_0_r (length (heap st))) at 1.
      by rewrite insert_app_r.
  - intros r o Hget Hr. unfold add_contact, handle_errors. munfold.
    rewrite Hget. destruct Hphone as [->|Hok].
    + reflexivity.
    + assert (truthy phone = true) as Ht.
      { destruct Hok as [Hl _]. by destruct phone. }
      subst new_phones. rewrite Ht, Hr.
      unfold Rec.add_phone. by rewrite (Phone_init_ok phone Hok).
Qed.

(** With a phone [Phone] rejects the answer is the message of the
    validation error; a record created for a new name stays in the book,
    without phones. *)
Lemma add_contact_invalid_phone
  (st : State) (name phone : str) (rest : list str) :
  name <> [] -> phone <> [] -> ~ phone_ok phone ->
  Dict.get name (data st) = None ->
  add_contact (name :: phone :: rest) st
  = (Ok phone_error,
     mkState (heap st ++ [Rec.mk (mkName name) [] None])
       (data st ++ [(name, length (heap st))])).
Proof.
  intros Hname Hphone Hbad Hget.
  unfold add_contact, handle_errors, Record_new. munfold.
  rewrite Hget, (Rec_init_ok name Hname). cbn [heap data].
  rewrite (list_lookup_middle (heap st) [] _ (length (heap st)) eq_refl).
  cbn [snd fst heap data Rec.name name_value].
  rewrite (list_insert_id _ _ _
             (list_lookup_middle (heap st) [] _ (length (heap st)) eq_refl)).
  rewrite (set_absent _ _ _ Hget).
  assert (truthy phone = true) as -> by by destruct phone.
  cbn [heap data].
  rewrite (list_lookup_middle (heap st) [] _ (length (heap st)) eq_refl).
  unfold Rec.add_phone. rewrite (Phone_init_bad phone Hbad).
  cbn [snd fst heap data]. do 2 f_equal.
  apply list_insert_id.
  apply (list_lookup_middle (heap st) [] _ (length (heap st)) eq_refl).
Qed.

(** [add John 1234567890] twice, starting from the empty book. *)
Lemma add_contact_adds_or_updates_witness :
  let john1 :=
    mkState [Rec.mk (mkName (lit "John")) [mkPhone (lit "1234567890")] None]
      [(lit "John", 0%nat)] in
  let john2 :=
    mkState
      [Rec.mk (mkName (lit "John"))
         [mkPhone (lit "1234567890"); mkPhone (lit "1234567890")] None]
      [(lit "John", 0%nat)] in
  add_contact [lit "John"; lit "1234567890"] empty_book
  = (Ok (lit "Contact added."), john1)
  /\ add_contact [lit "John"; lit "1234567890"] john1
     = (Ok (lit "Contact updated."), john2).
Proof.
  assert (lit "John" <> []) as Hname by discriminate.
  assert (lit "1234567890" = [] \/ phone_ok (lit "1234567890")) as Hphone.
  { right. split; [reflexivity|]. repeat constructor. }
  intros john1 john2. split.
  - apply (add_contact_adds_or_updates empty_book (lit "John")
             (lit "1234567890") [] Hname Hphone). reflexivity.
  - apply (proj2 (add_contact_adds_or_updates john1 (lit "John")
                    (lit "1234567890") [] Hname Hphone) 0%nat
             (Rec.mk (mkName (lit "John")) [mkPhone (lit "1234567890")] None));
      reflexivity.
Defined.

(** ** Birthday: parsing and formatting *)

Section Parsing.
Import Datetime.

Lemma all_below_spec (n : nat) (f : Z -> bool) :
  all_below n f = true -> forall i, 0 <= i < Z.of_nat n -> f i = true.
Proof.
  induction n as [|n IH]; intros H i Hi; [lia|].
  cbn [all_below] in H. apply andb_true_iff in H as [H1 H2].
  destruct (decide (i = Z.of_nat n)) as [->|Hne]; [done|].
  apply IH; [done|lia].
Qed.

Lemma ascii_digit_cases c :
  ascii_digit c ->
  c = 48 \/ c = 49 \/ c = 50 \/ c = 51 \/ c = 52 \/ c = 53 \/ c = 54
  \/ c = 55 \/ c = 56 \/ c = 57.
Proof. unfold ascii_digit. lia. Qed.

Ltac digit_cases H :=
  apply ascii_digit_cases in H;
  destruct H as [->|[->|[->|[->|[->|[->|[->|[->|[->| ->]]]]]]]]].

Lemma decimal_value_ascii c : ascii_digit c -> decimal_value c = c - 48.
Proof. intros H. digit_cases H; reflexivity. Qed.

Lemma int_of_group2 a b :
  ascii_digit a -> ascii_digit b -> int_of_group [a; b] = num2 a b.
Proof.
  intros Ha Hb. unfold int_of_group, lstrip, int_of_decimals, num2.
  assert ((a =? chr " ") = false) as ->
      by (unfold ascii_digit in Ha; change (chr " ") with 32; lia).
  cbn [fold_left]. rewrite !decimal_value_ascii by done. lia.
Qed.

Lemma int_of_group4 a b c d :
  ascii_digit a -> ascii_digit b -> ascii_digit c -> ascii_digit d ->
  int_of_group [a; b; c; d] = num4 a b c d.
Proof.
  intros Ha Hb Hc Hd. unfold int_of_group, lstrip, int_of_decimals, num4.
  assert ((a =? chr " ") = false) as ->
      by (unfold ascii_digit in Ha; change (chr " ") with 32; lia).
  cbn [fold_left]. rewrite !decimal_value_ascii by done. lia.
Qed.

Lemma two_digits_num2 a b :
  ascii_digit a -> ascii_digit b -> two_digits (num2 a b) = [a; b].
Proof.
  unfold ascii_digit, two_digits, num2, digit. intros Ha Hb.
  f_equal; [|f_equal]; Z.div_mod_to_equations; lia.
Qed.

Lemma four_digits_num4 a b c d :
  ascii_digit a -> ascii_digit b -> ascii_digit c -> ascii_digit d ->
  four_digits (num4 a b c d) = [a; b; c; d].
Proof.
  unfold ascii_digit, four_digits, num4, digit. intros Ha Hb Hc Hd.
  repeat f_equal; Z.div_mod_to_equations; lia.
Qed.

(** The text of a year: its four digits without the leading zeros. *)
Lemma year_digits_below (n : Z) :
  0 <= n < 10000 -> year_digits n = drop_zeros (four_digits n).
Proof.
  intros Hn. apply str_eqb_eq.
  apply (all_below_spec (Z.to_nat 10000)
           (fun n => str_eqb (year_digits n) (drop_zeros (four_digits n))));
    [vm_compute; reflexivity|lia].
Qed.

Lemma year_digits_num4 a b c d :
  ascii_digit a -> ascii_digit b -> ascii_digit c -> ascii_digit d ->
  year_digits (num4 a b c d) = drop_zeros [a; b; c; d].
Proof.
  intros Ha Hb Hc Hd. rewrite year_digits_below.
  - by rewrite four_digits_num4.
  - unfold ascii_digit, num4 in *. lia.
Qed.

(** From the year 1000 on the four digits are the text of the year; below,
    the text is shorter. *)
Lemma drop_zeros_num4 a b c d :
  ascii_digit a -> ascii_digit b -> ascii_digit c -> ascii_digit d ->
  (1000 <= num4 a b c d -> drop_zeros [a; b; c; d] = [a; b; c; d])
  /\ (num4 a b c d < 1000 -> (length (drop_zeros [a; b; c; d]) < 4)%nat).
Proof.
  unfold ascii_digit, num4. intros Ha Hb Hc Hd. split; intros Hy.
  - cbn [drop_zeros]. by assert ((a =? 48) = false) as -> by lia.
  - assert (a = 48) as -> by lia. cbn [drop_zeros Z.eqb Pos.eqb].
    destruct (b =? 48); [|cbn [length]; lia].
    destruct (c =? 48); cbn [length]; lia.
Qed.

(** The formats of the program, unfolded. *)
Lemma strftime_dmY (d : date) :
  strftime (lit "%d.%m.%Y") d
  = two_digits (day d) ++ [46] ++ two_digits (month d) ++ [46]
    ++ year_digits (year d).
Proof.
  change (strftime (lit "%d.%m.%Y") d)
    with (two_digits (day d) ++ [46] ++ two_digits (month d) ++ [46]
          ++ year_digits (year d) ++ []).
  by rewrite app_nil_r.
Qed.

Lemma strftime_dmY_blank (d : date) :
  strftime (lit "%d %m %Y") d
  = two_digits (day d) ++ [32] ++ two_digits (month d) ++ [32]
    ++ year_digits (year d).
Proof.
  change (strftime (lit "%d %m %Y") d)
    with (two_digits (day d) ++ [32] ++ two_digits (month d) ++ [32]
          ++ year_digits (year d) ++ []).
  by rewrite app_nil_r.
Qed.

Lemma strftime_Ymd (d : date) :
  strftime (lit "%Y.%m.%d") d
  = year_digits (year d) ++ [46] ++ two_digits (month d) ++ [46]
    ++ two_digits (day d).
Proof. reflexivity. Qed.

(** What the two formats with [%Y] last give for the date that two, two
    and four ASCII digits write. *)
Lemma strftime_wellformed (sep : Z) d1 d2 m1 m2 y1 y2 y3 y4 :
  Forall ascii_digit [d1; d2; m1; m2; y1; y2; y3; y4] ->
  two_digits (num2 d1 d2) ++ [sep] ++ two_digits (num2 m1 m2) ++ [sep]
  ++ year_digits (num4 y1 y2 y3 y4)
  = [d1; d2; sep; m1; m2; sep] ++ drop_zeros [y1; y2; y3; y4].
Proof.
  intros H.
  repeat match goal with
         | H : Forall _ (_ :: _) |- _ => apply Forall_cons in H as [? H]
         end.
  by rewrite !two_digits_num2, year_digits_num4.
Qed.

(** The rendering is the text of the date exactly from the year 1000 on. *)
Lemma rendering_same_iff (sep : Z) d1 d2 m1 m2 y1 y2 y3 y4 :
  Forall ascii_digit [d1; d2; m1; m2; y1; y2; y3; y4] ->
  [d1; d2; sep; m1; m2; sep] ++ drop_zeros [y1; y2; y3; y4]
  = [d1; d2; sep; m1; m2; sep; y1; y2; y3; y4]
  <-> 1000 <= num4 y1 y2 y3 y4.
Proof.
  intros H.
  repeat match goal with
         | H : Forall _ (_ :: _) |- _ => apply Forall_cons in H as [? H]
         end.
  destruct (drop_zeros_num4 y1 y2 y3 y4) as [Hge Hlt]; [done..|].
  split.
  - intros E. destruct (decide (1000 <= num4 y1 y2 y3 y4)) as [|Hn]; [done|].
    apply (f_equal length) in E. rewrite length_app in E.
    cbn [length] in E. specialize (Hlt ltac:(lia)). lia.
  - intros Hy. by rewrite (Hge Hy).
Qed.

(** *** The matchers on a well-formed string *)

Lemma re_d_two d1 d2 r :
  ascii_digit d1 -> ascii_digit d2 ->
  group_dot re_d (d1 :: d2 :: 46 :: r)
  = if (1 <=? num2 d1 d2) && (num2 d1 d2 <=? 31) then [([d1; d2], r)]
    else [].
Proof.
  intros H1 H2. digit_cases H1; digit_cases H2; vm_compute; reflexivity.
Qed.

Lemma re_m_two m1 m2 r :
  ascii_digit m1 -> ascii_digit m2 ->
  group_dot re_m (m1 :: m2 :: 46 :: r)
  = if (1 <=? num2 m1 m2) && (num2 m1 m2 <=? 12) then [([m1; m2], r)]
    else [].
Proof.
  intros H1 H2. digit_cases H1; digit_cases H2; vm_compute; reflexivity.
Qed.

Lemma re_Y_four y1 y2 y3 y4 r :
  ascii_digit y1 -> ascii_digit y2 -> ascii_digit y3 -> ascii_digit y4 ->
  re_Y (y1 :: y2 :: y3 :: y4 :: r) = [([y1; y2; y3; y4], r)].
Proof.
  intros H1 H2 H3 H4. unfold re_Y, seq, one.
  cbn [mbind list_bind]. rewrite (ascii_digit_isdecimal y1 H1).
  cbn [mbind list_bind]. rewrite (ascii_digit_isdecimal y2 H2).
  cbn [mbind list_bind]. rewrite (ascii_digit_isdecimal y3 H3).
  cbn [mbind list_bind]. rewrite (ascii_digit_isdecimal y4 H4).
  reflexivity.
Qed.

(** *** What a match tells about the data

    [splits Q a]: a match of [a] consumes a prefix of the data, and the
    consumed text satisfies [Q]. *)

Lemma splits_one (p : Z -> bool) :
  splits (fun t => exists c, t = [c] /\ p c = true) (one p).
Proof.
  intros [|c s] t r; cbn; [by rewrite elem_of_nil|].
  destruct (p c) eqn:E; [|by rewrite elem_of_nil].
  rewrite list_elem_of_singleton. intros [= -> ->]. split; [done|].
  by exists c.
Qed.

Lemma splits_seq (Q1 Q2 : str -> Prop) (a b : matcher) :
  splits Q1 a -> splits Q2 b ->
  splits (fun t => exists t1 t2, t = t1 ++ t2 /\ Q1 t1 /\ Q2 t2) (seq a b).
Proof.
  intros Ha Hb s t r. unfold seq. rewrite list_elem_of_bind.
  intros ([t1 r1] & Hin & H1). rewrite list_elem_of_bind in Hin.
  destruct Hin as ([t2 r2] & Hin & H2).
  apply list_elem_of_singleton in Hin as [= -> ->].
  destruct (Ha _ _ _ H1) as [-> HQ1]. destruct (Hb _ _ _ H2) as [-> HQ2].
  split; [by rewrite app_assoc|]. by exists t1, t2.
Qed.

Lemma splits_alt (Q : str -> Prop) (ms : list matcher) :
  Forall (splits Q) ms -> splits Q (alt ms).
Proof.
  intros Hms s t r. unfold alt. rewrite list_elem_of_bind.
  intros (m & Hin & Hm). rewrite Forall_forall in Hms.
  by apply (Hms m Hm).
Qed.

Lemma splits_weaken (Q Q' : str -> Prop) (a : matcher) :
  (forall t, Q t -> Q' t) -> splits Q a -> splits Q' a.
Proof.
  intros HQ Ha s t r Hin. destruct (Ha _ _ _ Hin). split; [done|by apply HQ].
Qed.

Lemma splits_one_short p : splits short (one p).
Proof.
  eapply splits_weaken; [|apply splits_one].
  intros t (c & -> & _). unfold short. cbn. lia.
Qed.

Lemma splits_seq_short p q : splits short (seq (one p) (one q)).
Proof.
  eapply splits_weaken; [|apply splits_seq; apply splits_one].
  intros t (t1 & t2 & -> & (c1 & -> & _) & (c2 & -> & _)).
  unfold short. cbn. lia.
Qed.

Lemma splits_re_d : splits short re_d.
Proof.
  apply splits_alt. unfold char, rng.
  repeat (apply Forall_cons_2;
          [first [apply splits_seq_short | apply splits_one_short]|]).
  apply Forall_nil_2.
Qed.

Lemma splits_re_m : splits short re_m.
Proof.
  apply splits_alt. unfold char, rng.
  repeat (apply Forall_cons_2;
          [first [apply splits_seq_short | apply splits_one_short]|]).
  apply Forall_nil_2.
Qed.

Lemma splits_re_Y : splits four_decimals re_Y.
Proof.
  eapply splits_weaken;
    [|apply splits_seq; [apply splits_one|];
      apply splits_seq; [apply splits_one|];
      apply splits_seq; apply splits_one].
  intros t (t1 & t' & -> & (c1 & -> & H1)
            & (t2 & t'' & -> & (c2 & -> & H2)
               & (t3 & t4 & -> & (c3 & -> & H3) & (c4 & -> & H4)))).
  split; [reflexivity|]. by repeat constructor.
Qed.

Lemma splits_group_dot (Q : str -> Prop) (g : matcher) s t r :
  splits Q g -> (t, r) ∈ group_dot g s -> s = t ++ 46 :: r /\ Q t.
Proof.
  intros Hg. unfold group_dot. rewrite list_elem_of_bind.
  intros ([t1 r1] & Hin & H1). rewrite list_elem_of_bind in Hin.
  destruct Hin as ([t2 r2] & Hin & H2).
  apply list_elem_of_singleton in Hin as [= -> ->].
  destruct (Hg _ _ _ H1) as [-> HQ].
  destruct (splits_one _ _ _ _ H2) as [-> (c & -> & Hc)].
  apply Z.eqb_eq in Hc as <-. by split.
Qed.

Lemma re_format_shape s d m y r :
  (d, m, y, r) ∈ re_format s ->
  s = d ++ 46 :: m ++ 46 :: y ++ r
  /\ short d /\ short m /\ four_decimals y.
Proof.
  unfold re_format. rewrite list_elem_of_bind.
  intros ([d' r1] & Hin & Hd). rewrite list_elem_of_bind in Hin.
  destruct Hin as ([m' r2] & Hin & Hm). rewrite list_elem_of_bind in Hin.
  destruct Hin as ([y' r3] & Hin & Hy).
  apply list_elem_of_singleton in Hin as [= -> -> -> ->].
  destruct (splits_group_dot _ _ _ _ _ splits_re_d Hd) as [-> Qd].
  destruct (splits_group_dot _ _ _ _ _ splits_re_m Hm) as [-> Qm].
  destruct (splits_re_Y _ _ _ Hy) as [-> Qy].
  done.
Qed.

(** *** The date constructor *)

Lemma new_ok y m d :
  valid (mkdate y m d) -> new y m d = Ok (mkdate y m d).
Proof.
  unfold valid, new, MINYEAR, MAXYEAR. cbn [year month day].
  intros (Hy & Hm & Hd).
  assert ((1 <=? y) && (y <=? 9999) = true) as -> by lia.
  assert ((1 <=? m) && (m <=? 12) = true) as -> by lia.
  assert ((1 <=? d) && (d <=? _days_in_month y m) = true) as -> by lia.
  reflexivity.
Qed.

Lemma new_inv y m d x :
  new y m d = Ok x -> x = mkdate y m d /\ valid x.
Proof.
  unfold valid, new, MINYEAR, MAXYEAR.
  destruct ((1 <=? y) && (y <=? 9999)) eqn:Hy; [|discriminate].
  destruct ((1 <=? m) && (m <=? 12)) eqn:Hm; [|discriminate].
  destruct ((1 <=? d) && (d <=? _days_in_month y m)) eqn:Hd;
    [|discriminate].
  cbn [negb]. intros [= <-]. cbn [year month day]. split; [done|]. lia.
Qed.

Lemma new_bad y m d :
  ~ valid (mkdate y m d) -> exists msg, new y m d = Raise (ValueError msg).
Proof.
  unfold valid, new, MINYEAR, MAXYEAR. cbn [year month day]. intros Hbad.
  destruct ((1 <=? y) && (y <=? 9999)) eqn:Hy; [|by eexists].
  destruct ((1 <=? m) && (m <=? 12)) eqn:Hm; [|by eexists].
  destruct ((1 <=? d) && (d <=? _days_in_month y m)) eqn:Hd;
    [|by eexists].
  exfalso. apply Hbad. lia.
Qed.

Lemma new_result y m d :
  (exists x, new y m d = Ok x) \/ exists msg, new y m d = Raise (ValueError msg).
Proof.
  unfold new.
  destruct (negb _); [right; by eexists|].
  destruct (negb _); [right; by eexists|].
  destruct (negb _); [right; by eexists|]. left. by eexists.
Qed.

Lemma month_cases m :
  1 <= m <= 12 ->
  m = 1 \/ m = 2 \/ m = 3 \/ m = 4 \/ m = 5 \/ m = 6 \/ m = 7
  \/ m = 8 \/ m = 9 \/ m = 10 \/ m = 11 \/ m = 12.
Proof. lia. Qed.

Ltac month_cases H :=
  apply month_cases in H;
  destruct H as [->|[->|[->|[->|[->|[->|[->|[->|[->|[->|[->| ->]]]]]]]]]]].

(** Table lookups at a known index. *)
Ltac eval_index :=
  repeat match goal with
         | |- context [index ?l ?k] =>
             let v := eval vm_compute in (index l k) in
             change (index l k) with v
         end.

Lemma days_in_month_le y m : 1 <= m <= 12 -> 28 <= _days_in_month y m <= 31.
Proof.
  intros Hm. unfold _days_in_month. month_cases Hm; eval_index;
    destruct (_is_leap y); cbn [andb Z.eqb Pos.eqb]; lia.
Qed.

Lemma strptime_wellformed d1 d2 m1 m2 y1 y2 y3 y4 :
  Forall ascii_digit [d1; d2; m1; m2; y1; y2; y3; y4] ->
  strptime [d1; d2; 46; m1; m2; 46; y1; y2; y3; y4]
  = (if (1 <=? num2 d1 d2) && (num2 d1 d2 <=? 31)
        && ((1 <=? num2 m1 m2) && (num2 m1 m2 <=? 12))
     then new (num4 y1 y2 y3 y4) (num2 m1 m2) (num2 d1 d2)
     else Raise (ValueError (lit "time data does not match format"))).
Proof.
  intros H.
  repeat match goal with
         | H : Forall _ (_ :: _) |- _ => apply Forall_cons in H as [? H]
         end.
  unfold strptime, re_format. rewrite re_d_two by done.
  destruct ((1 <=? num2 d1 d2) && (num2 d1 d2 <=? 31)); [|reflexivity].
  cbn [mbind list_bind]. rewrite re_m_two by done.
  destruct ((1 <=? num2 m1 m2) && (num2 m1 m2 <=? 12)); [|reflexivity].
  cbn [mbind list_bind]. rewrite re_Y_four by done.
  cbn [mbind list_bind app andb len length Z.of_nat Z.eqb negb].
  by rewrite !int_of_group2, int_of_group4.
Qed.

Lemma Birthday_init_result (s : str) :
  Birthday_init s = Raise (ValueError date_error)
  \/ exists b d m y,
      Birthday_init s = Ok b
      /\ valid (birthday_value b)
      /\ dmy_shape s d m y
      /\ birthday_value b
         = mkdate (int_of_group y) (int_of_group m) (int_of_group d).
Proof.
  unfold Birthday_init, strptime.
  destruct (re_format s) as [|[[[d m] y] rest] l] eqn:E; [by left|].
  destruct (negb (len rest =? 0)) eqn:Hrest; [by left|].
  assert (rest = []) as ->.
  { destruct rest; [done|]. unfold len in Hrest.
    apply negb_false_iff, Z.eqb_eq in Hrest. cbn [length] in Hrest. lia. }
  assert ((d, m, y, []) ∈ re_format s) as Hin
      by (rewrite E; apply list_elem_of_here).
  apply re_format_shape in Hin as (Hs & Hd & Hm & Hy).
  rewrite app_nil_r in Hs.
  destruct (new_result (int_of_group y) (int_of_group m) (int_of_group d))
    as [[x Hx]|[msg Hx]]; rewrite Hx; [|by left].
  right. exists (mkBirthday x), d, m, y.
  destruct (new_inv _ _ _ _ Hx) as [-> Hv]. unfold dmy_shape. by split_and!.
Qed.
End Parsing.

(** What [show-birthday] prints for a record with a birthday. *)
Lemma show_birthday_renders (st : State) (name : str) (rest : list str)
  (r : ref) (o : Rec.t) (b : Birthday) :
  Dict.get name (data st) = Some r -> heap st !! r = Some o ->
  Rec.birthday o = Some b ->
  show_birthday (name :: rest) st
  = (Ok (Datetime.strftime (lit "%d.%m.%Y") (birthday_value b)), st).
Proof.
  intros Hget Hr Hb. unfold show_birthday, handle_errors, index0. munfold.
  rewrite Hget, Hr. cbn [fst snd]. rewrite Hb.
  rewrite (list_insert_id _ _ _ Hr). by destruct st.
Qed.

(** C5, counterexample: [Birthday] accepts "5.6.1990", which is not of the
    form DD.MM.YYYY (the pattern of [strptime] takes a day and a month of one
    digit); for "15.06.1990" the [__str__] the field inherits gives the
    text of the stored datetime, not the text the field was built from; and
    "15.06.0990" is accepted and shown by the format [%d.%m.%Y] as
    "15.06.990". *)
Lemma Birthday_accepts_short_day_and_month :
  Birthday_init (lit "5.6.1990")
  = Ok (mkBirthday (Datetime.mkdate 1990 6 5))
  /\ length (lit "5.6.1990") <> length (lit "DD.MM.YYYY")
  /\ Birthday_init (lit "15.06.1990")
     = Ok (mkBirthday (Datetime.mkdate 1990 6 15))
  /\ __str__ (mkBirthday (Datetime.mkdate 1990 6 15))
     = lit "1990-06-15 00:00:00"
  /\ Birthday_init (lit "15.06.0990")
     = Ok (mkBirthday (Datetime.mkdate 990 6 15))
  /\ Datetime.strftime (lit "%d.%m.%Y") (Datetime.mkdate 990 6 15)
     = lit "15.06.990".
Proof. split_and!; [vm_compute; reflexivity | cbn; lia | vm_compute; reflexivity..]. Qed.

(** C5, amended: for a string of two ASCII digits, a dot, two ASCII digits,
    a dot and four ASCII digits that writes a date of the calendar (year 1
    to 9999), [Birthday] succeeds and holds that date. The format
    [%d.%m.%Y], the one [show-birthday] prints, renders it as the day, the
    month and the year without its leading zeros: that is the string the
    field was built from exactly when the year is 1000 or later. [__str__]
    gives the ISO text of the datetime. When the date does not exist the
    constructor raises the [ValueError] of [Birthday]. For any string the
    constructor either raises that [ValueError] or the string is a day group
    and a month group of one or two characters and four decimals, separated
    by dots, which write an existing date. *)
Theorem Birthday_parses_and_renders :
  (forall d1 d2 m1 m2 y1 y2 y3 y4,
      Forall ascii_digit [d1; d2; m1; m2; y1; y2; y3; y4] ->
      let s := [d1; d2; 46; m1; m2; 46; y1; y2; y3; y4] in
      let date :=
        Datetime.mkdate (num4 y1 y2 y3 y4) (num2 m1 m2) (num2 d1 d2) in
      (Datetime.valid date ->
       Birthday_init s = Ok (mkBirthday date)
       /\ Datetime.strftime (lit "%d.%m.%Y") date
          = [d1; d2; 46; m1; m2; 46] ++ drop_zeros [y1; y2; y3; y4]
       /\ (Datetime.strftime (lit "%d.%m.%Y") date = s
           <-> 1000 <= num4 y1 y2 y3 y4)
       /\ __str__ (mkBirthday date)
          = [y1; y2; y3; y4] ++ lit "-" ++ [m1; m2] ++ lit "-" ++ [d1; d2]
            ++ lit " 00:00:00")
      /\ (~ Datetime.valid date ->
          Birthday_init s = Raise (ValueError date_error)))
  /\ (forall s,
         Birthday_init s = Raise (ValueError date_error)
         \/ exists b d m y,
             Birthday_init s = Ok b
             /\ Datetime.valid (birthday_value b)
             /\ dmy_shape s d m y
             /\ birthday_value b
                = Datetime.mkdate (Datetime.int_of_group y)
                    (Datetime.int_of_group m) (Datetime.int_of_group d)).
Proof.
  split; [|apply Birthday_init_result].
  intros d1 d2 m1 m2 y1 y2 y3 y4 Hd s date.
  pose proof (strptime_wellformed _ _ _ _ _ _ _ _ Hd) as Hp.
  fold s in Hp. fold date in Hp.
  assert (Datetime.strftime (lit "%d.%m.%Y") date
          = [d1; d2; 46; m1; m2; 46] ++ drop_zeros [y1; y2; y3; y4]) as Hfmt.
  { rewrite strftime_dmY. apply (strftime_wellformed 46 _ _ _ _ _ _ _ _ Hd). }
  pose proof (rendering_same_iff 46 _ _ _ _ _ _ _ _ Hd) as Hsame.
  repeat match goal with
         | H : Forall _ (_ :: _) |- _ => apply Forall_cons in H as [? H]
         end.
  split.
  - intros Hv. pose proof Hv as (Hy & Hm & Hday).
    cbn [Datetime.year Datetime.month Datetime.day date] in Hy, Hm, Hday.
    pose proof (days_in_month_le (num4 y1 y2 y3 y4) _ Hm) as Hle.
    split_and!.
    + unfold Birthday_init. rewrite Hp.
      assert ((1 <=? num2 d1 d2) && (num2 d1 d2 <=? 31)
              && ((1 <=? num2 m1 m2) && (num2 m1 m2 <=? 12)) = true) as ->
          by lia.
      unfold date. by rewrite (new_ok _ _ _ Hv).
    + exact Hfmt.
    + rewrite Hfmt. exact Hsame.
    + unfold __str__, Birthday_field, Datetime.isoformat.
      cbn [birthday_value Datetime.year Datetime.month Datetime.day date].
      by rewrite !two_digits_num2, four_digits_num4.
  - intros Hbad. unfold Birthday_init. rewrite Hp.
    destruct ((1 <=? num2 d1 d2) && (num2 d1 d2 <=? 31)
              && ((1 <=? num2 m1 m2) && (num2 m1 m2 <=? 12))); [|done].
    destruct (new_bad _ _ _ Hbad) as [msg ->]. done.
Qed.

Lemma Birthday_parses_and_renders_witness :
  (Birthday_init (lit "15.06.1990")
   = Ok (mkBirthday (Datetime.mkdate 1990 6 15))
   /\ Datetime.strftime (lit "%d.%m.%Y") (Datetime.mkdate 1990 6 15)
      = lit "15.06.1990")
  /\ (Birthday_init (lit "15.06.0990")
      = Ok (mkBirthday (Datetime.mkdate 990 6 15))
      /\ Datetime.strftime (lit "%d.%m.%Y") (Datetime.mkdate 990 6 15)
         = lit "15.06.990")
  /\ Birthday_init (lit "31.02.2000") = Raise (ValueError date_error).
Proof.
  destruct Birthday_parses_and_renders as [H _].
  assert (forall l, forallb (fun c => (48 <=? c) && (c <=? 57)) l = true ->
                    Forall ascii_digit l) as Hall.
  { intros l Hl. apply Forall_forall. intros c Hc.
    rewrite forallb_forall in Hl. apply list_elem_of_In, Hl in Hc.
    unfold ascii_digit. lia. }
  split; [|split].
  - destruct (H 49 53 48 54 49 57 57 48
                (Hall [49; 53; 48; 54; 49; 57; 57; 48] eq_refl)) as [H1 _].
    destruct H1 as (E1 & _ & E2 & _);
      [|split; [exact E1|apply E2; vm_compute; discriminate]].
    unfold Datetime.valid. vm_compute. intuition discriminate.
  - destruct (H 49 53 48 54 48 57 57 48
                (Hall [49; 53; 48; 54; 48; 57; 57; 48] eq_refl)) as [H1 _].
    destruct H1 as (E1 & E2 & _); [|split; [exact E1|exact E2]].
    unfold Datetime.valid. vm_compute. intuition discriminate.
  - destruct (H 51 49 48 50 50 48 48 48
                (Hall [51; 49; 48; 50; 50; 48; 48; 48] eq_refl)) as [_ H2].
    apply H2. unfold Datetime.valid. vm_compute. intros (_ & _ & _ & Hd).
    by apply Hd.
Defined.

(** ** The calendar *)

Section Calendar.
Import Datetime.

Lemma month_day_spec (leap : bool) (n : Z) :
  0 <= n < 365 + (if leap then 1 else 0) ->
  month_day_ok leap n = true.
Proof.
  intros Hn.
  destruct leap.
  - apply (all_below_spec 366); [vm_compute; reflexivity|lia].
  - apply (all_below_spec 365); [vm_compute; reflexivity|lia].
Qed.

Lemma ord2ymd_unfold (n : Z) :
  _ord2ymd n =
  let n0 := n - 1 in
  let n400 := n0 / 146097 in
  let r400 := n0 mod 146097 in
  let n100 := r400 / 36524 in
  let r100 := r400 mod 36524 in
  let n4 := r100 / 1461 in
  let r4 := r100 mod 1461 in
  let n1 := r4 / 365 in
  let r1 := r4 mod 365 in
  let year := n400 * 400 + 1 + (n100 * 100 + n4 * 4 + n1) in
  if (n1 =? 4) || (n100 =? 4) then (year - 1, 12, 31)
  else
    let leapyear := (n1 =? 3) && (negb (n4 =? 24) || (n100 =? 3)) in
    (year, fst (month_day leapyear r1), snd (month_day leapyear r1)).
Proof.
  unfold _ord2ymd, month_day.
  change _DI400Y with 146097. change _DI100Y with 36524.
  change _DI4Y with 1461. cbv zeta.
  destruct (_ || _); [reflexivity|].
  destruct (_ >? _); reflexivity.
Qed.

Lemma is_leap_decomp a b c e :
  0 <= b <= 3 -> 0 <= c <= 24 -> 0 <= e <= 3 ->
  _is_leap (a * 400 + 1 + (b * 100 + c * 4 + e))
  = (e =? 3) && (negb (c =? 24) || (b =? 3)).
Proof.
  intros Hb Hc He. unfold _is_leap.
  apply eq_true_iff_eq. rewrite !andb_true_iff, !orb_true_iff,
    !negb_true_iff, !Z.eqb_eq, !Z.eqb_neq.
  Z.div_mod_to_equations. lia.
Qed.

Lemma days_before_year_decomp a b c e :
  0 <= b <= 3 -> 0 <= c <= 24 -> 0 <= e <= 3 ->
  _days_before_year (a * 400 + 1 + (b * 100 + c * 4 + e))
  = 146097 * a + 36524 * b + 1461 * c + 365 * e.
Proof.
  intros Hb Hc He. unfold _days_before_year. cbv zeta.
  Z.div_mod_to_equations. lia.
Qed.

Lemma days_in_month_dim y m : _days_in_month y m = dim (_is_leap y) m.
Proof. reflexivity. Qed.

Lemma days_before_month_dbm y m :
  _days_before_month y m = dbm (_is_leap y) m.
Proof. reflexivity. Qed.

(** [_ord2ymd] inverts [_ymd2ord] and returns a month and a day of the
    calendar. *)
Lemma ord2ymd_correct (n y m d : Z) :
  _ord2ymd n = (y, m, d) ->
  1 <= m <= 12 /\ 1 <= d <= _days_in_month y m /\ _ymd2ord y m d = n.
Proof.
  rewrite ord2ymd_unfold. cbv zeta.
  pose proof (Z.div_mod (n - 1) 146097 ltac:(lia)) as E400.
  pose proof (Z.mod_pos_bound (n - 1) 146097 ltac:(lia)) as B400.
  set (n400 := (n - 1) / 146097) in *.
  set (r400 := (n - 1) mod 146097) in *.
  pose proof (Z.div_mod r400 36524 ltac:(lia)) as E100.
  pose proof (Z.mod_pos_bound r400 36524 ltac:(lia)) as B100.
  set (n100 := r400 / 36524) in *. set (r100 := r400 mod 36524) in *.
  pose proof (Z.div_mod r100 1461 ltac:(lia)) as E4.
  pose proof (Z.mod_pos_bound r100 1461 ltac:(lia)) as B4.
  set (n4 := r100 / 1461) in *. set (r4 := r100 mod 1461) in *.
  pose proof (Z.div_mod r4 365 ltac:(lia)) as E1.
  pose proof (Z.mod_pos_bound r4 365 ltac:(lia)) as B1.
  set (n1 := r4 / 365) in *. set (r1 := r4 mod 365) in *.
  clearbody n400 r400 n100 r100 n4 r4 n1 r1.
  assert (0 <= n100 <= 4) as H100 by lia.
  assert (0 <= n4 <= 24) as H4 by lia.
  assert (0 <= n1 <= 4) as H1 by lia.
  destruct ((n1 =? 4) || (n100 =? 4)) eqn:Hsp.
  - intros [= <- <- <-].
    unfold _ymd2ord. rewrite days_in_month_dim, days_before_month_dbm.
    assert (exists a b c,
               0 <= b <= 3 /\ 0 <= c <= 24
               /\ n400 * 400 + 1 + (n100 * 100 + n4 * 4 + n1) - 1
                  = a * 400 + 1 + (b * 100 + c * 4 + 3)
               /\ (c <> 24 \/ b = 3)
               /\ n = 146097 * a + 36524 * b + 1461 * c + 1461)
      as (a & b & c & Hb & Hc & -> & Hl & ->).
    { destruct (decide (n100 = 4)) as [->|Hne].
      - exists n400, 3, 24. lia.
      - exists n400, n100, n4. lia. }
    rewrite is_leap_decomp, days_before_year_decomp by lia.
    assert ((3 =? 3) && (negb (c =? 24) || (b =? 3)) = true) as -> by lia.
    vm_compute dim. vm_compute dbm. lia.
  - intros [= <- <- <-].
    unfold _ymd2ord. rewrite days_in_month_dim, days_before_month_dbm.
    rewrite is_leap_decomp, days_before_year_decomp by lia.
    set (leap := (n1 =? 3) && (negb (n4 =? 24) || (n100 =? 3))).
    pose proof (month_day_spec leap r1) as Hmd.
    unfold month_day_ok in Hmd.
    destruct (month_day leap r1) as [m d]. cbn [fst snd].
    assert (0 <= r1 < 365 + (if leap then 1 else 0)) as Hr
        by (destruct leap; lia).
    specialize (Hmd Hr). lia.
Qed.

(** The day of the year of a month and a day of the calendar. *)
Lemma day_of_year_bounds (leap : bool) (m d : Z) :
  1 <= m <= 12 -> 1 <= d <= dim leap m ->
  1 <= dbm leap m + d <= 365 + (if leap then 1 else 0).
Proof.
  intros Hm. apply month_cases in Hm.
  destruct Hm as [->|[->|[->|[->|[->|[->|[->|[->|[->|[->|[->| ->]]]]]]]]]]];
    destruct leap; vm_compute dim; vm_compute dbm; lia.
Qed.

Lemma days_before_year_succ (y : Z) :
  _days_before_year (y + 1)
  = _days_before_year y + 365 + (if _is_leap y then 1 else 0).
Proof.
  unfold _days_before_year, _is_leap. cbv zeta.
  destruct (_ && _) eqn:E.
  - rewrite andb_true_iff, orb_true_iff, negb_true_iff, !Z.eqb_eq,
      Z.eqb_neq in E.
    Z.div_mod_to_equations. lia.
  - rewrite andb_false_iff, orb_false_iff, negb_false_iff, !Z.eqb_eq,
      !Z.eqb_neq in E.
    Z.div_mod_to_equations. lia.
Qed.

Lemma days_before_year_mono (y y' : Z) :
  y <= y' -> _days_before_year y <= _days_before_year y'.
Proof.
  unfold _days_before_year. cbv zeta. intros H.
  Z.div_mod_to_equations. lia.
Qed.

Lemma toordinal_bounds (x : date) :
  valid x -> 1 <= toordinal x <= _MAXORDINAL.
Proof.
  intros (Hy & Hm & Hd). unfold toordinal, _ymd2ord.
  rewrite days_in_month_dim in Hd. rewrite days_before_month_dbm.
  pose proof (day_of_year_bounds _ _ _ Hm Hd) as Hdoy.
  pose proof (days_before_year_succ (year x)) as Hs.
  unfold MINYEAR, MAXYEAR in Hy.
  pose proof (days_before_year_mono 1 (year x) ltac:(lia)) as H1.
  pose proof (days_before_year_mono (year x + 1) 10000 ltac:(lia)) as H2.
  change (_days_before_year 1) with 0 in H1.
  change (_days_before_year 10000) with 3652059 in H2.
  unfold _MAXORDINAL. lia.
Qed.

Lemma fromordinal_ok (n : Z) :
  1 <= n <= _MAXORDINAL ->
  exists x, fromordinal n = Ok x /\ valid x /\ toordinal x = n.
Proof.
  intros Hn. unfold fromordinal.
  destruct (_ord2ymd n) as [[y m] d] eqn:E.
  destruct (ord2ymd_correct _ _ _ _ E) as (Hm & Hd & Ho).
  assert (valid (mkdate y m d)) as Hv.
  { split; [|done]. cbn [year]. unfold MINYEAR, MAXYEAR.
    unfold _ymd2ord in Ho.
    rewrite days_in_month_dim in Hd. rewrite days_before_month_dbm in Ho.
    pose proof (day_of_year_bounds _ _ _ Hm Hd) as Hdoy.
    pose proof (days_before_year_succ y) as Hs.
    unfold _MAXORDINAL in Hn.
    destruct (decide (y <= 0)) as [Hlo|Hlo].
    - pose proof (days_before_year_mono (y + 1) 1 ltac:(lia)) as H1.
      change (_days_before_year 1) with 0 in H1. lia.
    - destruct (decide (10000 <= y)) as [Hhi|Hhi]; [|lia].
      pose proof (days_before_year_mono 10000 y Hhi) as H2.
      change (_days_before_year 10000) with 3652059 in H2. lia. }
  exists (mkdate y m d). by rewrite (new_ok _ _ _ Hv).
Qed.

Lemma add_days_ok (x : date) (k : Z) :
  1 <= toordinal x + k <= _MAXORDINAL ->
  exists x', add_days x k = Ok x' /\ valid x'
             /\ toordinal x' = toordinal x + k.
Proof.
  intros Hk. unfold add_days. cbv zeta.
  assert ((0 <? toordinal x + k) && (toordinal x + k <=? _MAXORDINAL)
          = true) as -> by lia.
  by apply fromordinal_ok.
Qed.

Lemma add_days_overflow (x : date) (k : Z) :
  ~ 1 <= toordinal x + k <= _MAXORDINAL ->
  add_days x k = Raise (OverflowError (lit "date value out of range")).
Proof.
  intros Hk. unfold add_days. cbv zeta.
  by assert ((0 <? toordinal x + k) && (toordinal x + k <=? _MAXORDINAL)
             = false) as -> by lia.
Qed.
End Calendar.

(** ** Upcoming birthdays *)

Section Upcoming.
Import Datetime AddressBook.

Lemma occurrence_valid today b occ :
  occurrence today b = Ok occ ->
  valid occ /\ month occ = month b /\ day occ = day b
  /\ ((year occ = year today /\ ltb occ today = false)
      \/ (year occ = year today + 1
          /\ ltb (mkdate (year today) (month b) (day b)) today = true)).
Proof.
  unfold occurrence, replace_year. unfold mbind, result_bind; cbn [bind].
  destruct (new (year today) (month b) (day b)) as [this|e] eqn:E;
    [|discriminate].
  cbn [bind]. apply new_inv in E as [-> Hv].
  destruct (ltb _ today) eqn:Hlt.
  - cbn [year month day]. intros H. apply new_inv in H as [-> Hv'].
    split; [done|]. cbn [year month day]. by split_and!; [..|right].
  - intros [= <-]. split; [done|]. cbn [year month day].
    by split_and!; [..|left].
Qed.

Lemma upcoming_no_birthday today record :
  Rec.birthday record = None -> upcoming today record = Ok None.
Proof. unfold upcoming. by intros ->. Qed.

Lemma upcoming_occurrence today record b :
  Rec.birthday record = Some b ->
  upcoming today record
  = (occ ← occurrence today (birthday_value b);
     if (0 <=? sub_days occ today) && (sub_days occ today <=? 7) then
       congratulation_date ←
         add_days today (congratulation_days today occ);
       Ok (Some (mk_entry (name_value (Rec.name record))
                   (strftime (lit "%Y.%m.%d") congratulation_date)))
     else Ok None).
Proof.
  intros Hb. unfold upcoming, occurrence, congratulation_days. rewrite Hb.
  unfold mbind, result_bind; cbn [bind].
  destruct (replace_year (birthday_value b) (year today)) as [this|e];
    [|reflexivity].
  cbn [bind]. by destruct (if ltb this today then _ else _).
Qed.

(** With the occurrence in range, adding the congratulation days to today
    stays within the dates [date] can hold. *)
Lemma congratulation_days_in_range today occ :
  valid today -> valid occ -> 0 <= sub_days occ today <= 7 ->
  1 <= toordinal today + congratulation_days today occ <= _MAXORDINAL
  /\ sub_days occ today <= congratulation_days today occ
     <= sub_days occ today + 2.
Proof.
  intros Ht Ho Hd. apply toordinal_bounds in Ht, Ho.
  unfold congratulation_days, weekday, sub_days, _MAXORDINAL in *.
  cbv zeta.
  destruct ((_ =? 5) || (_ =? 6)) eqn:E; [|lia].
  rewrite orb_true_iff, !Z.eqb_eq in E.
  Z.div_mod_to_equations. lia.
Qed.

(** The loop appends the entries of the records in their order and stops
    at the first exception. *)
Lemma upcoming_loop_spec today records acc :
  upcoming_loop today records acc
  = (es ← map_result (upcoming today) records;
     Ok (acc ++ omap id es)).
Proof.
  revert acc. induction records as [|record records IH]; intros acc.
  - cbn. by rewrite app_nil_r.
  - cbn [upcoming_loop map_result]; unfold mbind, result_bind; cbn [bind].
    destruct (upcoming today record) as [e|err]; [|reflexivity].
    cbn [bind]. rewrite IH. unfold mbind, result_bind; cbn [bind].
    destruct (map_result (upcoming today) records) as [es|err];
      [|reflexivity].
    cbn [bind]. destruct e as [e|]; cbn [omap id]; [|done].
    by rewrite <- app_assoc.
Qed.

Lemma map_result_elem {A B} (f : A -> result B) (l : list A) (l' : list B)
  (x : A) :
  map_result f l = Ok l' -> x ∈ l -> exists y, f x = Ok y /\ y ∈ l'.
Proof.
  revert l'. induction l as [|a l IH]; intros l' H Hin;
    [by apply elem_of_nil in Hin|].
  cbn [map_result] in H. destruct (f a) as [y|] eqn:Ea; [|discriminate].
  cbn [bind] in H. destruct (map_result f l) as [ys|]; [|discriminate].
  cbn [bind] in H. injection H as <-.
  apply elem_of_cons in Hin as [->|Hin].
  - exists y. split; [done|apply list_elem_of_here].
  - destruct (IH ys eq_refl Hin) as (y' & Hy & Hin').
    exists y'. split; [done|by apply list_elem_of_further].
Qed.

Lemma map_result_elem_inv {A B} (f : A -> result B) (l : list A)
  (l' : list B) (y : B) :
  map_result f l = Ok l' -> y ∈ l' -> exists x, x ∈ l /\ f x = Ok y.
Proof.
  revert l'. induction l as [|a l IH]; intros l' H Hin.
  - injection H as <-. by apply elem_of_nil in Hin.
  - cbn [map_result] in H. destruct (f a) as [y0|] eqn:Ea; [|discriminate].
    cbn [bind] in H. destruct (map_result f l) as [ys|]; [|discriminate].
    cbn [bind] in H. injection H as <-.
    apply elem_of_cons in Hin as [->|Hin].
    + exists a. split; [apply list_elem_of_here|done].
    + destruct (IH ys eq_refl Hin) as (x & Hx & Hf).
      exists x. split; [by apply list_elem_of_further|done].
Qed.

(** The records of the book are the objects its entries refer to. *)
Lemma records_elem st record :
  record ∈ records st
  <-> exists key r, (key, r) ∈ data st /\ heap st !! r = Some record.
Proof.
  unfold records, Dict.values. rewrite list_elem_of_omap. split.
  - intros (r & Hr & Hh).
    apply list_elem_of_In, in_map_iff in Hr as ([k r'] & Hk & Hin).
    cbn [snd] in Hk. subst r'. exists k, r.
    split; [by apply list_elem_of_In|done].
  - intros (k & r & Hin & Hh). exists r. split; [|done].
    apply list_elem_of_In, in_map_iff. exists (k, r).
    split; [done|by apply list_elem_of_In].
Qed.

(** The entries of the result are the entries the loop body makes for the
    records of the book. *)
Lemma get_upcoming_birthdays_elem today st l e :
  get_upcoming_birthdays today st = (Ok l, st) ->
  e ∈ l <-> exists record,
      record ∈ records st /\ upcoming today record = Ok (Some e).
Proof.
  unfold get_upcoming_birthdays. rewrite upcoming_loop_spec.
  unfold mbind, result_bind; cbn [bind]. intros H.
  destruct (map_result (upcoming today) (records st)) as [es|] eqn:E;
    [|discriminate].
  cbn [bind app] in H. injection H as <-. rewrite list_elem_of_omap.
  split.
  - intros (x & Hx & Hid). unfold id in Hid. subst x.
    by apply (map_result_elem_inv _ _ _ _ E).
  - intros (record & Hin & Hu).
    destruct (map_result_elem _ _ _ _ E Hin) as (y & Hy & Hin').
    exists y. split; [done|]. unfold id. congruence.
Qed.
End Upcoming.

Section UpcomingTheorems.
Import Datetime AddressBook.

(** A record with a birthday whose occurrence exists is entered in the
    result exactly when the occurrence is zero to seven days ahead. *)
Lemma upcoming_included_iff today record b occ :
  valid today -> Rec.birthday record = Some b ->
  occurrence today (birthday_value b) = Ok occ ->
  (0 <= sub_days occ today <= 7 ->
   exists e, upcoming today record = Ok (Some e))
  /\ (~ 0 <= sub_days occ today <= 7 -> upcoming today record = Ok None).
Proof.
  intros Ht Hb Ho. rewrite (upcoming_occurrence _ _ _ Hb), Ho.
  unfold mbind, result_bind; cbn [bind].
  destruct (occurrence_valid _ _ _ Ho) as [Hv _].
  split; intros Hd.
  - assert ((0 <=? sub_days occ today) && (sub_days occ today <=? 7)
            = true) as -> by lia.
    destruct (congratulation_days_in_range _ _ Ht Hv Hd) as [Hr _].
    destruct (add_days_ok _ _ Hr) as (cd & -> & _). by eexists.
  - by assert ((0 <=? sub_days occ today) && (sub_days occ today <=? 7)
               = false) as -> by lia.
Qed.

(** Today is 2024-06-10 and the birthday is 05.06.1990: the occurrence is
    2025-06-05 and the record is left out. *)
Lemma upcoming_passed_birthday (name : str) (phones : list Phone) :
  occurrence june_10_2024 (mkdate 1990 6 5) = Ok (mkdate 2025 6 5)
  /\ upcoming june_10_2024
       (Rec.mk (mkName name) phones (Some (mkBirthday (mkdate 1990 6 5))))
     = Ok None.
Proof. split; vm_compute; reflexivity. Qed.
(** The occurrence exists for every birthday but 29 February, in every year
    but the last one [date] can hold. *)
Lemma occurrence_exists today b :
  valid today -> valid b -> year today < MAXYEAR ->
  ~ (month b = 2 /\ day b = 29) ->
  exists occ, occurrence today b = Ok occ.
Proof.
  intros (Hty & _) (Hby & Hbm & Hbd) Hlast Hleap.
  unfold MINYEAR, MAXYEAR in *.
  assert (forall y, 1 <= y <= 9999 -> valid (mkdate y (month b) (day b)))
    as Hv.
  { intros y Hy. split; [done|]. split; [done|]. cbn [year month day].
    rewrite days_in_month_dim in *.
    destruct (decide (month b = 2)) as [E|E].
    - rewrite E in *. destruct (_is_leap (year b)), (_is_leap y);
        vm_compute dim in *; lia.
    - unfold dim in *.
      assert ((month b =? 2) = false) as Hf by lia.
      rewrite Hf in *. exact Hbd. }
  unfold occurrence, replace_year.
  rewrite (new_ok _ _ _ (Hv (year today) Hty)).
  unfold mbind, result_bind; cbn [bind year month day].
  destruct (ltb _ today); [|by eexists].
  rewrite (new_ok _ _ _ (Hv (year today + 1) ltac:(lia))). by eexists.
Qed.

(** When the occurrence of every birthday of the book exists, the query
    returns a list. *)
Lemma get_upcoming_birthdays_returns today st :
  valid today ->
  (forall record b,
      record ∈ records st -> Rec.birthday record = Some b ->
      exists occ, occurrence today (birthday_value b) = Ok occ) ->
  exists l, get_upcoming_birthdays today st = (Ok l, st).
Proof.
  intros Ht Hocc. unfold get_upcoming_birthdays.
  rewrite upcoming_loop_spec. unfold mbind, result_bind.
  assert (exists es, map_result (upcoming today) (records st) = Ok es)
    as [es ->]; [|by eexists].
  induction (records st) as [|record l IH]; [by eexists|].
  cbn [map_result].
  assert (exists e, upcoming today record = Ok e) as [e ->].
  { destruct (Rec.birthday record) as [b|] eqn:Hb.
    - destruct (Hocc record b (list_elem_of_here _ _) Hb) as [occ Ho].
      destruct (upcoming_included_iff _ _ _ _ Ht Hb Ho) as [H1 H2].
      destruct (decide (0 <= sub_days occ today <= 7)) as [Hd|Hd].
      + destruct (H1 Hd) as [e ->]. by eexists.
      + rewrite (H2 Hd). by eexists.
    - rewrite (upcoming_no_birthday _ _ Hb). by eexists. }
  cbn [bind]. destruct IH as [es ->]; [|by eexists].
  intros r b Hin. apply Hocc. by apply list_elem_of_further.
Qed.

End UpcomingTheorems.

(** C2: a contact of the book whose occurrence is zero to seven days ahead
    is in the list [get_upcoming_birthdays] returns, with an entry that
    holds the name of the record and, in the format [%Y.%m.%d], the date
    [today + days], where [days] is the number of days to the occurrence,
    plus [7 - weekday] when the occurrence is a Saturday (5) or a Sunday
    (6). That date exists, and after a Saturday or a Sunday it is the Monday
    that follows the occurrence. The query returns a list whenever the
    occurrence of every birthday of the book exists. *)
Theorem weekend_moves_congratulation_to_Monday
  (today : Datetime.date) (st : State) (key : str) (r : ref)
  (record : Rec.t) (b : Birthday) (occ : Datetime.date) :
  Datetime.valid today ->
  (key, r) ∈ data st -> heap st !! r = Some record ->
  Rec.birthday record = Some b ->
  occurrence today (birthday_value b) = Ok occ ->
  0 <= Datetime.sub_days occ today <= 7 ->
  let wd := Datetime.weekday occ in
  let days :=
    if (wd =? 5) || (wd =? 6) then Datetime.sub_days occ today + (7 - wd)
    else Datetime.sub_days occ today in
  exists congratulation_date,
    let e :=
      AddressBook.mk_entry (name_value (Rec.name record))
        (Datetime.strftime (lit "%Y.%m.%d") congratulation_date) in
    Datetime.add_days today days = Ok congratulation_date
    /\ AddressBook.upcoming today record = Ok (Some e)
    /\ (forall l,
           AddressBook.get_upcoming_birthdays today st = (Ok l, st) ->
           e ∈ l)
    /\ ((forall key' r' record' b',
            (key', r') ∈ data st -> heap st !! r' = Some record' ->
            Rec.birthday record' = Some b' ->
            exists occ', occurrence today (birthday_value b') = Ok occ') ->
        exists l,
          AddressBook.get_upcoming_birthdays today st = (Ok l, st)
          /\ e ∈ l)
    /\ Datetime.sub_days congratulation_date today = days
    /\ (wd = 5 \/ wd = 6 ->
        Datetime.weekday congratulation_date = 0
        /\ 1 <= Datetime.sub_days congratulation_date occ <= 2)
    /\ (wd < 5 ->
        Datetime.toordinal congratulation_date = Datetime.toordinal occ).
Proof.
  intros Ht Hkey Hr Hb Ho Hd wd days.
  destruct (occurrence_valid _ _ _ Ho) as [Hv _].
  destruct (congratulation_days_in_range _ _ Ht Hv Hd) as [Hrange _].
  fold wd in Hrange.
  change (congratulation_days today occ) with days in Hrange.
  destruct (add_days_ok _ _ Hrange) as (cd & Hcd & Hvcd & Hord).
  exists cd. intros e.
  assert (AddressBook.upcoming today record = Ok (Some e)) as Hup.
  { rewrite (upcoming_occurrence _ _ _ Hb), Ho.
    unfold mbind, result_bind; cbn [bind].
    assert ((0 <=? Datetime.sub_days occ today)
            && (Datetime.sub_days occ today <=? 7) = true) as -> by lia.
    change (congratulation_days today occ) with days. by rewrite Hcd. }
  assert (record ∈ AddressBook.records st) as Hrec
      by (apply records_elem; by exists key, r).
  assert (forall l,
             AddressBook.get_upcoming_birthdays today st = (Ok l, st) ->
             e ∈ l) as Hin.
  { intros l Hget.
    apply (get_upcoming_birthdays_elem _ _ _ _ Hget). by exists record. }
  split_and!; [done|done|done|..].
  - intros Hocc.
    destruct (get_upcoming_birthdays_returns today st Ht) as [l Hl].
    + intros record' b' Hrec' Hb'.
      apply records_elem in Hrec' as (key' & r' & Hkey' & Hr').
      by apply (Hocc key' r' record' b').
    + exists l. split; [done|by apply Hin].
  - unfold Datetime.sub_days. lia.
  - intros Hwd. unfold Datetime.weekday, Datetime.sub_days in *.
    subst days wd. unfold Datetime.weekday, Datetime.sub_days in *.
    destruct Hwd as [Hwd|Hwd]; rewrite Hwd in Hord; cbn in Hord;
      Z.div_mod_to_equations; lia.
  - intros Hwd. subst days.
    assert ((wd =? 5) || (wd =? 6) = false) as Hf by lia.
    rewrite Hf in Hord. unfold Datetime.sub_days in Hord. lia.
Qed.

(** Today is Monday 2024-06-10 and the book holds Ann, born 15.06.1990,
    and Carl, without a birthday: the occurrence is Saturday 2024-06-15 and
    the list the query returns holds Ann with 2024.06.17. *)
Lemma weekend_moves_congratulation_to_Monday_witness :
  let e := AddressBook.mk_entry (lit "Ann") (lit "2024.06.17") in
  Datetime.weekday june_10_2024 = 0
  /\ Datetime.weekday (Datetime.mkdate 2024 6 15) = 5
  /\ (exists l,
        AddressBook.get_upcoming_birthdays june_10_2024 ann_book
        = (Ok l, ann_book)
        /\ e ∈ l)
  /\ AddressBook.get_upcoming_birthdays june_10_2024 ann_book
     = (Ok [e], ann_book).
Proof.
  intros e. split; [reflexivity|]. split; [reflexivity|].
  split; [|vm_compute; reflexivity].
  destruct (weekend_moves_congratulation_to_Monday june_10_2024 ann_book
              (lit "Ann") 0%nat
              (Rec.mk (mkName (lit "Ann")) []
                 (Some (mkBirthday (Datetime.mkdate 1990 6 15))))
              (mkBirthday (Datetime.mkdate 1990 6 15))
              (Datetime.mkdate 2024 6 15))
    as (cd & Hcd & _ & _ & Hquery & _).
  - unfold Datetime.valid. vm_compute. intuition discriminate.
  - apply list_elem_of_here.
  - reflexivity.
  - reflexivity.
  - vm_compute. reflexivity.
  - vm_compute. split; discriminate.
  - vm_compute in Hcd. injection Hcd as <-.
    destruct Hquery as (l & Hl & Hin).
    + intros key' r' record' b' Hkey' Hr' Hb'.
      apply elem_of_cons in Hkey' as [[= -> ->]|Hkey'];
        [|apply list_elem_of_singleton in Hkey' as [= -> ->]].
      * injection Hr' as <-. injection Hb' as <-.
        exists (Datetime.mkdate 2024 6 15). vm_compute. reflexivity.
      * injection Hr' as <-. discriminate.
    + exists l. split; [exact Hl|exact Hin].
Defined.

(** ** A birthday on 29 February *)

(** C1: the book the four commands below build holds Bob, born 15.06.1990,
    and Alice, born 29.02.2000. On 2023-06-10 Bob's occurrence is five days
    ahead and his entry alone would be built, but replacing the year of
    Alice's birthday by 2023 raises [ValueError]: [get_upcoming_birthdays]
    returns no list and the [birthdays] handler answers with the text of the
    exception. The roll to the next year fails the same way: on 2024-03-01
    the occurrence 2024-02-29 has passed and 2025 has no 29 February. *)
Theorem leap_day_birthday_raises :
  let today := Datetime.mkdate 2023 6 10 in
  run [add_contact [lit "Bob"; lit "0501234567"];
       add_birthday [lit "Bob"; lit "15.06.1990"];
       add_contact [lit "Alice"; lit "0507654321"];
       add_birthday [lit "Alice"; lit "29.02.2000"]] empty_book
  = leap_day_book
  /\ AddressBook.upcoming today bob
     = Ok (Some (AddressBook.mk_entry (lit "Bob") (lit "2023.06.15")))
  /\ AddressBook.get_upcoming_birthdays today leap_day_book
     = (Raise (ValueError (lit "day is out of range for month")),
        leap_day_book)
  /\ birthdays today leap_day_book
     = (Ok (lit "day is out of range for month"), leap_day_book)
  /\ occurrence (Datetime.mkdate 2024 3 1) (Datetime.mkdate 2000 2 29)
     = Raise (ValueError (lit "day is out of range for month")).
Proof. split_and!; vm_compute; reflexivity. Qed.

(** * Further properties of the code *)

(** ** Record: the phone list *)

Lemma find_phone_Some (phone : str) (self : Rec.t) :
  phone ∈ map phone_value (Rec.phones self) ->
  Rec.find_phone phone self = Some phone.
Proof.
  unfold Rec.find_phone. induction (Rec.phones self) as [|[v] ps IH]; cbn.
  - by rewrite elem_of_nil.
  - rewrite elem_of_cons. unfold __str__, Phone_field. cbn.
    destruct (str_eqb v phone) eqn:E.
    + apply str_eqb_eq in E as ->. done.
    + intros [->|H]; [by rewrite str_eqb_refl in E|by apply IH].
Qed.

Lemma find_phone_None (phone : str) (self : Rec.t) :
  phone ∉ map phone_value (Rec.phones self) ->
  Rec.find_phone phone self = None.
Proof.
  unfold Rec.find_phone. induction (Rec.phones self) as [|[v] ps IH]; cbn.
  - done.
  - rewrite not_elem_of_cons. unfold __str__, Phone_field. cbn.
    intros [Hne H]. rewrite (str_eqb_neq v phone) by congruence. by apply IH.
Qed.

Lemma find_phone_inv (phone v : str) (self : Rec.t) :
  Rec.find_phone phone self = Some v ->
  v = phone /\ phone ∈ map phone_value (Rec.phones self).
Proof.
  intros H.
  destruct (decide (phone ∈ map phone_value (Rec.phones self))) as [Hin|Hin].
  - rewrite (find_phone_Some _ _ Hin) in H. by injection H as <-.
  - by rewrite (find_phone_None _ _ Hin) in H.
Qed.

(** X2: [find_phone] returns the phone asked for when an entry of the list
    has that value, and [None] when no entry has it. *)
Theorem find_phone_spec (phone : str) (self : Rec.t) :
  (phone ∈ map phone_value (Rec.phones self) ->
   Rec.find_phone phone self = Some phone)
  /\ (phone ∉ map phone_value (Rec.phones self) ->
      Rec.find_phone phone self = None)
  /\ (forall v, Rec.find_phone phone self = Some v ->
                v = phone /\ phone ∈ map phone_value (Rec.phones self)).
Proof.
  split; [apply find_phone_Some|]. split; [apply find_phone_None|].
  intros v. apply find_phone_inv.
Qed.

Lemma find_phone_spec_witness :
  let self :=
    Rec.mk (mkName (lit "John"))
      [mkPhone (lit "1111111111"); mkPhone (lit "2222222222")] None in
  Rec.find_phone (lit "2222222222") self = Some (lit "2222222222")
  /\ Rec.find_phone (lit "3333333333") self = None.
Proof.
  intros self. split.
  - apply (find_phone_spec (lit "2222222222") self).
    apply list_elem_of_further, list_elem_of_here.
  - apply (find_phone_spec (lit "3333333333") self).
    intros H. repeat (apply elem_of_cons in H as [H|H]; [discriminate|]).
    by apply elem_of_nil in H.
Defined.

Lemma filter_phones_not_elem (phone : str) (ps : list Phone) :
  phone ∉ map phone_value (filter (fun p => __str__ p ≠ phone) ps).
Proof.
  intros H. apply list_elem_of_In, in_map_iff in H as (p & Hp & Hin).
  apply list_elem_of_In, list_elem_of_filter in Hin as [Hne _].
  by apply Hne.
Qed.

Lemma filter_phones_id (phone : str) (ps : list Phone) :
  phone ∉ map phone_value ps ->
  filter (fun p => __str__ p ≠ phone) ps = ps.
Proof.
  induction ps as [|p ps IH]; [done|]. cbn [map].
  rewrite not_elem_of_cons. intros [Hne H].
  rewrite filter_cons_True by (unfold __str__, Phone_field; congruence).
  by rewrite IH.
Qed.

Lemma find_filter_ne (q phone : str) (ps : list Phone) :
  q <> phone ->
  find (fun p => str_eqb (__str__ p) q)
    (filter (fun p => __str__ p ≠ phone) ps)
  = find (fun p => str_eqb (__str__ p) q) ps.
Proof.
  intros Hq. induction ps as [|[v] ps IH]; [done|].
  destruct (decide (v = phone)) as [->|Hv].
  - rewrite filter_cons_False by (unfold __str__, Phone_field; cbn; tauto).
    cbn [find].
    change (__str__ (mkPhone phone)) with phone.
    by rewrite (str_eqb_neq phone q).
  - rewrite filter_cons_True by (unfold __str__, Phone_field; done).
    cbn [find]. by rewrite IH.
Qed.

(** X1: [remove_phone] never raises and touches the phone list only: no
    entry with the removed value is left, so [find_phone] no longer finds
    it, the phones of other values are found as before, and a record
    without the phone is returned unchanged. *)
Theorem remove_phone_removes_all (phone : str) (self : Rec.t) :
  let self' := snd (Rec.remove_phone phone self) in
  fst (Rec.remove_phone phone self) = Ok ()
  /\ Rec.name self' = Rec.name self
  /\ Rec.birthday self' = Rec.birthday self
  /\ (phone ∉ map phone_value (Rec.phones self'))
  /\ Rec.find_phone phone self' = None
  /\ (forall q, q <> phone ->
                Rec.find_phone q self' = Rec.find_phone q self)
  /\ (phone ∉ map phone_value (Rec.phones self) -> self' = self).
Proof.
  intros self'. subst self'. destruct self as [n ps b].
  cbn [Rec.remove_phone fst snd Rec.set_phones Rec.name Rec.birthday
         Rec.phones].
  split_and!; try done.
  - apply filter_phones_not_elem.
  - apply find_phone_None. cbn [Rec.phones]. apply filter_phones_not_elem.
  - intros q Hq. unfold Rec.find_phone. cbn [Rec.phones]. f_equal.
    by apply find_filter_ne.
  - intros H. cbn [Rec.phones] in H. by rewrite (filter_phones_id _ _ H).
Qed.

Lemma remove_phone_removes_all_witness :
  let self :=
    Rec.mk (mkName (lit "John"))
      [mkPhone (lit "1111111111"); mkPhone (lit "2222222222");
       mkPhone (lit "1111111111")] None in
  Rec.find_phone (lit "1111111111")
    (snd (Rec.remove_phone (lit "1111111111") self)) = None
  /\ Rec.find_phone (lit "2222222222")
       (snd (Rec.remove_phone (lit "1111111111") self))
     = Some (lit "2222222222").
Proof.
  intros self.
  destruct (remove_phone_removes_all (lit "1111111111") self)
    as (_ & _ & _ & _ & H1 & H2 & _).
  split; [exact H1|]. rewrite H2 by discriminate. reflexivity.
Defined.

(** X3: [add_phone] with a valid phone appends it after the phones the
    record has, so it and the earlier phones are found afterwards, and
    removing it from a record that did not have it gives the record back;
    with an invalid phone it raises the [ValueError] of [Phone] and the
    record is unchanged. *)
Theorem add_phone_appends (phone : str) (self : Rec.t) :
  (phone_ok phone ->
   let self' := snd (Rec.add_phone phone self) in
   fst (Rec.add_phone phone self) = Ok ()
   /\ map phone_value (Rec.phones self')
      = map phone_value (Rec.phones self) ++ [phone]
   /\ Rec.find_phone phone self' = Some phone
   /\ (forall q, Rec.find_phone q self = Some q ->
                 Rec.find_phone q self' = Some q)
   /\ (Rec.find_phone phone self = None ->
       Rec.remove_phone phone self' = (Ok (), self)))
  /\ (~ phone_ok phone ->
      Rec.add_phone phone self = (Raise (ValueError phone_error), self)).
Proof.
  split.
  - intros Hok self'. subst self'. unfold Rec.add_phone.
    rewrite (Phone_init_ok phone Hok). destruct self as [n ps b].
    cbn [fst snd Rec.set_phones Rec.phones Rec.name Rec.birthday].
    assert (phone ∈ map phone_value (ps ++ [mkPhone phone])) as Hin.
    { rewrite map_app. apply elem_of_app. right.
      apply list_elem_of_here. }
    split_and!.
    + done.
    + by rewrite map_app.
    + by apply find_phone_Some.
    + intros q Hq. apply find_phone_Some. cbn [Rec.phones Rec.set_phones].
      apply find_phone_inv in Hq as [_ Hq]. cbn [Rec.phones] in Hq.
      rewrite map_app. apply elem_of_app. by left.
    + intros Hnone. unfold Rec.remove_phone.
      cbn [Rec.set_phones Rec.phones Rec.name Rec.birthday].
      rewrite filter_app.
      rewrite filter_cons_False, filter_nil, app_nil_r
        by (unfold __str__, Phone_field; cbn; tauto).
      rewrite filter_phones_id; [done|]. intros Hp.
      by rewrite (find_phone_Some phone (Rec.mk n ps b) Hp) in Hnone.
  - intros Hbad. unfold Rec.add_phone. by rewrite (Phone_init_bad phone Hbad).
Qed.

Lemma add_phone_appends_witness :
  let self := Rec.mk (mkName (lit "John")) [mkPhone (lit "1111111111")] None in
  Rec.remove_phone (lit "2222222222")
    (snd (Rec.add_phone (lit "2222222222") self)) = (Ok (), self)
  /\ Rec.add_phone (lit "22") self = (Raise (ValueError phone_error), self).
Proof.
  intros self.
  destruct (add_phone_appends (lit "2222222222") self) as [H1 _].
  destruct (add_phone_appends (lit "22") self) as [_ H2].
  split.
  - apply H1; [|reflexivity]. split; [reflexivity|]. repeat constructor.
  - apply H2. intros [Hl _]. cbn in Hl. lia.
Defined.

(** X4: [edit_phone] never raises, keeps the name, the birthday and the
    number of phones, gives the new value to every entry that had the old
    one and keeps the other entries; afterwards the old value is not found
    any more (when the new value differs) and, if it was there, the new
    value is found. *)
Theorem edit_phone_replaces_all (old_phone new_phone : str) (self : Rec.t) :
  let self' := snd (Rec.edit_phone old_phone new_phone self) in
  fst (Rec.edit_phone old_phone new_phone self) = Ok ()
  /\ Rec.name self' = Rec.name self
  /\ Rec.birthday self' = Rec.birthday self
  /\ length (Rec.phones self') = length (Rec.phones self)
  /\ map phone_value (Rec.phones self')
     = map (fun v => if str_eqb v old_phone then new_phone else v)
         (map phone_value (Rec.phones self))
  /\ (old_phone <> new_phone -> Rec.find_phone old_phone self' = None)
  /\ (Rec.find_phone old_phone self = Some old_phone ->
      Rec.find_phone new_phone self' = Some new_phone).
Proof.
  intros self'. subst self'.
  pose proof (edit_phone_phones old_phone new_phone self) as Hmap.
  split_and!; try done.
  - destruct self. cbn. by rewrite length_map.
  - intros Hne. apply find_phone_None. rewrite Hmap.
    intros H. apply list_elem_of_In, in_map_iff in H as (v & Hv & _).
    destruct (str_eqb v old_phone) eqn:E; [congruence|].
    subst v. by rewrite str_eqb_refl in E.
  - intros Hold. apply find_phone_inv in Hold as [_ Hold].
    apply find_phone_Some. rewrite Hmap.
    apply list_elem_of_In, in_map_iff. exists old_phone.
    rewrite str_eqb_refl. split; [done|]. by apply list_elem_of_In.
Qed.

Lemma edit_phone_replaces_all_witness :
  let self :=
    Rec.mk (mkName (lit "John"))
      [mkPhone (lit "1111111111"); mkPhone (lit "2222222222");
       mkPhone (lit "1111111111")] None in
  let self' :=
    snd (Rec.edit_phone (lit "1111111111") (lit "3333333333") self) in
  Rec.find_phone (lit "1111111111") self' = None
  /\ Rec.find_phone (lit "3333333333") self' = Some (lit "3333333333").
Proof.
  intros self self'.
  destruct (edit_phone_replaces_all (lit "1111111111") (lit "3333333333")
              self) as (_ & _ & _ & _ & _ & H1 & H2).
  split; [apply H1; discriminate | apply H2; reflexivity].
Defined.

(** ** AddressBook: delete *)

Lemma list_filter_id_aux (k : str) (l : list str) :
  k ∉ l -> filter (fun x => x ≠ k) l = l.
Proof.
  induction l as [|x l IH]; [done|]. rewrite not_elem_of_cons.
  intros [Hne H]. rewrite filter_cons_True by congruence. by rewrite IH.
Qed.

Section DictDelete.
Context {V : Type}.
Implicit Types (d : list (str * V)) (k : str) (v : V).

Lemma get_del_ne d k k' : k' <> k -> Dict.get k' (Dict.del k d) = Dict.get k' d.
Proof.
  intros Hne. induction d as [|[k0 v0] d IH]; [done|]. cbn.
  destruct (str_eqb k0 k) eqn:E.
  - apply str_eqb_eq in E as ->.
    by rewrite (str_eqb_neq k k') by congruence.
  - cbn. by rewrite IH.
Qed.

Lemma del_absent d k : Dict.get k d = None -> Dict.del k d = d.
Proof.
  induction d as [|[k0 v0] d IH]; [done|]. cbn.
  destruct (str_eqb k0 k); [discriminate|]. intros H. by rewrite IH.
Qed.

Lemma del_set_absent d k v :
  Dict.get k d = None -> Dict.del k (Dict.set k v d) = d.
Proof.
  induction d as [|[k0 v0] d IH]; cbn.
  - by rewrite str_eqb_refl.
  - destruct (str_eqb k0 k) eqn:E; [discriminate|]. cbn. rewrite E.
    intros H. by rewrite IH.
Qed.

Lemma keys_del d k :
  NoDup (Dict.keys d) ->
  Dict.keys (Dict.del k d) = filter (fun x => x ≠ k) (Dict.keys d).
Proof.
  unfold Dict.keys. induction d as [|[k0 v0] d IH]; [done|].
  cbn [Dict.del map fst]. rewrite NoDup_cons. intros [Hn Hnd].
  destruct (str_eqb k0 k) eqn:E.
  - apply str_eqb_eq in E as ->. rewrite filter_cons_False by tauto.
    symmetry. apply list_filter_id_aux. exact Hn.
  - rewrite filter_cons_True
      by (intros ->; by rewrite str_eqb_refl in E).
    cbn [map fst]. by rewrite IH.
Qed.
End DictDelete.

(** X5: [delete] never raises and leaves the records alone; in a book that
    satisfies the invariant the deleted name is not found afterwards, every
    other name is found as before, the remaining names keep their order, and
    deleting a name the book does not hold changes nothing. *)
Theorem delete_removes (name : str) (st : State) :
  book_inv st ->
  let st' := snd (AddressBook.delete name st) in
  fst (AddressBook.delete name st) = Ok ()
  /\ heap st' = heap st
  /\ Dict.get name (data st') = None
  /\ (forall k, k <> name -> Dict.get k (data st') = Dict.get k (data st))
  /\ Dict.keys (data st')
     = filter (fun k => k ≠ name) (Dict.keys (data st))
  /\ (Dict.get name (data st) = None -> st' = st).
Proof.
  intros [Hnd _] st'. subst st'. unfold AddressBook.delete, Dict.contains.
  destruct (Dict.get name (data st)) as [r|] eqn:E.
  - cbn [set_data fst snd heap data]. split_and!; try done.
    + by apply get_del_eq.
    + intros k Hk. by apply get_del_ne.
    + by apply keys_del.
  - cbn [fst snd]. split_and!; try done.
    symmetry. apply list_filter_id_aux. by apply get_None_keys.
Qed.

Lemma delete_removes_witness :
  Dict.get (lit "Bob")
    (data (snd (AddressBook.delete (lit "Bob") leap_day_book))) = None
  /\ Dict.get (lit "Alice")
       (data (snd (AddressBook.delete (lit "Bob") leap_day_book)))
     = Some 1%nat
  /\ snd (AddressBook.delete (lit "Carol") leap_day_book) = leap_day_book.
Proof.
  assert (book_inv leap_day_book) as Hinv.
  { split.
    - apply NoDup_cons. split.
      + intros H. apply list_elem_of_singleton in H. discriminate.
      + apply NoDup_singleton.
    - intros k r H.
      apply elem_of_cons in H as [[= -> ->]|H]; [by exists bob|].
      apply list_elem_of_singleton in H as [= -> ->]. by exists alice. }
  destruct (delete_removes (lit "Bob") leap_day_book Hinv)
    as (_ & _ & H1 & H2 & _).
  destruct (delete_removes (lit "Carol") leap_day_book Hinv)
    as (_ & _ & _ & _ & _ & H3).
  split_and!; [exact H1 | by rewrite H2 | by apply H3].
Defined.

(** X6: adding a record under a name the book does not hold and deleting
    that name again gives the book back. *)
Theorem add_record_then_delete (record : ref) (o : Rec.t) (st : State) :
  heap st !! record = Some o ->
  Dict.get (name_value (Rec.name o)) (data st) = None ->
  snd (AddressBook.delete (name_value (Rec.name o))
         (snd (AddressBook.add_record record st))) = st.
Proof.
  intros Hr Hget. rewrite (add_record_eq _ _ _ Hr). cbn [snd].
  unfold AddressBook.delete, Dict.contains. cbn [data].
  rewrite get_set_eq. cbn [set_data snd heap data].
  rewrite (del_set_absent _ _ _ Hget). by destruct st.
Qed.

Lemma add_record_then_delete_witness :
  snd (AddressBook.delete (lit "John")
         (snd (AddressBook.add_record 0%nat two_johns))) = two_johns.
Proof.
  apply (add_record_then_delete 0%nat
           (Rec.mk (mkName (lit "John")) [mkPhone (lit "1234567890")] None)
           two_johns); reflexivity.
Defined.

(** ** Handlers: what they read and what they change *)

Lemma attr_eq {A} (r : ref) (field : Rec.t -> A) (o : Rec.t) (st : State) :
  heap st !! r = Some o -> attr r field st = (Ok (field o), st).
Proof.
  intros H. unfold attr, call. rewrite H. rewrite (list_insert_id _ _ _ H).
  by destruct st.
Qed.

Lemma attr_state {A} (r : ref) (field : Rec.t -> A) (st : State) :
  snd (attr r field st) = st.
Proof.
  destruct (heap st !! r) as [o|] eqn:H.
  - by rewrite (attr_eq _ _ _ _ H).
  - unfold attr, call. by rewrite H.
Qed.

Lemma handle_errors_state (func : M str) (st : State) :
  snd (handle_errors func st) = snd (func st).
Proof. unfold handle_errors. by destruct (func st) as [[a|[]] st']. Qed.

Lemma show_phone_state (args : list str) (st : State) :
  snd (show_phone args st) = st.
Proof.
  unfold show_phone. rewrite handle_errors_state.
  destruct args as [|name rest]; [done|].
  unfold index0, AddressBook.find, mbind, mret, M_bind, M_ret.
  destruct (Dict.get name (data st)) as [r|]; [|done].
  pose proof (attr_state r Rec.phones st) as Hs.
  by destruct (attr r Rec.phones st) as [[ps|e] st']; cbn in *; subst.
Qed.

Lemma show_all_state (st : State) : snd (show_all st) = st.
Proof. unfold show_all. by rewrite handle_errors_state. Qed.

Lemma show_birthday_state (args : list str) (st : State) :
  snd (show_birthday args st) = st.
Proof.
  unfold show_birthday. rewrite handle_errors_state.
  destruct args as [|name rest]; [done|].
  unfold index0, AddressBook.find, mbind, mret, M_bind, M_ret.
  destruct (Dict.get name (data st)) as [r|]; [|done].
  pose proof (attr_state r Rec.birthday st) as Hs.
  destruct (attr r Rec.birthday st) as [[[b|]|e] st']; cbn in *; by subst.
Qed.

Lemma birthdays_state (today : Datetime.date) (st : State) :
  snd (birthdays today st) = st.
Proof.
  unfold birthdays. rewrite handle_errors_state.
  unfold AddressBook.get_upcoming_birthdays, mbind, mret, M_bind, M_ret.
  by destruct (AddressBook.upcoming_loop _ _ _) as [[|e l]|e].
Qed.

(** X7: the handlers [show_phone], [show_all], [show_birthday] and
    [birthdays] leave the state as it is, whatever the arguments and
    whether they return or raise. *)
Theorem read_only_handlers (args : list str) (today : Datetime.date)
  (st : State) :
  snd (show_phone args st) = st
  /\ snd (show_all st) = st
  /\ snd (show_birthday args st) = st
  /\ snd (birthdays today st) = st.
Proof.
  split_and!;
    [apply show_phone_state | apply show_all_state
    | apply show_birthday_state | apply birthdays_state].
Qed.

(** X8: a wrong number of arguments is an unpacking [ValueError], which
    [handle_errors] turns into the returned text: [add_contact] with fewer
    than two arguments, [change_contact] and [add_birthday] with fewer or
    more than two return the message of the interpreter and leave the state
    as it is. *)
Theorem wrong_arity_is_reported (args : list str) (st : State) :
  ((length args < 2)%nat ->
   add_contact args st
   = (Ok (lit "not enough values to unpack (expected at least 2, got "
          ++ str_of_nat (length args) ++ lit ")"), st)
   /\ change_contact args st
      = (Ok (lit "not enough values to unpack (expected 2, got "
             ++ str_of_nat (length args) ++ lit ")"), st)
   /\ add_birthday args st
      = (Ok (lit "not enough values to unpack (expected 2, got "
             ++ str_of_nat (length args) ++ lit ")"), st))
  /\ ((length args > 2)%nat ->
      change_contact args st
      = (Ok (lit "too many values to unpack (expected 2)"), st)
      /\ add_birthday args st
         = (Ok (lit "too many values to unpack (expected 2)"), st)).
Proof.
  split; intros Hlen.
  - destruct args as [|a [|b rest]]; [by split_and!..|]. cbn in Hlen. lia.
  - destruct args as [|a [|b [|c rest]]]; [cbn in Hlen; lia..|].
    by split_and!.
Qed.

Lemma wrong_arity_is_reported_witness :
  add_contact [lit "John"] empty_book
  = (Ok (lit "not enough values to unpack (expected at least 2, got 1)"),
     empty_book)
  /\ change_contact [lit "John"; lit "1"; lit "2"] empty_book
     = (Ok (lit "too many values to unpack (expected 2)"), empty_book).
Proof.
  split.
  - apply (wrong_arity_is_reported [lit "John"] empty_book). cbn. lia.
  - apply (wrong_arity_is_reported [lit "John"; lit "1"; lit "2"] empty_book).
    cbn. lia.
Defined.

(** ** Handlers: birthdays and phones of a contact *)

Lemma Birthday_init_wellformed d1 d2 m1 m2 y1 y2 y3 y4 :
  Forall ascii_digit [d1; d2; m1; m2; y1; y2; y3; y4] ->
  let date :=
    Datetime.mkdate (num4 y1 y2 y3 y4) (num2 m1 m2) (num2 d1 d2) in
  Datetime.valid date ->
  Birthday_init [d1; d2; 46; m1; m2; 46; y1; y2; y3; y4]
  = Ok (mkBirthday date)
  /\ Datetime.strftime (lit "%d.%m.%Y") date
     = [d1; d2; 46; m1; m2; 46] ++ drop_zeros [y1; y2; y3; y4].
Proof.
  intros Hd date Hv.
  pose proof (strptime_wellformed _ _ _ _ _ _ _ _ Hd) as Hp.
  pose proof (strftime_wellformed 46 _ _ _ _ _ _ _ _ Hd) as Hfmt.
  repeat match goal with
         | H : Forall _ (_ :: _) |- _ => apply Forall_cons in H as [? H]
         end.
  pose proof Hv as (Hy & Hm & Hday).
  cbn [Datetime.year Datetime.month Datetime.day date] in Hy, Hm, Hday.
  pose proof (days_in_month_le (num4 y1 y2 y3 y4) _ Hm) as Hle.
  split.
  - unfold Birthday_init. rewrite Hp.
    assert ((1 <=? num2 d1 d2) && (num2 d1 d2 <=? 31)
            && ((1 <=? num2 m1 m2) && (num2 m1 m2 <=? 12)) = true) as ->
        by lia.
    by rewrite (new_ok _ _ _ Hv).
  - by rewrite strftime_dmY.
Qed.

(** X9: for a contact of the book and a string DD.MM.YYYY of ASCII digits
    that writes a date of the calendar, [add_birthday] answers "Birthday
    added." and changes nothing but the birthday of that contact;
    [show_birthday] then prints the day, the month and the year without
    its leading zeros, which is the string that was given exactly when the
    year is 1000 or later. *)
Theorem add_birthday_then_show
  (st : State) (name : str) (r : ref) (o : Rec.t)
  (d1 d2 m1 m2 y1 y2 y3 y4 : Z) :
  Dict.get name (data st) = Some r -> heap st !! r = Some o ->
  Forall ascii_digit [d1; d2; m1; m2; y1; y2; y3; y4] ->
  let s := [d1; d2; 46; m1; m2; 46; y1; y2; y3; y4] in
  let date :=
    Datetime.mkdate (num4 y1 y2 y3 y4) (num2 m1 m2) (num2 d1 d2) in
  Datetime.valid date ->
  let st' :=
    mkState
      (<[r := Rec.set_birthday (Some (mkBirthday date)) o]> (heap st))
      (data st) in
  let shown := [d1; d2; 46; m1; m2; 46] ++ drop_zeros [y1; y2; y3; y4] in
  add_birthday [name; s] st = (Ok (lit "Birthday added."), st')
  /\ show_birthday [name] st' = (Ok shown, st')
  /\ (shown = s <-> 1000 <= num4 y1 y2 y3 y4).
Proof.
  intros Hget Hr Hd s date Hv st' shown.
  destruct (Birthday_init_wellformed _ _ _ _ _ _ _ _ Hd Hv) as [Hinit Hfmt].
  fold s in Hinit. fold date in Hinit, Hfmt. fold shown in Hfmt.
  split_and!.
  - unfold add_birthday, handle_errors, unpack2. munfold.
    rewrite Hget, Hr. unfold Rec.add_birthday. by rewrite Hinit.
  - rewrite <- Hfmt.
    apply (show_birthday_renders st' name [] r
             (Rec.set_birthday (Some (mkBirthday date)) o)
             (mkBirthday date)); [done| |done].
    subst st'. cbn [heap]. apply list_lookup_insert_eq.
    by eapply lookup_lt_Some.
  - apply (rendering_same_iff 46 _ _ _ _ _ _ _ _ Hd).
Qed.

Lemma add_birthday_then_show_witness :
  let born (y : Z) :=
    mkState
      [Rec.mk (mkName (lit "John")) [mkPhone (lit "1234567890")]
         (Some (mkBirthday (Datetime.mkdate y 6 15)))]
      [(lit "John", 0%nat)] in
  (add_birthday [lit "John"; lit "15.06.1990"] john_book
   = (Ok (lit "Birthday added."), born 1990)
   /\ show_birthday [lit "John"] (born 1990)
      = (Ok (lit "15.06.1990"), born 1990))
  /\ (add_birthday [lit "John"; lit "15.06.0990"] john_book
      = (Ok (lit "Birthday added."), born 990)
      /\ show_birthday [lit "John"] (born 990)
         = (Ok (lit "15.06.990"), born 990)).
Proof.
  intros born.
  assert (forall l, forallb (fun c => (48 <=? c) && (c <=? 57)) l = true ->
                    Forall ascii_digit l) as Hall.
  { intros l Hl. apply Forall_forall. intros c Hc.
    rewrite forallb_forall in Hl. apply list_elem_of_In, Hl in Hc.
    unfold ascii_digit. lia. }
  split.
  - destruct (add_birthday_then_show john_book (lit "John") 0%nat
                (Rec.mk (mkName (lit "John")) [mkPhone (lit "1234567890")]
                   None)
                49 53 48 54 49 57 57 48) as (H1 & H2 & _);
      [reflexivity | reflexivity | by apply Hall | | by split].
    unfold Datetime.valid. vm_compute. intuition discriminate.
  - destruct (add_birthday_then_show john_book (lit "John") 0%nat
                (Rec.mk (mkName (lit "John")) [mkPhone (lit "1234567890")]
                   None)
                49 53 48 54 48 57 57 48) as (H1 & H2 & _);
      [reflexivity | reflexivity | by apply Hall | | by split].
    unfold Datetime.valid. vm_compute. intuition discriminate.
Defined.

(** X10: [add_birthday] for a name the book does not hold answers with the
    not-found sentence, and for a contact of the book and a string
    [Birthday] rejects it answers with the message of [Birthday]; in both
    cases the state, an earlier birthday included, is unchanged. *)
Theorem add_birthday_failures (st : State) (name birthday : str) :
  (Dict.get name (data st) = None ->
   add_birthday [name; birthday] st = (Ok not_found, st))
  /\ (forall r o,
         Dict.get name (data st) = Some r -> heap st !! r = Some o ->
         Birthday_init birthday = Raise (ValueError date_error) ->
         add_birthday [name; birthday] st = (Ok date_error, st)).
Proof.
  split.
  - intros Hget. unfold add_birthday, handle_errors, unpack2. munfold.
    by rewrite Hget.
  - intros r o Hget Hr Hbad.
    unfold add_birthday, handle_errors, unpack2. munfold.
    rewrite Hget, Hr. unfold Rec.add_birthday. rewrite Hbad.
    rewrite (list_insert_id _ _ _ Hr). by destruct st.
Qed.

Lemma add_birthday_failures_witness :
  add_birthday [lit "Ghost"; lit "15.06.1990"] john_book
  = (Ok not_found, john_book)
  /\ add_birthday [lit "John"; lit "31.02.2000"] john_book
     = (Ok date_error, john_book).
Proof.
  destruct (add_birthday_failures john_book (lit "Ghost") (lit "15.06.1990"))
    as [H1 _].
  destruct (add_birthday_failures john_book (lit "John") (lit "31.02.2000"))
    as [_ H2].
  split; [by apply H1|].
  apply (H2 0%nat
           (Rec.mk (mkName (lit "John")) [mkPhone (lit "1234567890")] None));
    reflexivity.
Defined.

Lemma show_phone_known (st : State) (name : str) (rest : list str)
  (r : ref) (o : Rec.t) :
  Dict.get name (data st) = Some r -> heap st !! r = Some o ->
  show_phone (name :: rest) st
  = (Ok (join (lit "; ") (map phone_value (Rec.phones o))), st).
Proof.
  intros Hget Hr. unfold show_phone, handle_errors, index0.
  unfold AddressBook.find, mbind, mret, M_bind, M_ret. rewrite Hget.
  by rewrite (attr_eq _ _ _ _ Hr).
Qed.

Lemma map_value_mkPhone (l : list str) : map phone_value (map mkPhone l) = l.
Proof. rewrite map_map. apply map_id. Qed.

(** X11: [show_phone] prints the phones of a contact of the book in their
    order, joined by "; ", and the not-found sentence for another name;
    after a [change_contact] with a list of valid phones it prints that
    list, and after an [add_contact] with a valid phone for a new name it
    prints that phone. *)
Theorem show_phone_after_change (st : State) (name phone : str) :
  (forall r o,
      Dict.get name (data st) = Some r -> heap st !! r = Some o ->
      show_phone [name] st
      = (Ok (join (lit "; ") (map phone_value (Rec.phones o))), st))
  /\ (Dict.get name (data st) = None ->
      show_phone [name] st = (Ok not_found, st))
  /\ (forall r o,
         Dict.get name (data st) = Some r -> heap st !! r = Some o ->
         Forall phone_ok (split comma phone) ->
         let st' := snd (change_contact [name; phone] st) in
         show_phone [name] st'
         = (Ok (join (lit "; ") (split comma phone)), st'))
  /\ (Dict.get name (data st) = None -> name <> [] -> phone_ok phone ->
      let st' := snd (add_contact [name; phone] st) in
      show_phone [name] st' = (Ok phone, st')).
Proof.
  split_and!.
  - intros r o. apply show_phone_known.
  - intros Hget. unfold show_phone, handle_errors, index0.
    unfold AddressBook.find, mbind, mret, M_bind, M_ret. by rewrite Hget.
  - intros r o Hget Hr Hok st'.
    assert (st' = mkState
                    (<[r := Rec.set_phones
                              (map mkPhone (split comma phone)) o]>
                       (heap st)) (data st)) as ->.
    { subst st'. unfold change_contact, handle_errors, unpack2. munfold.
      rewrite Hget. fold comma. rewrite (map_Phone_init_ok _ Hok).
      by rewrite Hr. }
    rewrite (show_phone_known _ name []  r
               (Rec.set_phones (map mkPhone (split comma phone)) o)).
    + destruct o. cbn [Rec.set_phones Rec.phones].
      by rewrite map_value_mkPhone.
    + done.
    + cbn [heap]. apply list_lookup_insert_eq. by eapply lookup_lt_Some.
  - intros Hget Hname Hok st'.
    assert (st' = mkState
                    (heap st ++ [Rec.mk (mkName name) [mkPhone phone] None])
                    (data st ++ [(name, length (heap st))])) as ->.
    { subst st'. unfold add_contact, handle_errors, Record_new. munfold.
      rewrite Hget, (Rec_init_ok name Hname). cbn [heap data].
      rewrite (list_lookup_middle (heap st) [] _ (length (heap st)) eq_refl).
      cbn [snd fst heap data Rec.name name_value].
      rewrite (list_insert_id _ _ _
                 (list_lookup_middle (heap st) [] _ (length (heap st))
                    eq_refl)).
      rewrite (set_absent _ _ _ Hget).
      assert (truthy phone = true) as ->
          by (destruct Hok as [Hl _]; by destruct phone).
      cbn [heap data].
      rewrite (list_lookup_middle (heap st) [] _ (length (heap st)) eq_refl).
      unfold Rec.add_phone. rewrite (Phone_init_ok phone Hok).
      cbn [snd fst heap data Rec.phones Rec.set_phones Rec.name
             Rec.birthday app].
      f_equal. rewrite <- (Nat.add_0_r (length (heap st))) at 1.
      by rewrite insert_app_r. }
    rewrite (show_phone_known _ name [] (length (heap st))
               (Rec.mk (mkName name) [mkPhone phone] None)).
    + done.
    + cbn [data]. rewrite <- (set_absent _ name (length (heap st)) Hget).
      apply get_set_eq.
    + cbn [heap]. by apply list_lookup_middle.
Qed.

Lemma show_phone_after_change_witness :
  show_phone [lit "John"]
    (snd (change_contact [lit "John"; lit "1111111111,2222222222"]
            john_book))
  = (Ok (lit "1111111111; 2222222222"),
     snd (change_contact [lit "John"; lit "1111111111,2222222222"]
            john_book))
  /\ show_phone [lit "Ann"]
       (snd (add_contact [lit "Ann"; lit "3333333333"] john_book))
     = (Ok (lit "3333333333"),
        snd (add_contact [lit "Ann"; lit "3333333333"] john_book)).
Proof.
  destruct (show_phone_after_change john_book (lit "John")
              (lit "1111111111,2222222222")) as (_ & _ & H3 & _).
  destruct (show_phone_after_change john_book (lit "Ann")
              (lit "3333333333")) as (_ & _ & _ & H4).
  split.
  - apply (H3 0%nat
             (Rec.mk (mkName (lit "John")) [mkPhone (lit "1234567890")] None));
      [reflexivity | reflexivity |]. repeat constructor.
  - apply H4; [reflexivity | discriminate |].
    split; [reflexivity|]. repeat constructor.
Defined.

(** ** What the handlers store *)

Section Keeps.
Context (P : State -> Prop).

Lemma keeps_ret {A} (a : A) : keeps P (mret a).
Proof. by intros st H. Qed.

Lemma keeps_raise {A} (e : exn) : keeps P (@raise A e).
Proof. by intros st H. Qed.

Lemma keeps_lift {A} (r : result A) : keeps P (lift r).
Proof. by intros st H. Qed.

Lemma keeps_find (name : str) : keeps P (AddressBook.find name).
Proof. by intros st H. Qed.

Lemma keeps_bind {A B} (m : M A) (k : A -> M B) :
  keeps P m -> (forall a, keeps P (k a)) -> keeps P (m ≫= k).
Proof.
  intros Hm Hk st H. specialize (Hm st H). unfold mbind, M_bind.
  destruct (m st) as [[a|e] st']; [by apply Hk|done].
Qed.

Lemma keeps_handle_errors (func : M str) :
  keeps P func -> keeps P (handle_errors func).
Proof. intros Hf st H. rewrite handle_errors_state. by apply Hf. Qed.

(** The chain of [main] keeps what the seven handlers keep. *)
Lemma keeps_dispatch (today : Datetime.date) (command : str)
  (args : list str) :
  (forall args, keeps P (add_contact args)) ->
  (forall args, keeps P (change_contact args)) ->
  (forall args, keeps P (show_phone args)) ->
  keeps P show_all ->
  (forall args, keeps P (add_birthday args)) ->
  (forall args, keeps P (show_birthday args)) ->
  (forall today, keeps P (birthdays today)) ->
  keeps P (dispatch today command args).
Proof.
  intros H1 H2 H3 H4 H5 H6 H7. unfold dispatch.
  destruct (existsb _ _); [by intros st H|].
  repeat (destruct (str_eqb command _);
          [first [ apply keeps_ret
                 | apply keeps_bind; [done|intros ?; apply keeps_ret] ]|]).
  apply keeps_ret.
Qed.
End Keeps.

Lemma data_valid_call {A} (r : ref) (method : Rec.t -> result A * Rec.t) :
  (forall self, record_ok self -> record_ok (snd (method self))) ->
  keeps data_valid (call r method).
Proof.
  intros Hm st Hv. unfold call.
  destruct (heap st !! r) as [self|] eqn:Hr; [|done].
  assert (record_ok self) as Hself.
  { unfold data_valid in Hv. rewrite Forall_forall in Hv.
    apply Hv. by eapply list_elem_of_lookup_2. }
  specialize (Hm self Hself). destruct (method self) as [res self'].
  cbn [snd] in *. unfold data_valid. cbn [heap].
  by apply Forall_insert.
Qed.

Lemma data_valid_Record_new (name : str) : keeps data_valid (Record_new name).
Proof.
  intros st Hv. unfold Record_new, Rec.init, Name_init.
  destruct name as [|c name]; [done|]. cbn. unfold data_valid. cbn [heap].
  apply Forall_app. split; [done|]. apply Forall_singleton.
  split; [done|]. split; [apply Forall_nil_2|]. intros b Hb. discriminate.
Qed.

Lemma data_valid_add_record (record : ref) :
  keeps data_valid (AddressBook.add_record record).
Proof.
  unfold AddressBook.add_record. apply keeps_bind.
  - apply data_valid_call. by intros self H.
  - intros name st H. by destruct st.
Qed.

Lemma data_valid_delete (name : str) :
  keeps data_valid (AddressBook.delete name).
Proof.
  intros st H. unfold AddressBook.delete.
  by destruct (Dict.contains name (data st)).
Qed.

Lemma map_Phone_init_valid (l : list str) (ps : list Phone) :
  map_result Phone_init l = Ok ps ->
  Forall (fun p => phone_ok (phone_value p)) ps.
Proof.
  destruct (decide (Forall phone_ok l)) as [Hok|Hbad].
  - rewrite (map_Phone_init_ok _ Hok). intros [= <-].
    apply Forall_forall. intros p Hp.
    apply list_elem_of_In, in_map_iff in Hp as (s & <- & Hs).
    rewrite Forall_forall in Hok. by apply Hok, list_elem_of_In.
  - apply not_Forall_Exists in Hbad; [|intros s; apply (phone_ok_dec s)].
    by rewrite (map_Phone_init_bad _ Hbad).
Qed.

Lemma record_ok_add_phone (phone : str) (self : Rec.t) :
  record_ok self -> record_ok (snd (Rec.add_phone phone self)).
Proof.
  intros (Hn & Hp & Hb). unfold Rec.add_phone.
  destruct (Phone_init phone) as [p|e] eqn:E; [|done].
  apply Phone_init_inv in E as [Hok ->]. destruct self as [n ps b].
  split; [done|]. split; [|done]. cbn [snd Rec.set_phones Rec.phones] in *.
  apply Forall_app. split; [done|]. by apply Forall_singleton.
Qed.

Lemma record_ok_add_birthday (birthday : str) (self : Rec.t) :
  record_ok self -> record_ok (snd (Rec.add_birthday birthday self)).
Proof.
  intros (Hn & Hp & Hb). unfold Rec.add_birthday.
  destruct (Birthday_init_result birthday) as [E|(b & d & m & y & E & Hv & _)];
    rewrite E; [done|].
  destruct self as [n ps b0]. split; [done|]. split; [done|].
  cbn. by intros ? [= <-].
Qed.

Lemma data_valid_handlers (args : list str) (today : Datetime.date) :
  keeps data_valid (add_contact args)
  /\ keeps data_valid (change_contact args)
  /\ keeps data_valid (show_phone args)
  /\ keeps data_valid show_all
  /\ keeps data_valid (add_birthday args)
  /\ keeps data_valid (show_birthday args)
  /\ keeps data_valid (birthdays today).
Proof.
  split_and!.
  - unfold add_contact. apply keeps_handle_errors.
    destruct args as [|name [|phone rest]]; [apply keeps_raise..|].
    apply keeps_bind; [apply keeps_find|]. intros [r|].
    + apply keeps_bind; [apply keeps_ret|]. intros [r' msg].
      apply keeps_bind; [|intros ?; apply keeps_ret].
      destruct (truthy phone); [|apply keeps_ret].
      apply data_valid_call. apply record_ok_add_phone.
    + apply keeps_bind.
      * apply keeps_bind; [apply data_valid_Record_new|]. intros r.
        apply keeps_bind; [apply data_valid_add_record|].
        intros ?. apply keeps_ret.
      * intros [r' msg].
        apply keeps_bind; [|intros ?; apply keeps_ret].
        destruct (truthy phone); [|apply keeps_ret].
        apply data_valid_call. apply record_ok_add_phone.
  - unfold change_contact. apply keeps_handle_errors.
    apply keeps_bind.
    { unfold unpack2. destruct args as [|a [|b [|c rest]]];
        first [apply keeps_raise | apply keeps_ret]. }
    intros [name phone]. apply keeps_bind; [apply keeps_find|].
    intros [r|]; [|apply keeps_ret].
    intros st H. unfold mbind, M_bind, lift.
    destruct (map_result Phone_init (split (Datetime.chr ",") phone))
      as [ps|e] eqn:E; [|done].
    assert (keeps data_valid
              (call r (fun self => (Ok (), Rec.set_phones ps self))))
      as Hc.
    { apply data_valid_call. intros self (Hn & _ & Hb).
      destruct self. split; [done|]. split; [|done].
      by apply (map_Phone_init_valid _ _ E). }
    specialize (Hc st H).
    by destruct (call r _ st) as [[[]|e] st'].
  - intros st H. by rewrite show_phone_state.
  - intros st H. by rewrite show_all_state.
  - unfold add_birthday. apply keeps_handle_errors.
    apply keeps_bind.
    { unfold unpack2. destruct args as [|a [|b [|c rest]]];
        first [apply keeps_raise | apply keeps_ret]. }
    intros [name birthday]. apply keeps_bind; [apply keeps_find|].
    intros [r|]; [|apply keeps_ret].
    apply keeps_bind; [|intros ?; apply keeps_ret].
    apply data_valid_call. apply record_ok_add_birthday.
  - intros st H. by rewrite show_birthday_state.
  - intros st H. by rewrite birthdays_state.
Qed.

(** X12: the empty book holds valid data, and every handler keeps it so:
    whatever the arguments, the records reachable afterwards have a name
    that is not empty, only phones [Phone] accepts and a birthday that is a
    date of the calendar. *)
Theorem handlers_store_valid_data :
  data_valid empty_book
  /\ forall st,
      data_valid st ->
      (forall args today,
          data_valid (snd (add_contact args st))
          /\ data_valid (snd (change_contact args st))
          /\ data_valid (snd (show_phone args st))
          /\ data_valid (snd (show_all st))
          /\ data_valid (snd (add_birthday args st))
          /\ data_valid (snd (show_birthday args st))
          /\ data_valid (snd (birthdays today st)))
      /\ (forall record,
             record ∈ AddressBook.records st -> record_ok record).
Proof.
  split; [apply Forall_nil_2|]. intros st Hv. split.
  - intros args today.
    destruct (data_valid_handlers args today)
      as (H1 & H2 & H3 & H4 & H5 & H6 & H7).
    split_and!; [by apply H1 | by apply H2 | by apply H3 | by apply H4
                | by apply H5 | by apply H6 | by apply H7].
  - intros record Hin. unfold AddressBook.records in Hin.
    apply list_elem_of_omap in Hin as (r & _ & Hr).
    unfold data_valid in Hv. rewrite Forall_forall in Hv.
    apply Hv. by eapply list_elem_of_lookup_2.
Qed.

Lemma handlers_store_valid_data_witness :
  data_valid john_book
  /\ data_valid
       (snd (change_contact [lit "John"; lit "1111111111,22"] john_book))
  /\ data_valid
       (snd (add_contact [lit "Ann"; lit "12"] john_book)).
Proof.
  assert (data_valid john_book) as Hv.
  { apply Forall_singleton. split; [discriminate|]. split.
    - apply Forall_singleton. split; [reflexivity|]. repeat constructor.
    - intros b Hb. discriminate. }
  destruct handlers_store_valid_data as [_ H].
  destruct (H john_book Hv) as [H1 _].
  split; [exact Hv|]. split.
  - apply (H1 [lit "John"; lit "1111111111,22"] june_10_2024).
  - apply (H1 [lit "Ann"; lit "12"] june_10_2024).
Defined.

(** ** parse_input and the loop of main *)

Lemma split_ws_aux_tokens (cur s : str) :
  Forall (fun c => isspace c = false) cur ->
  Forall (fun t => t <> [] /\ Forall (fun c => isspace c = false) t)
    (split_ws_aux cur s).
Proof.
  revert cur. induction s as [|c s IH]; intros cur Hcur; cbn [split_ws_aux].
  - destruct cur as [|c0 cur]; [apply Forall_nil_2|].
    apply Forall_singleton. split.
    + intros H. apply (f_equal (@length Z)) in H.
      rewrite length_rev in H. discriminate.
    + by apply Forall_rev.
  - destruct (isspace c) eqn:E.
    + destruct cur as [|c0 cur]; [by apply IH|].
      apply Forall_cons_2; [|by apply IH]. split.
      * intros H. apply (f_equal (@length Z)) in H.
        rewrite length_rev in H. discriminate.
      * by apply Forall_rev.
    + apply IH. by apply Forall_cons_2.
Qed.

Lemma split_ws_aux_blank (s : str) :
  Forall (fun c => isspace c = true) s -> split_ws_aux [] s = [].
Proof.
  induction 1 as [|c s Hc _ IH]; [done|]. cbn [split_ws_aux]. by rewrite Hc.
Qed.

Lemma split_ws_aux_token (t cur s : str) :
  Forall (fun c => isspace c = false) t ->
  split_ws_aux cur (t ++ s) = split_ws_aux (rev t ++ cur) s.
Proof.
  revert cur. induction t as [|c t IH]; intros cur Ht; [done|].
  apply Forall_cons in Ht as [Hc Ht]. cbn [app split_ws_aux]. rewrite Hc.
  rewrite (IH _ Ht). cbn [rev]. by rewrite <- app_assoc.
Qed.

(** [split()] gives back the words of a line written with single blanks. *)
Lemma split_ws_join (l : list str) :
  Forall (fun t => t <> [] /\ Forall (fun c => isspace c = false) t) l ->
  split_ws (join (lit " ") l) = l.
Proof.
  unfold split_ws. induction 1 as [|t l [Hne Ht] Hl IH]; [done|].
  destruct l as [|t' l].
  - cbn [join]. rewrite <- (app_nil_r t) at 1.
    rewrite (split_ws_aux_token _ _ _ Ht). cbn [split_ws_aux].
    rewrite app_nil_r. destruct (rev t) eqn:E.
    + apply (f_equal (@length Z)) in E. rewrite length_rev in E.
      by destruct t.
    + by rewrite <- E, rev_involutive.
  - change (join (lit " ") (t :: t' :: l))
      with (t ++ 32 :: join (lit " ") (t' :: l)).
    rewrite (split_ws_aux_token _ _ _ Ht). cbn [split_ws_aux].
    change (isspace 32) with true. cbn iota. rewrite app_nil_r.
    destruct (rev t) eqn:E.
    + apply (f_equal (@length Z)) in E. rewrite length_rev in E.
      by destruct t.
    + by rewrite <- E, rev_involutive, IH.
Qed.

Lemma strip_token (t : str) :
  Forall (fun c => isspace c = false) t -> strip t = t.
Proof.
  intros Ht. unfold strip.
  assert (forall u, Forall (fun c => isspace c = false) u -> lstrip_ws u = u)
    as Hl.
  { intros [|c u] Hu; [done|]. apply Forall_cons in Hu as [Hc _].
    cbn [lstrip_ws]. by rewrite Hc. }
  rewrite (Hl t Ht), (Hl (rev t)) by by apply Forall_rev.
  apply rev_involutive.
Qed.

Section MainProperties.
Context (lower : str -> str).

(** X13: [parse_input] raises the unpacking [ValueError] on an empty line
    and on a line of blanks only; the arguments it returns are never empty
    and hold no blank; a line of words separated by single spaces is parsed
    into the lower-cased first word and the other words. *)
Theorem parse_input_words (user_input : str) :
  (Forall (fun c => isspace c = true) user_input ->
   parse_input lower user_input
   = Raise (ValueError
              (lit "not enough values to unpack (expected at least 1, got 0)")))
  /\ (forall cmd args,
         parse_input lower user_input = Ok (cmd, args) ->
         Forall (fun t => t <> [] /\ Forall (fun c => isspace c = false) t)
           args)
  /\ (forall w ws,
         Forall (fun t => t <> [] /\ Forall (fun c => isspace c = false) t)
           (w :: ws) ->
         user_input = join (lit " ") (w :: ws) ->
         parse_input lower user_input = Ok (lower w, ws)).
Proof.
  split_and!.
  - intros Hb. unfold parse_input, split_ws.
    by rewrite (split_ws_aux_blank _ Hb).
  - intros cmd args. unfold parse_input, split_ws.
    pose proof (split_ws_aux_tokens [] user_input (Forall_nil_2 _)) as Ht.
    destruct (split_ws_aux [] user_input) as [|c l]; [done|].
    intros [= <- <-]. by apply Forall_cons in Ht as [_ Ht].
  - intros w ws Hw ->. unfold parse_input. rewrite (split_ws_join _ Hw).
    apply Forall_cons in Hw as [[_ Hw] _]. by rewrite (strip_token _ Hw).
Qed.

Lemma dispatch_unknown (today : Datetime.date) (command : str)
  (args : list str) (st : State) :
  command ∉ keywords ->
  dispatch today command args st
  = (Ok (Continue (lit "Invalid command.")), st).
Proof.
  intros Hk.
  assert (forall k, k ∈ keywords -> str_eqb command k = false) as Hne.
  { intros k Hin. apply str_eqb_neq. by intros ->. }
  unfold dispatch. cbn [existsb].
  rewrite !Hne by (unfold keywords; repeat first
    [apply list_elem_of_here | apply list_elem_of_further]).
  reflexivity.
Qed.

Lemma dispatch_break (today : Datetime.date) (command : str)
  (args : list str) (st st' saved : State) (printed : str) :
  dispatch today command args st = (Ok (Break printed saved), st') ->
  saved = st /\ st' = st /\ printed = lit "Good bye!".
Proof.
  unfold dispatch. destruct (existsb _ _); [by intros [= <- <- <-]|].
  unfold mbind, mret, M_bind, M_ret.
  repeat (destruct (str_eqb command _);
          [first [ discriminate
                 | match goal with
                   | |- context [match ?h st with _ => _ end] =>
                       by destruct (h st) as [[?|?] ?]
                   end ]|]).
  discriminate.
Qed.

(** X14: the chain of [main] answers "Invalid command." to every command
    that is not one of its ten keywords and "How can I help you?" to
    [hello], both without touching the book and whatever the arguments; on
    [close] and [exit] it prints "Good bye!" and saves the book as it is,
    and nothing else makes it leave the loop. *)
Theorem dispatch_fixed_answers (today : Datetime.date) (command : str)
  (args : list str) (st : State) :
  (command ∉ keywords ->
   dispatch today command args st
   = (Ok (Continue (lit "Invalid command.")), st))
  /\ dispatch today (lit "hello") args st
     = (Ok (Continue (lit "How can I help you?")), st)
  /\ dispatch today (lit "close") args st
     = (Ok (Break (lit "Good bye!") st), st)
  /\ dispatch today (lit "exit") args st
     = (Ok (Break (lit "Good bye!") st), st)
  /\ (forall printed saved st',
         dispatch today command args st = (Ok (Break printed saved), st') ->
         (command = lit "close" \/ command = lit "exit")
         /\ saved = st /\ st' = st).
Proof.
  split_and!; [apply dispatch_unknown | reflexivity..|].
  intros printed saved st' H.
  destruct (dispatch_break _ _ _ _ _ _ _ H) as (-> & -> & _).
  split; [|done]. revert H. unfold dispatch. cbn [existsb].
  destruct (str_eqb command (lit "close")) eqn:E1;
    [apply str_eqb_eq in E1; by left|].
  destruct (str_eqb command (lit "exit")) eqn:E2;
    [apply str_eqb_eq in E2; by right|].
  cbn [orb]. unfold mbind, mret, M_bind, M_ret.
  repeat (destruct (str_eqb command _);
          [first [ discriminate
                 | match goal with
                   | |- context [match ?h st with _ => _ end] =>
                       by destruct (h st) as [[?|?] ?]
                   end ]|]).
  discriminate.
Qed.
End MainProperties.

Lemma parse_input_words_witness :
  parse_input (fun s => s) (lit "add John 1234567890")
  = Ok (lit "add", [lit "John"; lit "1234567890"])
  /\ parse_input (fun s => s) (lit "   ")
     = Raise (ValueError
                (lit "not enough values to unpack (expected at least 1, got 0)")).
Proof.
  split.
  - destruct (parse_input_words (fun s => s) (lit "add John 1234567890"))
      as (_ & _ & H).
    apply (H (lit "add") [lit "John"; lit "1234567890"]); [|reflexivity].
    repeat (apply Forall_cons_2;
            [split; [discriminate|];
             repeat (apply Forall_cons_2; [reflexivity|]);
             apply Forall_nil_2|]).
    apply Forall_nil_2.
  - apply (parse_input_words (fun s => s) (lit "   ")).
    repeat (apply Forall_cons_2; [reflexivity|]). apply Forall_nil_2.
Defined.

Lemma dispatch_fixed_answers_witness :
  dispatch june_10_2024 (lit "remove") [lit "John"] john_book
  = (Ok (Continue (lit "Invalid command.")), john_book).
Proof.
  apply (dispatch_fixed_answers june_10_2024 (lit "remove") [lit "John"]
           john_book).
  unfold keywords. intros H.
  repeat (apply elem_of_cons in H as [H|H]; [discriminate|]).
  by apply elem_of_nil in H.
Defined.

Section LoopProperties.
Context (lower : str -> str).

Lemma keeps_main_iteration (P : State -> Prop) (today : Datetime.date)
  (user_input : str) :
  (forall args today,
      keeps P (add_contact args) /\ keeps P (change_contact args)
      /\ keeps P (show_phone args) /\ keeps P show_all
      /\ keeps P (add_birthday args) /\ keeps P (show_birthday args)
      /\ keeps P (birthdays today)) ->
  keeps P (main_iteration lower today user_input).
Proof.
  intros H. unfold main_iteration. apply keeps_bind; [apply keeps_lift|].
  intros [command args].
  apply keeps_dispatch.
  - intros a. apply (H a today).
  - intros a. apply (H a today).
  - intros a. apply (H a today).
  - apply (H [] today).
  - intros a. apply (H a today).
  - intros a. apply (H a today).
  - intros t. apply (H [] t).
Qed.

Lemma book_inv_handlers (args : list str) (today : Datetime.date) :
  keeps book_inv (add_contact args) /\ keeps book_inv (change_contact args)
  /\ keeps book_inv (show_phone args) /\ keeps book_inv show_all
  /\ keeps book_inv (add_birthday args)
  /\ keeps book_inv (show_birthday args)
  /\ keeps book_inv (birthdays today).
Proof.
  split_and!;
    [apply preserves_add_contact | apply preserves_change_contact
    | apply preserves_show_phone | apply preserves_show_all
    | apply preserves_add_birthday | apply preserves_show_birthday
    | apply preserves_birthdays].
Qed.

Lemma main_loop_keeps (P : State -> Prop)
  (inputs : list (Datetime.date * str)) (st : State) :
  (forall today user_input, keeps P (main_iteration lower today user_input)) ->
  P st -> P (final_state (snd (main_loop lower inputs st))).
Proof.
  intros Hk. revert st.
  induction inputs as [|[today user_input] inputs IH]; intros st HP; [done|].
  cbn [main_loop]. specialize (Hk today user_input st HP).
  destruct (main_iteration lower today user_input st)
    as [[[printed|printed saved]|e] st'] eqn:E; cbn [snd] in Hk.
  - specialize (IH st' Hk). by destruct (main_loop lower inputs st').
  - unfold main_iteration, mbind, M_bind, lift in E.
    destruct (parse_input lower user_input) as [[command args]|]; [|done].
    by apply dispatch_break in E as (-> & -> & _).
  - done.
Qed.

(** X15: whatever lines are typed, the book the loop holds (and the book it
    saves on [close] or [exit]) has one entry per name, stored under the
    name of its record, and holds valid data only, when the book it started
    from did; the empty book is such a book. *)
Theorem main_loop_keeps_invariants
  (inputs : list (Datetime.date * str)) (st : State) :
  book_inv st -> data_valid st ->
  let fin := snd (main_loop lower inputs st) in
  book_inv (final_state fin) /\ data_valid (final_state fin)
  /\ (forall saved, fin = Exited saved ->
        forall record, record ∈ AddressBook.records saved ->
                       record_ok record).
Proof.
  intros Hinv Hv fin.
  assert (book_inv (final_state fin)) as H1.
  { apply main_loop_keeps; [|done]. intros today user_input.
    apply keeps_main_iteration. intros. apply book_inv_handlers. }
  assert (data_valid (final_state fin)) as H2.
  { apply main_loop_keeps; [|done]. intros today user_input.
    apply keeps_main_iteration. intros. apply data_valid_handlers. }
  split_and!; [done..|].
  intros saved Hfin record Hin. rewrite Hfin in H2. cbn in H2.
  unfold AddressBook.records in Hin.
  apply list_elem_of_omap in Hin as (r & _ & Hr).
  unfold data_valid in H2. rewrite Forall_forall in H2.
  apply H2. by eapply list_elem_of_lookup_2.
Qed.

(** X16: an empty line or a line of blanks ends the loop with the
    [ValueError] of [parse_input], and, where lower-casing leaves "phone"
    and "show-birthday" as they are, so does each of these two commands
    typed without an argument, with an [IndexError]; the lines before are
    answered, nothing is printed for the line and the book is not saved. *)
Theorem main_loop_crashes (today : Datetime.date) (user_input : str)
  (inputs : list (Datetime.date * str)) (st : State) :
  (Forall (fun c => isspace c = true) user_input ->
   main_loop lower ((today, user_input) :: inputs) st
   = ([], Crashed
            (ValueError
               (lit "not enough values to unpack (expected at least 1, got 0)"))
            st))
  /\ (lower (lit "phone") = lit "phone" ->
      main_loop lower ((today, lit "phone") :: inputs) st
      = ([], Crashed (IndexError (lit "list index out of range")) st))
  /\ (lower (lit "show-birthday") = lit "show-birthday" ->
      main_loop lower ((today, lit "show-birthday") :: inputs) st
      = ([], Crashed (IndexError (lit "list index out of range")) st)).
Proof.
  split_and!.
  - intros Hb. cbn [main_loop]. unfold main_iteration, mbind, M_bind, lift.
    unfold parse_input, split_ws. by rewrite (split_ws_aux_blank _ Hb).
  - intros Hl. cbn [main_loop]. unfold main_iteration, mbind, M_bind, lift.
    assert (parse_input lower (lit "phone") = Ok (lit "phone", [])) as ->.
    { unfold parse_input.
      change (split_ws (lit "phone")) with [lit "phone"]. cbn iota.
      change (strip (lit "phone")) with (lit "phone"). by rewrite Hl. }
    reflexivity.
  - intros Hl. cbn [main_loop]. unfold main_iteration, mbind, M_bind, lift.
    assert (parse_input lower (lit "show-birthday")
            = Ok (lit "show-birthday", [])) as ->.
    { unfold parse_input.
      change (split_ws (lit "show-birthday")) with [lit "show-birthday"]. cbn iota.
      change (strip (lit "show-birthday")) with (lit "show-birthday"). by rewrite Hl. }
    reflexivity.
Qed.
End LoopProperties.

Lemma main_loop_keeps_invariants_witness :
  let fin :=
    snd (main_loop (fun s => s)
           [(june_10_2024, lit "add John 1234567890");
            (june_10_2024, lit "add-birthday John 15.06.1990");
            (june_10_2024, lit "exit")] empty_book) in
  book_inv (final_state fin) /\ data_valid (final_state fin)
  /\ fin
     = Exited
         (mkState
            [Rec.mk (mkName (lit "John")) [mkPhone (lit "1234567890")]
               (Some (mkBirthday (Datetime.mkdate 1990 6 15)))]
            [(lit "John", 0%nat)]).
Proof.
  intros fin.
  destruct (main_loop_keeps_invariants (fun s => s)
              [(june_10_2024, lit "add John 1234567890");
               (june_10_2024, lit "add-birthday John 15.06.1990");
               (june_10_2024, lit "exit")] empty_book book_inv_empty
              (Forall_nil_2 _)) as (H1 & H2 & _).
  split_and!; [exact H1 | exact H2 | vm_compute; reflexivity].
Defined.

Lemma main_loop_crashes_witness :
  main_loop (fun s => s)
    [(june_10_2024, lit " "); (june_10_2024, lit "exit")] empty_book
  = ([],
     Crashed
       (ValueError
          (lit "not enough values to unpack (expected at least 1, got 0)"))
       empty_book)
  /\ main_loop (fun s => s) [(june_10_2024, lit "phone")] john_book
     = ([], Crashed (IndexError (lit "list index out of range")) john_book).
Proof.
  split.
  - apply (main_loop_crashes (fun s => s) june_10_2024 (lit " ")
             [(june_10_2024, lit "exit")] empty_book).
    apply Forall_singleton. reflexivity.
  - apply (main_loop_crashes (fun s => s) june_10_2024 [] [] john_book).
    reflexivity.
Defined.

(** ** The upcoming birthdays of a book *)

Section UpcomingProperties.
Import Datetime AddressBook.

Lemma upcoming_Some_inv today record e :
  valid today -> upcoming today record = Ok (Some e) ->
  exists b occ cd,
    Rec.birthday record = Some b
    /\ occurrence today (birthday_value b) = Ok occ
    /\ 0 <= sub_days occ today <= 7
    /\ add_days today (congratulation_days today occ) = Ok cd
    /\ e = mk_entry (name_value (Rec.name record))
             (strftime (lit "%Y.%m.%d") cd).
Proof.
  intros Ht Hu. destruct (Rec.birthday record) as [b|] eqn:Hb.
  - rewrite (upcoming_occurrence _ _ _ Hb) in Hu.
    unfold mbind, result_bind in Hu.
    destruct (occurrence today (birthday_value b)) as [occ|] eqn:Ho;
      [|discriminate].
    cbn [bind] in Hu.
    destruct ((0 <=? sub_days occ today) && (sub_days occ today <=? 7))
      eqn:Hw; [|discriminate].
    destruct (add_days today (congratulation_days today occ)) as [cd|] eqn:Ha;
      [|discriminate].
    cbn [bind] in Hu. injection Hu as <-.
    exists b, occ, cd. split_and!; try done; lia.
  - by rewrite (upcoming_no_birthday _ _ Hb) in Hu.
Qed.

(** The loop body returns, or raises the [ValueError] of a date that does
    not exist. *)
Lemma upcoming_result today record :
  valid today ->
  (exists e, upcoming today record = Ok e)
  \/ exists msg, upcoming today record = Raise (ValueError msg).
Proof.
  intros Ht. destruct (Rec.birthday record) as [b|] eqn:Hb.
  - destruct (occurrence today (birthday_value b)) as [occ|e] eqn:Ho.
    + left. destruct (upcoming_included_iff _ _ _ _ Ht Hb Ho) as [H1 H2].
      destruct (decide (0 <= sub_days occ today <= 7)) as [Hd|Hd].
      * destruct (H1 Hd) as [e ->]. by eexists.
      * rewrite (H2 Hd). by eexists.
    + right. rewrite (upcoming_occurrence _ _ _ Hb), Ho.
      unfold mbind, result_bind; cbn [bind].
      revert Ho. unfold occurrence, replace_year, mbind, result_bind.
      destruct (new_result (year today) (month (birthday_value b))
                  (day (birthday_value b))) as [[x Hx]|[msg Hx]];
        rewrite Hx; cbn [bind]; [|intros [= <-]; by eexists].
      destruct (ltb x today); [|discriminate].
      destruct (new_result (year today + 1) (month x) (day x))
        as [[x' Hx']|[msg Hx']]; rewrite Hx'; [discriminate|].
      intros [= <-]. by eexists.
  - left. rewrite (upcoming_no_birthday _ _ Hb). by eexists.
Qed.

(** X17: every entry of the list [get_upcoming_birthdays] returns is made
    from a record of the book whose occurrence is zero to seven days ahead;
    it carries the name of the record and the text of a date that exists,
    is a Monday to Friday, and is the occurrence or at most two days after
    it, so at most nine days after today. *)
Theorem upcoming_entries_are_weekdays today st l e :
  valid today ->
  get_upcoming_birthdays today st = (Ok l, st) -> e ∈ l ->
  exists record b occ cd,
    record ∈ records st
    /\ Rec.birthday record = Some b
    /\ occurrence today (birthday_value b) = Ok occ
    /\ 0 <= sub_days occ today <= 7
    /\ e = mk_entry (name_value (Rec.name record))
             (strftime (lit "%Y.%m.%d") cd)
    /\ valid cd
    /\ 0 <= weekday cd <= 4
    /\ 0 <= sub_days cd occ <= 2
    /\ 0 <= sub_days cd today <= 9.
Proof.
  intros Ht Hget Hin.
  apply (get_upcoming_birthdays_elem _ _ _ _ Hget) in Hin
    as (record & Hrec & Hu).
  destruct (upcoming_Some_inv _ _ _ Ht Hu)
    as (b & occ & cd & Hb & Ho & Hd & Ha & ->).
  exists record, b, occ, cd.
  destruct (occurrence_valid _ _ _ Ho) as [Hv _].
  destruct (congratulation_days_in_range _ _ Ht Hv Hd) as [Hr Hc].
  destruct (add_days_ok _ _ Hr) as (cd' & Ha' & Hvcd & Hord).
  rewrite Ha in Ha'. injection Ha' as <-.
  assert (0 <= weekday cd <= 4 /\ 0 <= sub_days cd occ <= 2) as [Hwd Hocc].
  { revert Hord. unfold congratulation_days, weekday, sub_days in *.
    cbv zeta.
    destruct ((_ =? 5) || (_ =? 6)) eqn:E.
    - rewrite orb_true_iff, !Z.eqb_eq in E. intros Hord.
      Z.div_mod_to_equations. lia.
    - rewrite orb_false_iff, !Z.eqb_neq in E. intros Hord.
      Z.div_mod_to_equations. lia. }
  split_and!; try done; unfold sub_days in *; lia.
Qed.
End UpcomingProperties.

Lemma upcoming_entries_are_weekdays_witness :
  let e := AddressBook.mk_entry (lit "Ann") (lit "2024.06.17") in
  AddressBook.get_upcoming_birthdays june_10_2024 ann_book
  = (Ok [e], ann_book)
  /\ exists cd,
      e = AddressBook.mk_entry (lit "Ann")
            (Datetime.strftime (lit "%Y.%m.%d") cd)
      /\ 0 <= Datetime.weekday cd <= 4.
Proof.
  intros e.
  assert (AddressBook.get_upcoming_birthdays june_10_2024 ann_book
          = (Ok [e], ann_book)) as Hget by (vm_compute; reflexivity).
  split; [exact Hget|].
  destruct (upcoming_entries_are_weekdays june_10_2024 ann_book [e] e)
    as (record & b & occ & cd & Hin & _ & _ & _ & He & _ & Hwd & _).
  - unfold Datetime.valid. vm_compute. intuition discriminate.
  - exact Hget.
  - apply list_elem_of_here.
  - exists cd. split; [|exact Hwd]. rewrite He. f_equal.
    by injection He as <- _.
Defined.

Section UpcomingOrder.
Import Datetime AddressBook.

Lemma upcoming_name today record e :
  upcoming today record = Ok (Some e) -> e_name e = record_name record.
Proof.
  unfold upcoming. destruct (Rec.birthday record) as [b|]; [|discriminate].
  unfold mbind, result_bind.
  destruct (replace_year _ _) as [this|]; [|discriminate]. cbn [bind].
  destruct (if ltb this today then _ else _) as [occ|]; [|discriminate].
  cbn [bind]. destruct (_ && _); [|discriminate].
  destruct (add_days _ _) as [cd|]; [|discriminate]. cbn [bind].
  by intros [= <-].
Qed.

Lemma map_result_names today (records : list Rec.t)
  (es : list (option entry)) :
  map_result (upcoming today) records = Ok es ->
  sublist (map e_name (omap id es)) (map record_name records).
Proof.
  revert es. induction records as [|record records IH]; intros es.
  - intros [= <-]. constructor.
  - cbn [map_result]. destruct (upcoming today record) as [e|] eqn:Hu;
      [|discriminate].
    cbn [bind].
    destruct (map_result (upcoming today) records) as [es'|]; [|discriminate].
    cbn [bind]. intros [= <-]. specialize (IH es' eq_refl).
    destruct e as [e|].
    + change (omap id (Some e :: es')) with (e :: omap id es').
      cbn [map]. rewrite (upcoming_name _ _ _ Hu). by apply sublist_skip.
    + change (omap id (None :: es')) with (omap id es').
      cbn [map]. by apply sublist_cons.
Qed.

(** In a book that satisfies the invariant the names of the records, in
    the order of the values of the dict, are its keys. *)
Lemma records_names (h : list Rec.t) (d : list (str * nat)) :
  (forall k r, (k, r) ∈ d ->
               exists o, h !! r = Some o /\ name_value (Rec.name o) = k) ->
  map record_name (omap (fun r => h !! r) (Dict.values d)) = Dict.keys d.
Proof.
  unfold Dict.keys, Dict.values.
  induction d as [|[k r] d IH]; intros Hkeys; [done|].
  cbn [map fst snd].
  destruct (Hkeys k r (list_elem_of_here _ _)) as (o & Ho & Hk).
  change (omap (fun r => h !! r) (r :: map snd d))
    with (match h !! r with
          | Some o => o :: omap (fun r => h !! r) (map snd d)
          | None => omap (fun r => h !! r) (map snd d)
          end).
  rewrite Ho. cbn [map]. unfold record_name at 1. rewrite Hk. f_equal.
  apply IH. intros k' r' Hin. apply Hkeys. by apply list_elem_of_further.
Qed.

(** X18: the names in the list [get_upcoming_birthdays] returns come in the
    order the book holds its records (a sublist of the names of the book),
    not in the order of the dates, and no name comes twice in a book that
    has one entry per name. *)
Theorem upcoming_follows_book_order today st l :
  get_upcoming_birthdays today st = (Ok l, st) ->
  sublist (map e_name l) (map record_name (records st))
  /\ (book_inv st -> NoDup (map e_name l)).
Proof.
  intros Hget.
  assert (sublist (map e_name l) (map record_name (records st))) as Hsub.
  { revert Hget. unfold get_upcoming_birthdays.
    rewrite upcoming_loop_spec. unfold mbind, result_bind.
    destruct (map_result (upcoming today) (records st)) as [es|] eqn:E;
      [|discriminate].
    cbn [bind app]. intros [= <-]. by apply (map_result_names today). }
  split; [done|]. intros [Hnd Hkeys].
  refine (sublist_NoDup _ _ _ Hsub).
  unfold records. by rewrite (records_names (heap st) (data st) Hkeys).
Qed.
End UpcomingOrder.

Lemma upcoming_follows_book_order_witness :
  sublist [lit "Ann"] (map record_name (AddressBook.records ann_book))
  /\ AddressBook.get_upcoming_birthdays june_10_2024 ann_book
     = (Ok [AddressBook.mk_entry (lit "Ann") (lit "2024.06.17")], ann_book).
Proof.
  assert (AddressBook.get_upcoming_birthdays june_10_2024 ann_book
          = (Ok [AddressBook.mk_entry (lit "Ann") (lit "2024.06.17")],
             ann_book)) as Hget by (vm_compute; reflexivity).
  split; [|exact Hget].
  apply (upcoming_follows_book_order june_10_2024 ann_book
           [AddressBook.mk_entry (lit "Ann") (lit "2024.06.17")] Hget).
Defined.

Section LeapDay.
Import Datetime AddressBook.

Lemma new_day_error y m d :
  MINYEAR <= y <= MAXYEAR -> 1 <= m <= 12 ->
  (exists x, new y m d = Ok x) \/ new y m d = Raise (ValueError day_error).
Proof.
  unfold new, MINYEAR, MAXYEAR. intros Hy Hm.
  assert ((1 <=? y) && (y <=? 9999) = true) as -> by lia.
  assert ((1 <=? m) && (m <=? 12) = true) as -> by lia.
  cbn [negb]. destruct (negb _); [by right|left; by eexists].
Qed.

Lemma new_leap_day y :
  MINYEAR <= y <= MAXYEAR -> _is_leap y = false ->
  new y 2 29 = Raise (ValueError day_error).
Proof.
  unfold new, MINYEAR, MAXYEAR, _days_in_month. intros Hy Hl.
  assert ((1 <=? y) && (y <=? 9999) = true) as -> by lia.
  rewrite Hl. reflexivity.
Qed.

Lemma is_leap_succ y : _is_leap y = true -> _is_leap (y + 1) = false.
Proof.
  unfold _is_leap. rewrite andb_true_iff, andb_false_iff, !Z.eqb_eq.
  intros [H _]. left. apply Z.eqb_neq. Z.div_mod_to_equations. lia.
Qed.

Lemma occurrence_day_error today b :
  valid today -> valid b -> year today < MAXYEAR ->
  (exists occ, occurrence today b = Ok occ)
  \/ occurrence today b = Raise (ValueError day_error).
Proof.
  intros (Hty & _) (Hby & Hbm & _) Hlast. unfold MINYEAR, MAXYEAR in *.
  unfold occurrence, replace_year, mbind, result_bind.
  destruct (new_day_error (year today) (month b) (day b))
    as [[x Hx]|Hx]; [done..| |]; rewrite Hx; cbn [bind]; [|by right].
  apply new_inv in Hx as [-> _]. cbn [month day].
  destruct (ltb _ today); [|left; by eexists].
  destruct (new_day_error (year today + 1) (month b) (day b))
    as [[x' Hx']|Hx']; [unfold MINYEAR, MAXYEAR; lia|done| |];
    rewrite Hx'; [left; by eexists|by right].
Qed.

Lemma occurrence_leap_day today b :
  valid today -> year today < MAXYEAR -> leap_day b ->
  _is_leap (year today) = false
  \/ ltb (mkdate (year today) 2 29) today = true ->
  occurrence today b = Raise (ValueError day_error).
Proof.
  intros (Hty & _) Hlast [Hm Hd] Hcase. unfold MINYEAR, MAXYEAR in *.
  unfold occurrence, replace_year, mbind, result_bind. rewrite Hm, Hd.
  destruct (_is_leap (year today)) eqn:Hl.
  - destruct Hcase as [|Hlt]; [done|].
    assert (valid (mkdate (year today) 2 29)) as Hv.
    { split; [done|]. split; [done|]. cbn [year month day].
      unfold _days_in_month. by rewrite Hl. }
    rewrite (new_ok _ _ _ Hv). cbn [bind month day]. rewrite Hlt.
    apply new_leap_day; [unfold MINYEAR, MAXYEAR; lia|by apply is_leap_succ].
  - by rewrite new_leap_day.
Qed.

Lemma map_result_first_error {A B} (f : A -> result B) (l : list A)
  (e : exn) :
  (forall x, x ∈ l -> (exists y, f x = Ok y) \/ f x = Raise e) ->
  (exists x, x ∈ l /\ f x = Raise e) ->
  map_result f l = Raise e.
Proof.
  induction l as [|a l IH]; intros Hall (x & Hin & Hx);
    [by apply elem_of_nil in Hin|].
  cbn [map_result].
  destruct (Hall a (list_elem_of_here _ _)) as [[y Hy]|Hy];
    rewrite Hy; [|done].
  cbn [bind]. rewrite IH; [done| |].
  - intros x' Hin'. apply Hall. by apply list_elem_of_further.
  - apply elem_of_cons in Hin as [->|Hin]; [congruence|]. by exists x.
Qed.

Lemma upcoming_day_error today record :
  valid today -> year today < MAXYEAR -> record_ok record ->
  (exists e, upcoming today record = Ok e)
  \/ upcoming today record = Raise (ValueError day_error).
Proof.
  intros Ht Hlast (_ & _ & Hb).
  destruct (Rec.birthday record) as [b|] eqn:E.
  - destruct (occurrence_day_error today (birthday_value b) Ht (Hb b eq_refl)
                Hlast) as [[occ Ho]|Ho].
    + left. destruct (upcoming_included_iff _ _ _ _ Ht E Ho) as [H1 H2].
      destruct (decide (0 <= sub_days occ today <= 7)) as [Hd|Hd].
      * destruct (H1 Hd) as [e ->]. by eexists.
      * rewrite (H2 Hd). by eexists.
    + right. by rewrite (upcoming_occurrence _ _ _ E), Ho.
  - left. rewrite (upcoming_no_birthday _ _ E). by eexists.
Qed.
End LeapDay.

Section QueryOutcome.
Import Datetime AddressBook.

(** X19: in a book of valid data without a birthday on 29 February, the
    query returns a list in every year but the last one [date] can hold;
    its entries are the ones the loop body makes for the contacts of the
    book, and the [birthdays] handler answers with one line "Name: ...,
    Birthday: ..." for each entry, in the order of the list, or with the
    sentence for an empty list. *)
Theorem query_returns_without_leap_days today st :
  valid today -> year today < MAXYEAR ->
  (forall key r record,
      (key, r) ∈ data st -> heap st !! r = Some record ->
      record_ok record) ->
  (forall key r record b,
      (key, r) ∈ data st -> heap st !! r = Some record ->
      Rec.birthday record = Some b ->
      ~ leap_day (birthday_value b)) ->
  exists l,
    get_upcoming_birthdays today st = (Ok l, st)
    /\ (forall e,
           e ∈ l
           <-> exists key r record,
               (key, r) ∈ data st /\ heap st !! r = Some record
               /\ upcoming today record = Ok (Some e))
    /\ birthdays today st
       = (Ok (match l with
              | [] => lit "No upcoming birthdays in the next week."
              | _ => join [10] (map birthday_line l)
              end), st).
Proof.
  intros Ht Hlast Hok Hleap.
  destruct (get_upcoming_birthdays_returns today st Ht) as [l Hl].
  { intros record b Hin Hb.
    apply records_elem in Hin as (key & r & Hkey & Hr).
    apply occurrence_exists; [done| |done|by apply (Hleap key r record)].
    destruct (Hok key r record Hkey Hr) as (_ & _ & Hv). by apply Hv. }
  exists l. split_and!; [done| |].
  - intros e. rewrite (get_upcoming_birthdays_elem _ _ _ _ Hl). split.
    + intros (record & Hin & Hu).
      apply records_elem in Hin as (key & r & Hkey & Hr).
      by exists key, r, record.
    + intros (key & r & record & Hkey & Hr & Hu). exists record.
      split; [|done]. apply records_elem. by exists key, r.
  - unfold birthdays, handle_errors, mbind, mret, M_bind, M_ret.
    rewrite Hl. by destruct l.
Qed.

(** X20: in a book of valid data, one record with a birthday on
    29 February makes the query raise for every other record too, in a year
    that is not a leap year and, in a leap year, once 29 February has
    passed; [birthdays] then answers with the text of the exception. *)
Theorem leap_day_blocks_query today st record b :
  valid today -> year today < MAXYEAR ->
  (forall record, record ∈ records st -> record_ok record) ->
  record ∈ records st -> Rec.birthday record = Some b ->
  leap_day (birthday_value b) ->
  _is_leap (year today) = false
  \/ ltb (mkdate (year today) 2 29) today = true ->
  get_upcoming_birthdays today st = (Raise (ValueError day_error), st)
  /\ birthdays today st = (Ok day_error, st).
Proof.
  intros Ht Hlast Hok Hin Hb Hleap Hcase.
  assert (get_upcoming_birthdays today st
          = (Raise (ValueError day_error), st)) as Hget.
  { unfold get_upcoming_birthdays. rewrite upcoming_loop_spec.
    unfold mbind, result_bind.
    rewrite (map_result_first_error (upcoming today) (records st)
               (ValueError day_error)); [done| |].
    - intros x Hx. apply upcoming_day_error; [done..|by apply Hok].
    - exists record. split; [done|].
      rewrite (upcoming_occurrence _ _ _ Hb).
      by rewrite (occurrence_leap_day _ _ Ht Hlast Hleap Hcase). }
  split; [done|].
  unfold birthdays, handle_errors, mbind, mret, M_bind, M_ret.
  by rewrite Hget.
Qed.

(** X21: when no record of the book has a birthday, [birthdays] answers
    with the sentence for an empty list, at any date. *)
Theorem birthdays_without_birthdays today st :
  (forall record, record ∈ records st -> Rec.birthday record = None) ->
  get_upcoming_birthdays today st = (Ok [], st)
  /\ birthdays today st
     = (Ok (lit "No upcoming birthdays in the next week."), st).
Proof.
  intros Hnone.
  assert (get_upcoming_birthdays today st = (Ok [], st)) as Hget.
  { unfold get_upcoming_birthdays. f_equal.
    induction (records st) as [|record l IH]; [done|].
    cbn [upcoming_loop].
    rewrite (upcoming_no_birthday today record)
      by apply Hnone, list_elem_of_here.
    unfold mbind, result_bind; cbn [bind]. apply IH.
    intros r Hr. by apply Hnone, list_elem_of_further. }
  split; [done|].
  unfold birthdays, handle_errors, mbind, mret, M_bind, M_ret.
  by rewrite Hget.
Qed.
End QueryOutcome.

Lemma query_returns_without_leap_days_witness :
  AddressBook.get_upcoming_birthdays june_10_2024 ann_book
  = (Ok [AddressBook.mk_entry (lit "Ann") (lit "2024.06.17")], ann_book)
  /\ birthdays june_10_2024 ann_book
     = (Ok (lit "Name: Ann, Birthday: 2024.06.17"), ann_book).
Proof.
  destruct (query_returns_without_leap_days june_10_2024 ann_book)
    as (l & Hl & _ & Hout).
  - unfold Datetime.valid. vm_compute. intuition discriminate.
  - reflexivity.
  - intros key r record Hkey Hr.
    apply elem_of_cons in Hkey as [[= -> ->]|Hkey];
      [|apply list_elem_of_singleton in Hkey as [= -> ->]];
      injection Hr as <-.
    + split; [discriminate|]. split; [apply Forall_nil_2|].
      intros b [= <-]. unfold Datetime.valid. vm_compute.
      intuition discriminate.
    + split; [discriminate|]. split.
      * apply Forall_singleton. split; [reflexivity|]. repeat constructor.
      * intros b Hb. discriminate.
  - intros key r record b Hkey Hr Hb [Hm _].
    apply elem_of_cons in Hkey as [[= -> ->]|Hkey];
      [|apply list_elem_of_singleton in Hkey as [= -> ->]];
      injection Hr as <-.
    + injection Hb as <-. discriminate.
    + discriminate.
  - pose proof Hl as Hl'. vm_compute in Hl'. injection Hl' as <-.
    split; [exact Hl|exact Hout].
Defined.

Lemma leap_day_blocks_query_witness :
  AddressBook.get_upcoming_birthdays (Datetime.mkdate 2023 6 10)
    leap_day_book
  = (Raise (ValueError day_error), leap_day_book)
  /\ birthdays (Datetime.mkdate 2024 3 1) leap_day_book
     = (Ok day_error, leap_day_book).
Proof.
  assert (forall record,
             record ∈ AddressBook.records leap_day_book -> record_ok record)
    as Hok.
  { intros record Hin.
    apply elem_of_cons in Hin as [->|Hin];
      [|apply list_elem_of_singleton in Hin as ->].
    - split; [discriminate|]. split.
      + apply Forall_singleton. split; [reflexivity|]. repeat constructor.
      + intros b [= <-]. unfold Datetime.valid. vm_compute.
        intuition discriminate.
    - split; [discriminate|]. split.
      + apply Forall_singleton. split; [reflexivity|]. repeat constructor.
      + intros b [= <-]. unfold Datetime.valid. vm_compute.
        intuition discriminate. }
  assert (alice ∈ AddressBook.records leap_day_book) as Hin
      by apply list_elem_of_further, list_elem_of_here.
  split.
  - apply (leap_day_blocks_query (Datetime.mkdate 2023 6 10) leap_day_book
             alice (mkBirthday (Datetime.mkdate 2000 2 29)));
      first [ done | by left
            | unfold Datetime.valid; vm_compute; intuition discriminate ].
  - apply (leap_day_blocks_query (Datetime.mkdate 2024 3 1) leap_day_book
             alice (mkBirthday (Datetime.mkdate 2000 2 29)));
      first [ done | by right
            | unfold Datetime.valid; vm_compute; intuition discriminate ].
Defined.

Lemma birthdays_without_birthdays_witness :
  birthdays june_10_2024 john_book
  = (Ok (lit "No upcoming birthdays in the next week."), john_book).
Proof.
  apply (birthdays_without_birthdays june_10_2024 john_book).
  intros record Hin. by apply list_elem_of_singleton in Hin as ->.
Defined.

(** ** Names, descriptions and phone lists *)

(** X22: [Record] refuses an empty name: [add_contact] with an empty name
    answers "Name cannot be empty" and stores nothing, in every book that
    holds valid data under the names of its records. *)
Theorem add_contact_empty_name (st : State) (phone : str) (rest : list str) :
  book_inv st -> data_valid st ->
  Rec.init [] = Raise (ValueError (lit "Name cannot be empty"))
  /\ add_contact ([] :: phone :: rest) st
     = (Ok (lit "Name cannot be empty"), st).
Proof.
  intros [_ Hkeys] Hv. split; [reflexivity|].
  assert (Dict.get [] (data st) = None) as Hget.
  { destruct (Dict.get [] (data st)) as [r|] eqn:E; [|done].
    apply get_Some_elem_of, Hkeys in E as (o & Ho & Hname).
    unfold data_valid in Hv. rewrite Forall_forall in Hv.
    by destruct (Hv o (list_elem_of_lookup_2 _ _ _ Ho)) as [Hne _]. }
  unfold add_contact, handle_errors, Record_new. munfold.
  by rewrite Hget.
Qed.

Lemma add_contact_empty_name_witness :
  add_contact [[]; lit "1234567890"] empty_book
  = (Ok (lit "Name cannot be empty"), empty_book).
Proof.
  apply (add_contact_empty_name empty_book (lit "1234567890") []).
  - apply book_inv_empty.
  - apply Forall_nil_2.
Defined.

(** X23: the description of a record is "Contact name: ", the name,
    ", phones: ", the phones joined by "; ", ", Birthday: " and the
    birthday; a birthday built from DD.MM.YYYY is shown as the day, the
    month and the year without its leading zeros, with blanks where
    [show_birthday] prints dots, which is DD MM YYYY exactly when the year
    is 1000 or later; a record without a birthday shows None. *)
Theorem description_of_record (name : str) (phones : list str)
  (d1 d2 m1 m2 y1 y2 y3 y4 : Z) :
  Forall ascii_digit [d1; d2; m1; m2; y1; y2; y3; y4] ->
  forall b, Birthday_init [d1; d2; 46; m1; m2; 46; y1; y2; y3; y4] = Ok b ->
  let shown := [d1; d2; 32; m1; m2; 32] ++ drop_zeros [y1; y2; y3; y4] in
  Rec.to_str (Rec.mk (mkName name) (map mkPhone phones) (Some b))
  = lit "Contact name: " ++ name ++ lit ", phones: "
    ++ join (lit "; ") phones ++ lit ", Birthday: " ++ shown
  /\ (shown = [d1; d2; 32; m1; m2; 32; y1; y2; y3; y4]
      <-> 1000 <= num4 y1 y2 y3 y4)
  /\ Rec.to_str (Rec.mk (mkName name) (map mkPhone phones) None)
     = lit "Contact name: " ++ name ++ lit ", phones: "
       ++ join (lit "; ") phones ++ lit ", Birthday: None".
Proof.
  intros Hd b Hb shown.
  assert (map __str__ (map mkPhone phones) = phones) as Hphones.
  { rewrite map_map. apply map_id. }
  split; [|split; [apply (rendering_same_iff 32 _ _ _ _ _ _ _ _ Hd)|]];
    unfold Rec.to_str; cbn [Rec.name Rec.phones Rec.birthday name_value];
    rewrite Hphones; [|done].
  do 5 f_equal.
  pose proof (strptime_wellformed _ _ _ _ _ _ _ _ Hd) as Hp.
  pose proof (strftime_wellformed 32 _ _ _ _ _ _ _ _ Hd) as Hfmt.
  unfold Birthday_init in Hb. rewrite Hp in Hb.
  destruct (_ && _); [|discriminate].
  destruct (Datetime.new _ _ _) as [x|[]] eqn:Hn; try discriminate.
  injection Hb as <-. apply new_inv in Hn as [-> _]. cbn [birthday_value].
  by rewrite strftime_dmY_blank.
Qed.

Lemma description_of_record_witness :
  Rec.to_str
    (Rec.mk (mkName (lit "John"))
       [mkPhone (lit "1111111111"); mkPhone (lit "2222222222")]
       (Some (mkBirthday (Datetime.mkdate 1990 6 15))))
  = lit "Contact name: John, phones: 1111111111; 2222222222, Birthday: 15 06 1990"
  /\ Rec.to_str
       (Rec.mk (mkName (lit "John")) []
          (Some (mkBirthday (Datetime.mkdate 990 6 15))))
     = lit "Contact name: John, phones: , Birthday: 15 06 990".
Proof.
  assert (forall l, forallb (fun c => (48 <=? c) && (c <=? 57)) l = true ->
                    Forall ascii_digit l) as Hall.
  { intros l Hl. apply Forall_forall. intros c Hc.
    rewrite forallb_forall in Hl. apply list_elem_of_In, Hl in Hc.
    unfold ascii_digit. lia. }
  split.
  - apply (description_of_record (lit "John")
             [lit "1111111111"; lit "2222222222"] 49 53 48 54 49 57 57 48).
    + by apply Hall.
    + vm_compute. reflexivity.
  - apply (description_of_record (lit "John") [] 49 53 48 54 48 57 57 48).
    + by apply Hall.
    + vm_compute. reflexivity.
Defined.

Lemma split_aux_not_nil (sep : Z) (cur s : str) : split_aux sep cur s <> [].
Proof.
  revert cur. induction s as [|c s IH]; intros cur; cbn [split_aux];
    [done|]. destruct (c =? sep); [done|apply IH].
Qed.

(** X24: a [change_contact] that answers "Contact changed." leaves the
    contact with at least one phone, all of them valid: the list of phones
    cannot be emptied through this handler. *)
Theorem change_contact_never_clears (st st' : State) (name phone : str)
  (r : ref) :
  Dict.get name (data st) = Some r ->
  change_contact [name; phone] st = (Ok (lit "Contact changed."), st') ->
  exists o',
    heap st' !! r = Some o' /\ data st' = data st
    /\ Rec.phones o' <> []
    /\ Forall (fun p => phone_ok (phone_value p)) (Rec.phones o').
Proof.
  intros Hget. unfold change_contact, handle_errors, unpack2. munfold.
  rewrite Hget. fold comma.
  destruct (map_result Phone_init (split comma phone)) as [ps|e] eqn:E.
  - destruct (heap st !! r) as [o|] eqn:Hr; [|discriminate].
    intros [= <-]. exists (Rec.set_phones ps o). cbn [heap data].
    split_and!.
    + apply list_lookup_insert_eq. by eapply lookup_lt_Some.
    + done.
    + destruct o. cbn [Rec.set_phones Rec.phones]. intros ->.
      destruct (split comma phone) as [|s l] eqn:Es.
      * by apply split_aux_not_nil in Es.
      * cbn [map_result] in E. destruct (Phone_init s); [|discriminate].
        cbn [bind] in E. by destruct (map_result Phone_init l).
    + destruct o. cbn [Rec.set_phones Rec.phones].
      by apply (map_Phone_init_valid _ _ E).
  - destruct e; intros [= H]; try discriminate.
    destruct (decide (Forall phone_ok (split comma phone))) as [Hok|Hbad].
    + by rewrite (map_Phone_init_ok _ Hok) in E.
    + apply not_Forall_Exists in Hbad; [|intros s; apply (phone_ok_dec s)].
      rewrite (map_Phone_init_bad _ Hbad) in E. injection E as <-.
      discriminate.
Qed.

Lemma change_contact_never_clears_witness :
  exists o',
    heap (snd (change_contact [lit "John"; lit "1111111111"] john_book))
      !! 0%nat = Some o'
    /\ Rec.phones o' <> [].
Proof.
  destruct (change_contact_never_clears john_book
              (snd (change_contact [lit "John"; lit "1111111111"] john_book))
              (lit "John") (lit "1111111111") 0%nat)
    as (o' & H1 & _ & H2 & _); [reflexivity | reflexivity |].
  by exists o'.
Defined.
